(** * The page-analytics counter (src/counter.js): model and properties

    A shallow embedding of the tracking script: the script's module-level
    variables become one record, the browser becomes a [Host] record the
    script reads from, and every function of the script becomes a
    computation in a small state monad over the [World] (variables, host,
    pending callbacks, the clock and a log of what the script did).

    Numbers: [Date.now()], [scrollHeight] and [innerHeight] are integers
    ([Z]), far below 2^53, where the arithmetic of the script is exact.
    [scrollY] and [performance.now()] can be fractional: they are doubles,
    held as the rational ([Q]) a finite double stands for, and every
    operation the script does on them gives the double nearest to the
    exact result, as [Double] has it (a result beyond the range of a
    double, which these measures do not reach, has no value here).
    Reads the script wraps in [try] can throw ([option] in the [Host]);
    the model starts after [initConfig], with [config] set and the
    document present, and takes the payload to be serialisable, so
    nothing else throws.  [getCustomProps], which [initConfig] calls for
    the custom properties, is modelled on its own. *)

From Stdlib Require Import ZArith QArith Qround Qminmax List String Ascii Bool Lia.
From Stdlib Require Import Permutation.
From Stdlib Require Floats.
Import ListNotations.

Set Warnings "-register-all".
Open Scope Z_scope.

(* ================================================================== *)
(** ** JavaScript values that travel in a payload *)
(* ================================================================== *)

(** The [p] field of a payload is a host-visible JavaScript value: the
    custom properties read from the tag, or whatever the host's
    before-send function returned. *)
Inductive JsVal : Type :=
| JUndefined
| JNull
| JBool (b : bool)
| JNum (z : Z)
| JStr (s : string)
| JObj (kv : list (string * JsVal)).

(** The key/value pairs of an object. *)
Definition Obj : Type := list (string * JsVal).

(** [x - engagementStart] coerces [null] to 0. *)
Definition toNumber (o : option Z) : Z :=
  match o with
  | Some z => z
  | None => 0
  end.

(** [Math.round]: the nearest integer, halves towards +infinity. *)
Definition Math_round (q : Q) : Z := Qfloor (q + (1 # 2)).

(** The arithmetic of doubles (IEEE 754 binary64), on the rationals the
    doubles stand for: an operation gives the double nearest to the exact
    result, the one with the even significand when two are as near. *)
Module Double.
(** The integer nearest to [n / d], the even one of two ([0 <= n], [0 < d]). *)
Definition round_half_even (n d : Z) : Z :=
  let q := n / d in
  match 2 * (n mod d) ?= d with
  | Lt => q
  | Gt => q + 1
  | Eq => if Z.even q then q else q + 1
  end.

(** [n / d] divided by [2 ^ e], as a fraction of integers. *)
Definition scaled (n d e : Z) : Z * Z :=
  (n * 2 ^ Z.max 0 (- e), d * 2 ^ Z.max 0 e).

(** The integer part of the binary logarithm of [n / d] ([0 < n], [0 < d]). *)
Definition ilog2 (n d : Z) : Z :=
  let k := Z.log2 n - Z.log2 d in
  let (n', d') := scaled n d k in
  if d' <=? n' then k else k - 1.

(** The exponent of the last bit of the double nearest to [n / d]: 52
    bits below the leading one, and not below the smallest exponent of
    the format. *)
Definition ulp_exponent (n d : Z) : Z := Z.max (ilog2 n d - 52) (- 1074).

(** The double nearest to [n / d] ([0 < n], [0 < d]). *)
Definition nearest_pos (n d : Z) : Q :=
  let e := ulp_exponent n d in
  let (n', d') := scaled n d e in
  Qmake (round_half_even n' d' * 2 ^ Z.max 0 e) (Z.to_pos (2 ^ Z.max 0 (- e))).

(** The double nearest to [q]. *)
Definition nearest (q : Q) : Q :=
  match Qnum q with
  | Z0 => 0%Q
  | Zpos n => nearest_pos (Zpos n) (Zpos (Qden q))
  | Zneg n => Qopp (nearest_pos (Zpos n) (Zpos (Qden q)))
  end.

(** [a + b], [a - b], [a * b] and [a / b] on doubles. *)
Definition add (a b : Q) : Q := nearest (a + b).
Definition sub (a b : Q) : Q := nearest (a - b).
Definition mul (a b : Q) : Q := nearest (a * b).
Definition div (a b : Q) : Q := nearest (a / b).
End Double.

(* ================================================================== *)
(** ** Configuration (initConfig, lines 43-55) *)
(* ================================================================== *)

Record Config : Type := {
  endpoint : string;
  siteId : option Z;            (* parseInt(...): [None] is NaN *)
  uniqueId : option string;     (* getAttribute: [None] is null *)
  logging : bool;
  customProps : option Obj;     (* getCustomProps: an object or null *)
  beforeSend : option string    (* getAttribute(...) || null *)
}.

Definition set_customProps (v : option Obj) (c : Config) : Config :=
  {| endpoint := endpoint c; siteId := siteId c; uniqueId := uniqueId c;
     logging := logging c; customProps := v; beforeSend := beforeSend c |}.

(* ================================================================== *)
(** ** The host: what the script reads from the browser *)
(* ================================================================== *)

(** What calling the host's before-send function does: the object it was
    given may have been changed in place ([arg_after] is its content when
    the call ends), and the call returns a value or throws ([None]). *)
Record HookResult : Type := {
  arg_after : Obj;
  outcome : option JsVal
}.

(** Reading [window[name]]: the read itself may throw (a throwing
    getter), may give something that is not a function, or a function. *)
Inductive Lookup : Type :=
| LookupThrows
| NotAFunction
| Function (fn : Obj -> HookResult).

Record Location : Type := {
  href : option string;         (* [None]: reading location.href throws *)
  pathname : string;
  hostname : string
}.

Record Host : Type := {
  location : Location;
  referrer : string;                       (* document.referrer *)
  body_scrollHeight : Z;                   (* document.body.scrollHeight *)
  documentElement_scrollHeight : Z;
  scrollY : Q;                             (* window.scrollY, a double *)
  innerHeight : Z;                         (* window.innerHeight *)
  visibilityState : string;                (* document.visibilityState *)
  navigator_webdriver : bool;              (* truthiness *)
  window_Cypress : bool;                   (* truthiness *)
  localStorage_getItem : string -> option (option string);
                                           (* [None]: throws; [Some None]: null *)
  window_fetch : bool;                     (* truthiness of window.fetch *)
  window_prop : string -> Lookup;          (* window[name] *)
  performance_now : Q                      (* performance.now(), a double *)
}.

Definition set_location (l : Location) (h : Host) : Host :=
  {| location := l; referrer := referrer h;
     body_scrollHeight := body_scrollHeight h;
     documentElement_scrollHeight := documentElement_scrollHeight h;
     scrollY := scrollY h; innerHeight := innerHeight h;
     visibilityState := visibilityState h;
     navigator_webdriver := navigator_webdriver h;
     window_Cypress := window_Cypress h;
     localStorage_getItem := localStorage_getItem h;
     window_fetch := window_fetch h; window_prop := window_prop h;
     performance_now := performance_now h |}.

(* ================================================================== *)
(** ** Payloads and the log *)
(* ================================================================== *)

(** The object handed to [sendRequest]: [{n, u, hu, i, r, p?, sd?, e?, h?, tt?}].
    An absent key is [None] for [p], [sd], [e], [h], [tt]; for [hu], [i]
    and [r], [None] is the value null (NaN for [i]).  [P] is what [p] can
    hold: an object ([Obj]) in the event [trackEvent] builds, any value
    ([JsVal]) once the before-send function has replaced it. *)
Module Data.
Record t (P : Type) : Type := mk {
  n : string;
  u : string;
  hu : option string;
  i : option Z;
  r : option string;
  p : option P;
  sd : option Z;
  e : option Z;
  h : option Z;
  tt : option Z
}.
Arguments mk {P}.
Arguments n {P}. Arguments u {P}. Arguments hu {P}. Arguments i {P}.
Arguments r {P}. Arguments p {P}. Arguments sd {P}. Arguments e {P}.
Arguments h {P}. Arguments tt {P}.

(** [data.p = v] *)
Definition with_p {P P'} (v : option P') (d : t P) : t P' :=
  mk (n d) (u d) (hu d) (i d) (r d) v (sd d) (e d) (h d) (tt d).

(** The event as it is serialised when nothing replaced [p]. *)
Definition body (d : t Obj) : t JsVal :=
  with_p (option_map JObj (p d)) d.
End Data.

(** The second argument of [trackEvent]: the event-specific fields. *)
Record Props : Type := {
  props_sd : option Z;
  props_e : option Z;
  props_h : option Z;
  props_tt : option Z
}.

Definition no_props : Props :=
  {| props_sd := None; props_e := None; props_h := None; props_tt := None |}.

(** What the script did, as far as an observer can tell:
    - [PathSet path]: the assignment [currentPath = path];
    - [Tracked d]: [trackEvent] handed the event [d] to [sendRequest];
    - [Fetch url body]: [fetch(url, {method: 'POST', keepalive: true,
      body: JSON.stringify(body)})] was called;
    - [Polled k]: the interval callback of timer [k] ran. *)
Inductive Action : Type :=
| PathSet (path : string)
| Tracked (d : Data.t Obj)
| Fetch (url : string) (body : Data.t JsVal)
| Polled (timer : nat).

(** A timer made by [setInterval]: the [attempts] counter its callback
    closes over, its period, and whether [clearInterval] was called. *)
Record Timer : Type := {
  attempts : Z;
  delay : Z;
  cleared : bool
}.

(* ================================================================== *)
(** ** The script's variables (lines 7-21 and the closure of line 93) *)
(* ================================================================== *)

Record Vars : Type := {
  config : Config;
  currentPath : string;
  pageviewSent : bool;
  documentHeight : Z;
  maxScrollDepth : Q;
  engagementStart : option Z;
  accumulatedEngagement : Z;
  engagementTimerActive : bool;
  engagementSent : bool;
  pageLoadTime : Q;
  ticking : bool
}.

Definition set_config (v : Config) (s : Vars) : Vars :=
  {| config := v; currentPath := currentPath s; pageviewSent := pageviewSent s;
     documentHeight := documentHeight s; maxScrollDepth := maxScrollDepth s;
     engagementStart := engagementStart s;
     accumulatedEngagement := accumulatedEngagement s;
     engagementTimerActive := engagementTimerActive s;
     engagementSent := engagementSent s; pageLoadTime := pageLoadTime s;
     ticking := ticking s |}.

Definition set_currentPath (v : string) (s : Vars) : Vars :=
  {| config := config s; currentPath := v; pageviewSent := pageviewSent s;
     documentHeight := documentHeight s; maxScrollDepth := maxScrollDepth s;
     engagementStart := engagementStart s;
     accumulatedEngagement := accumulatedEngagement s;
     engagementTimerActive := engagementTimerActive s;
     engagementSent := engagementSent s; pageLoadTime := pageLoadTime s;
     ticking := ticking s |}.

Definition set_pageviewSent (v : bool) (s : Vars) : Vars :=
  {| config := config s; currentPath := currentPath s; pageviewSent := v;
     documentHeight := documentHeight s; maxScrollDepth := maxScrollDepth s;
     engagementStart := engagementStart s;
     accumulatedEngagement := accumulatedEngagement s;
     engagementTimerActive := engagementTimerActive s;
     engagementSent := engagementSent s; pageLoadTime := pageLoadTime s;
     ticking := ticking s |}.

Definition set_documentHeight (v : Z) (s : Vars) : Vars :=
  {| config := config s; currentPath := currentPath s;
     pageviewSent := pageviewSent s;
     documentHeight := v; maxScrollDepth := maxScrollDepth s;
     engagementStart := engagementStart s;
     accumulatedEngagement := accumulatedEngagement s;
     engagementTimerActive := engagementTimerActive s;
     engagementSent := engagementSent s; pageLoadTime := pageLoadTime s;
     ticking := ticking s |}.

Definition set_maxScrollDepth (v : Q) (s : Vars) : Vars :=
  {| config := config s; currentPath := currentPath s;
     pageviewSent := pageviewSent s;
     documentHeight := documentHeight s; maxScrollDepth := v;
     engagementStart := engagementStart s;
     accumulatedEngagement := accumulatedEngagement s;
     engagementTimerActive := engagementTimerActive s;
     engagementSent := engagementSent s; pageLoadTime := pageLoadTime s;
     ticking := ticking s |}.

Definition set_engagementStart (v : option Z) (s : Vars) : Vars :=
  {| config := config s; currentPath := currentPath s;
     pageviewSent := pageviewSent s;
     documentHeight := documentHeight s; maxScrollDepth := maxScrollDepth s;
     engagementStart := v;
     accumulatedEngagement := accumulatedEngagement s;
     engagementTimerActive := engagementTimerActive s;
     engagementSent := engagementSent s; pageLoadTime := pageLoadTime s;
     ticking := ticking s |}.

Definition set_accumulatedEngagement (v : Z) (s : Vars) : Vars :=
  {| config := config s; currentPath := currentPath s;
     pageviewSent := pageviewSent s;
     documentHeight := documentHeight s; maxScrollDepth := maxScrollDepth s;
     engagementStart := engagementStart s;
     accumulatedEngagement := v;
     engagementTimerActive := engagementTimerActive s;
     engagementSent := engagementSent s; pageLoadTime := pageLoadTime s;
     ticking := ticking s |}.

Definition set_engagementTimerActive (v : bool) (s : Vars) : Vars :=
  {| config := config s; currentPath := currentPath s;
     pageviewSent := pageviewSent s;
     documentHeight := documentHeight s; maxScrollDepth := maxScrollDepth s;
     engagementStart := engagementStart s;
     accumulatedEngagement := accumulatedEngagement s;
     engagementTimerActive := v;
     engagementSent := engagementSent s; pageLoadTime := pageLoadTime s;
     ticking := ticking s |}.

Definition set_engagementSent (v : bool) (s : Vars) : Vars :=
  {| config := config s; currentPath := currentPath s;
     pageviewSent := pageviewSent s;
     documentHeight := documentHeight s; maxScrollDepth := maxScrollDepth s;
     engagementStart := engagementStart s;
     accumulatedEngagement := accumulatedEngagement s;
     engagementTimerActive := engagementTimerActive s;
     engagementSent := v; pageLoadTime := pageLoadTime s;
     ticking := ticking s |}.

Definition set_ticking (v : bool) (s : Vars) : Vars :=
  {| config := config s; currentPath := currentPath s;
     pageviewSent := pageviewSent s;
     documentHeight := documentHeight s; maxScrollDepth := maxScrollDepth s;
     engagementStart := engagementStart s;
     accumulatedEngagement := accumulatedEngagement s;
     engagementTimerActive := engagementTimerActive s;
     engagementSent := engagementSent s; pageLoadTime := pageLoadTime s;
     ticking := v |}.

(* ================================================================== *)
(** ** The world and the monad the script runs in *)
(* ================================================================== *)

(** [clock k] is what the k-th call of [Date.now()] returns and [reads]
    counts the calls made so far; [rafQueue] counts the callbacks given to
    [requestAnimationFrame] and not yet run; [timers] are the intervals
    created so far, a timer's handle being its position.  The [log] has
    the newest action first. *)
Record World : Type := {
  vars : Vars;
  host : Host;
  rafQueue : nat;
  timers : list Timer;
  clock : nat -> Z;
  reads : nat;
  log : list Action
}.

Definition with_vars (v : Vars) (w : World) : World :=
  {| vars := v; host := host w; rafQueue := rafQueue w; timers := timers w;
     clock := clock w; reads := reads w; log := log w |}.

Definition with_host (v : Host) (w : World) : World :=
  {| vars := vars w; host := v; rafQueue := rafQueue w; timers := timers w;
     clock := clock w; reads := reads w; log := log w |}.

Definition with_rafQueue (v : nat) (w : World) : World :=
  {| vars := vars w; host := host w; rafQueue := v; timers := timers w;
     clock := clock w; reads := reads w; log := log w |}.

Definition with_timers (v : list Timer) (w : World) : World :=
  {| vars := vars w; host := host w; rafQueue := rafQueue w; timers := v;
     clock := clock w; reads := reads w; log := log w |}.

Definition with_reads (v : nat) (w : World) : World :=
  {| vars := vars w; host := host w; rafQueue := rafQueue w; timers := timers w;
     clock := clock w; reads := v; log := log w |}.

Definition with_log (v : list Action) (w : World) : World :=
  {| vars := vars w; host := host w; rafQueue := rafQueue w; timers := timers w;
     clock := clock w; reads := reads w; log := v |}.

(** The actions in the order they happened. *)
Definition trace (w : World) : list Action := rev (log w).

Definition M (A : Type) : Type := World -> A * World.

Definition ret {A} (a : A) : M A := fun w => (a, w).

Definition bind {A B} (m : M A) (k : A -> M B) : M B :=
  fun w => let (a, w') := m w in k a w'.

Declare Scope js_scope.
Delimit Scope js_scope with js.
Notation "x <- m ;; k" := (bind m (fun x => k))
  (at level 61, m at next level, right associativity) : js_scope.
Notation "m ;; k" := (bind m (fun _ => k))
  (at level 61, right associativity) : js_scope.
Open Scope js_scope.

(** Read a variable of the script. *)
Definition var {A} (f : Vars -> A) : M A := fun w => (f (vars w), w).

(** Read something from the browser. *)
Definition env {A} (f : Host -> A) : M A := fun w => (f (host w), w).

(** Assign to a variable of the script. *)
Definition assign (upd : Vars -> Vars) : M unit :=
  fun w => (tt, with_vars (upd (vars w)) w).

(** [Date.now()] *)
Definition Date_now : M Z :=
  fun w => (clock w (reads w), with_reads (S (reads w)) w).

Definition record (a : Action) : M unit :=
  fun w => (tt, with_log (a :: log w) w).

(** The world a computation ends in. *)
Definition exec {A} (m : M A) (w : World) : World := snd (m w).

(** The value a computation returns. *)
Definition eval {A} (m : M A) (w : World) : A := fst (m w).

(* ================================================================== *)
(** ** getCurrentUrl (lines 57-63) *)
(* ================================================================== *)

Definition getCurrentUrl : M string :=
  l <- env location ;;
  match href l with
  | Some s => ret s               (* [s || ''] is [s], also when s is '' *)
  | None => ret ""%string         (* catch *)
  end.

(* ================================================================== *)
(** ** Scroll tracking (lines 68-116) *)
(* ================================================================== *)

Definition getDocumentHeight : M Z :=
  b <- env body_scrollHeight ;;
  d <- env documentElement_scrollHeight ;;
  ret (Z.max b d).

Definition getCurrentScrollDepth : M Q :=
  scrollTop <- env scrollY ;;
  winHeight <- env innerHeight ;;
  dh <- var documentHeight ;;
  ret (Qmin (Double.add scrollTop (inject_Z winHeight)) (inject_Z dh)).

Definition getScrollPercentage : M Z :=
  dh <- var documentHeight ;;
  if dh =? 0 then ret 0
  else
    m <- var maxScrollDepth ;;
    ret (Z.min (Math_round (Double.mul (Double.div m (inject_Z dh)) 100)) 100).

Definition resetScrollTracking : M unit :=
  dh <- getDocumentHeight ;;
  assign (set_documentHeight dh) ;;
  d <- getCurrentScrollDepth ;;
  assign (set_maxScrollDepth d).

(** [requestAnimationFrame(cb)]: one more callback is waiting. *)
Definition requestAnimationFrame : M unit :=
  fun w => (tt, with_rafQueue (S (rafQueue w)) w).

(** The 'scroll' listener (lines 95-104). *)
Definition onScroll : M unit :=
  t <- var ticking ;;
  if negb t then
    assign (set_ticking true) ;;
    requestAnimationFrame
  else ret tt.

(** The callback given to [requestAnimationFrame] (lines 98-102). *)
Definition onAnimationFrame : M unit :=
  depth <- getCurrentScrollDepth ;;
  m <- var maxScrollDepth ;;
  (if negb (Qle_bool depth m) then assign (set_maxScrollDepth depth)
   else ret tt) ;;
  assign (set_ticking false).

(** [setInterval(cb, ms)] with [cb] closing over [attempts = n]: a new
    timer, whose handle is its position in [timers]. *)
Definition setInterval (n : Z) (ms : Z) : M nat :=
  fun w => (List.length (timers w),
            with_timers (timers w ++ [{| attempts := n; delay := ms;
                                         cleared := false |}]) w).

Fixpoint update {A} (k : nat) (f : A -> A) (l : list A) : list A :=
  match l, k with
  | [], _ => []
  | x :: l', O => f x :: l'
  | x :: l', S k' => x :: update k' f l'
  end.

Definition set_attempts (v : Z) (t : Timer) : Timer :=
  {| attempts := v; delay := delay t; cleared := cleared t |}.

Definition set_cleared (v : bool) (t : Timer) : Timer :=
  {| attempts := attempts t; delay := delay t; cleared := v |}.

Definition clearInterval (k : nat) : M unit :=
  fun w => (tt, with_timers (update k (set_cleared true) (timers w)) w).

(** The callback of the interval (lines 111-114), run for timer [k] whose
    counter is [a]. *)
Definition onInterval (k : nat) (a : Z) : M unit :=
  record (Polled k) ;;
  dh <- getDocumentHeight ;;
  assign (set_documentHeight dh) ;;
  (fun w => (tt, with_timers (update k (set_attempts (a - 1)) (timers w)) w)) ;;
  if a - 1 <=? 0 then clearInterval k else ret tt.

(** The 'load' listener (lines 106-115). *)
Definition onLoad : M unit :=
  dh <- getDocumentHeight ;;
  assign (set_documentHeight dh) ;;
  _ <- setInterval 10 300 ;;
  ret tt.

(* ================================================================== *)
(** ** Engagement tracking (lines 121-149) *)
(* ================================================================== *)

Definition startEngagement : M unit :=
  active <- var engagementTimerActive ;;
  if negb active then
    now <- Date_now ;;
    assign (set_engagementStart (Some now)) ;;
    assign (set_engagementTimerActive true)
  else ret tt.

Definition pauseEngagement : M unit :=
  active <- var engagementTimerActive ;;
  if active then
    acc <- var accumulatedEngagement ;;
    now <- Date_now ;;
    start <- var engagementStart ;;
    assign (set_accumulatedEngagement (acc + (now - toNumber start))) ;;
    assign (set_engagementTimerActive false)
  else ret tt.

Definition getEngagementTime : M Z :=
  acc <- var accumulatedEngagement ;;
  active <- var engagementTimerActive ;;
  if active then
    now <- Date_now ;;
    start <- var engagementStart ;;
    ret (acc + (now - toNumber start))
  else ret (acc + 0).

Definition resetEngagementTracking : M unit :=
  assign (set_engagementStart None) ;;
  assign (set_accumulatedEngagement 0) ;;
  assign (set_engagementTimerActive false).

Definition handleVisibilityChange : M unit :=
  v <- env visibilityState ;;
  if String.eqb v "visible" then startEngagement else pauseEngagement.

(* ================================================================== *)
(** ** Sending events (lines 154-208) *)
(* ================================================================== *)

Definition is_digit (c : ascii) : bool :=
  ((48 <=? N_of_ascii c) && (N_of_ascii c <=? 57))%N.

Fixpoint skip_digits (s : string) : string :=
  match s with
  | String c s' => if is_digit c then skip_digits s' else s
  | EmptyString => s
  end.

(** [\.\d+] at the start of [s]: what is left after it.  The digits are
    taken greedily; a shorter run would be followed by a digit, which
    neither starts a new group nor ends the string. *)
Definition dot_digits (s : string) : option string :=
  match s with
  | String "."%char (String c s') =>
      if is_digit c then Some (skip_digits s') else None
  | _ => None
  end.

(** [(\.\d+){0,2}\.\d+$]: one, two or three groups, then the end. *)
Definition loopback_tail (s : string) : bool :=
  match dot_digits s with
  | Some EmptyString => true
  | Some s1 =>
      match dot_digits s1 with
      | Some EmptyString => true
      | Some s2 =>
          match dot_digits s2 with
          | Some EmptyString => true
          | _ => false
          end
      | None => false
      end
  | None => false
  end.

(** [/^localhost$|^127(\.\d+){0,2}\.\d+$/.test(s)] *)
Definition is_loopback (s : string) : bool :=
  String.eqb s "localhost" ||
  match s with
  | String "1"%char (String "2"%char (String "7"%char rest)) =>
      loopback_tail rest
  | _ => false
  end.

Definition shouldTrack : M bool :=
  l <- env location ;;
  if is_loopback (hostname l) then ret false
  else
    webdriver <- env navigator_webdriver ;;
    cypress <- env window_Cypress ;;
    if webdriver || cypress then ret false
    else
      getItem <- env localStorage_getItem ;;
      match getItem "analytics_ignore"%string with
      | Some (Some v) => if String.eqb v "true" then ret false else ret true
      | Some None => ret true
      | None => ret true              (* catch {} *)
      end.

(** Lines 159-166, the body of the [try].  When [data.p] is present it
    is the object [config.customProps] itself ([basePayload] stores the
    reference and no caller passes a [p] of its own), so what the function
    does to its argument is done to [config.customProps]. *)
Definition applyHook (name : string) (data : Data.t Obj) : M (Data.t JsVal) :=
  look <- env window_prop ;;
  match look name with
  | LookupThrows => ret (Data.body data)           (* catch (e) {} *)
  | NotAFunction => ret (Data.body data)
  | Function fn =>
      match Data.p data with
      | None =>
          (* data.p = {}; data.p = fn(data.p) *)
          let res := fn [] in
          match outcome res with
          | Some v => ret (Data.with_p (Some v) data)
          | None => ret (Data.with_p (Some (JObj (arg_after res))) data)
          end
      | Some o =>
          let res := fn o in
          c <- var config ;;
          (match customProps c with
           | Some _ => assign (set_config (set_customProps (Some (arg_after res)) c))
           | None => ret tt
           end) ;;
          match outcome res with
          | Some v => ret (Data.with_p (Some v) data)
          | None => ret (Data.with_p (Some (JObj (arg_after res))) data)
          end
      end
  end.

(** [fetch(config.endpoint, {method: 'POST', ..., body: JSON.stringify(data)})];
    no caller passes a callback, so the response is dropped. *)
Definition fetch (url : string) (body : Data.t JsVal) : M unit :=
  record (Fetch url body).

(** [config] is set by [initConfig] before anything else runs (line 283),
    so of [!config || !window.fetch] only the second test can hold. *)
Definition sendRequest (data : Data.t Obj) : M unit :=
  hasFetch <- env window_fetch ;;
  if negb hasFetch then ret tt
  else
    ok <- shouldTrack ;;
    if negb ok then ret tt
    else
      c <- var config ;;
      body <- match beforeSend c with
              | Some name =>
                  (* if (config.beforeSend): a non-empty string *)
                  if negb (String.eqb name "") then applyHook name data
                  else ret (Data.body data)
              | None => ret (Data.body data)
              end ;;
      fetch (endpoint c) body.

Record Payload : Type := {
  payload_u : string;
  payload_hu : option string;
  payload_i : option Z;
  payload_r : option string;
  payload_p : option Obj
}.

Definition basePayload : M Payload :=
  url <- getCurrentUrl ;;
  c <- var config ;;
  ref <- env referrer ;;
  ret {| payload_u := url;
         payload_hu := uniqueId c;
         payload_i := siteId c;
         payload_r := if String.eqb ref "" then None else Some ref;
         payload_p := customProps c |}.

Definition trackEvent (name : string) (props : Props) : M unit :=
  b <- basePayload ;;
  let data := Data.mk name (payload_u b) (payload_hu b) (payload_i b)
                      (payload_r b) (payload_p b)
                      (props_sd props) (props_e props) (props_h props)
                      (props_tt props) in
  record (Tracked data) ;;
  sendRequest data.

(* ================================================================== *)
(** ** getCustomProps (lines 23-38) *)
(* ================================================================== *)

(** An attribute of the script element; [scriptElement.attributes] is the
    list of them, in the order of the document. *)
Record Attr : Type := {
  attr_name : string;
  attr_value : string
}.

(** [s.startsWith(p)] *)
Fixpoint startsWith (s p : string) {struct p} : bool :=
  match p, s with
  | EmptyString, _ => true
  | String a p', String b s' => Ascii.eqb a b && startsWith s' p'
  | String _ _, EmptyString => false
  end.

(** [s.slice(k)] *)
Fixpoint slice (k : nat) (s : string) : string :=
  match k, s with
  | O, _ => s
  | S k', String _ s' => slice k' s'
  | S _, EmptyString => EmptyString
  end.

(** The number a string of digits writes, after [acc]. *)
Fixpoint digits_value (s : string) (acc : N) : option N :=
  match s with
  | EmptyString => Some acc
  | String c s' =>
      if is_digit c then digits_value s' (10 * acc + (N_of_ascii c - 48))%N
      else None
  end.

(** The array index a property key is, if it is one: the decimal
    writing, without a leading zero, of a number below 2^32 - 1. *)
Definition array_index (key : string) : option N :=
  match key with
  | EmptyString => None
  | String "0" EmptyString => Some 0%N
  | String "0" _ => None
  | _ =>
      match digits_value key 0 with
      | Some i => if (i <? 4294967295)%N then Some i else None
      | None => None
      end
  end.

(** The own properties of an object are listed as JavaScript enumerates
    them (and [JSON.stringify] writes them): the array indices in
    ascending order, then the other keys in the order they were created.
    [place i o] is where a new index [i] goes in [o]: after the indices
    below it. *)
Fixpoint place (i : N) (o : Obj) : nat :=
  match o with
  | [] => O
  | (k, _) :: o' =>
      match array_index k with
      | Some j => if (j <? i)%N then S (place i o') else O
      | None => O
      end
  end.

Definition has_key (key : string) (o : Obj) : bool :=
  existsb (fun kv => String.eqb (fst kv) key) o.

Fixpoint replace_value (key : string) (v : JsVal) (o : Obj) : Obj :=
  match o with
  | [] => []
  | (k, x) :: o' =>
      if String.eqb k key then (k, v) :: o' else (k, x) :: replace_value key v o'
  end.

Definition add_key (key : string) (v : JsVal) (o : Obj) : Obj :=
  let p := match array_index key with
           | Some i => place i o
           | None => List.length o
           end in
  firstn p o ++ (key, v) :: skipn p o.

(** [o[key] = v] on an ordinary object: the value of the property is
    replaced if the object has the key, and a property is created if it
    has not. *)
Definition set_key (key : string) (v : JsVal) (o : Obj) : Obj :=
  if has_key key o then replace_value key v o else add_key key v o.

(** [props[key] = v] on an object made by [{}], [v] being a string:
    the key [__proto__] is the accessor of [Object.prototype], whose
    setter ignores a value that is neither an object nor null; any other
    key becomes an own property. *)
Definition put (key : string) (v : JsVal) (props : Obj) : Obj :=
  if String.eqb key "__proto__" then props else set_key key v props.

(** The loop of lines 29-35. *)
Fixpoint collectProps (attrs : list Attr) (props : Obj) : Obj :=
  match attrs with
  | [] => props
  | a :: rest =>
      let name := attr_name a in
      if startsWith name "data-usd-"
      then collectProps rest (put (slice 9 name) (JStr (attr_value a)) props)
      else collectProps rest props
  end.

(** [scriptElement] is [document.currentScript]: an element, or null. *)
Definition getCustomProps (scriptElement : option (list Attr)) : option Obj :=
  match scriptElement with
  | None => None
  | Some attrs =>
      let props := collectProps attrs [] in
      if (0 <? List.length props)%nat then Some props else None
  end.

(* ================================================================== *)
(** ** The page-view life cycle (lines 210-253) *)
(* ================================================================== *)

Definition trackPageview : M unit :=
  resetScrollTracking ;;
  resetEngagementTracking ;;
  startEngagement ;;
  trackEvent "pageview" no_props ;;
  assign (set_pageviewSent true) ;;
  assign (set_engagementSent false).

Definition trackEngagement : M unit :=
  pv <- var pageviewSent ;;
  es <- var engagementSent ;;
  if negb pv || es then ret tt
  else
    time <- getEngagementTime ;;
    m <- var maxScrollDepth ;;
    if (time <? 2000) && Qeq_bool m 0 then ret tt
    else
      pauseEngagement ;;
      sd <- getScrollPercentage ;;
      now <- env performance_now ;;
      plt <- var pageLoadTime ;;
      trackEvent "engagement"
        {| props_sd := Some sd;
           props_e := Some time;
           props_h := Some 1;
           props_tt := Some (Math_round (Double.sub now plt)) |} ;;
      resetEngagementTracking ;;
      assign (set_engagementSent true).

Definition handleRouteChange : M unit :=
  l <- env location ;;
  let path := pathname l in
  cur <- var currentPath ;;
  if negb (String.eqb path cur) then
    (if negb (String.eqb cur "") then trackEngagement else ret tt) ;;
    assign (set_currentPath path) ;;
    record (PathSet path) ;;
    assign (set_pageviewSent false) ;;
    trackPageview
  else ret tt.

(* ================================================================== *)
(** ** Wiring: the listeners and what the browser sends them *)
(* ================================================================== *)

(** [history.pushState] and [history.replaceState] as wrapped on lines
    256-262: the original method runs first, leaving the document at
    location [l], and then [handleRouteChange]. *)
Definition wrappedHistoryMethod (l : Location) : M unit :=
  (fun w => (tt, with_host (set_location l (host w)) w)) ;;
  handleRouteChange.

(** The 'pageshow' listener (lines 274-276). *)
Definition onPageshow (persisted : bool) : M unit :=
  if persisted then handleRouteChange else ret tt.

Fixpoint times (k : nat) (m : M unit) : M unit :=
  match k with
  | O => ret tt
  | S k' => m ;; times k' m
  end.

(** A rendering frame: the browser runs the callbacks that are waiting. *)
Definition runAnimationFrame : M unit :=
  fun w => times (rafQueue w) onAnimationFrame (with_rafQueue 0 w).

(** Timer [k] is due: its callback runs unless the timer was cleared. *)
Definition runInterval (k : nat) : M unit :=
  fun w =>
    match nth_error (timers w) k with
    | Some t => if cleared t then (tt, w) else onInterval k (attempts t) w
    | None => (tt, w)
    end.

(** What can happen to the page, one at a time (the script runs on one
    thread, every listener to completion). *)
Inductive Input : Type :=
| HostChange (h : Host)            (* the user or the page changed the browser state *)
| PushState (l : Location)         (* the page calls history.pushState *)
| ReplaceState (l : Location)      (* the page calls history.replaceState *)
| Popstate
| Pushstate
| Replacestate
| Beforeunload
| Pagehide
| Pageshow (persisted : bool)
| Visibilitychange
| Focus
| Blur
| Scroll
| AnimationFrame
| Load
| Interval (k : nat).

Definition step (i : Input) : M unit :=
  match i with
  | HostChange h => fun w => (tt, with_host h w)
  | PushState l => wrappedHistoryMethod l
  | ReplaceState l => wrappedHistoryMethod l
  | Popstate => handleRouteChange
  | Pushstate => handleRouteChange
  | Replacestate => handleRouteChange
  | Beforeunload => trackEngagement
  | Pagehide => trackEngagement
  | Pageshow persisted => onPageshow persisted
  | Visibilitychange => handleVisibilityChange
  | Focus => startEngagement
  | Blur => pauseEngagement
  | Scroll => onScroll
  | AnimationFrame => runAnimationFrame
  | Load => onLoad
  | Interval k => runInterval k
  end.

Fixpoint steps (l : list Input) : M unit :=
  match l with
  | [] => ret tt
  | i :: l' => step i ;; steps l'
  end.

(** [init] after [initConfig] and the registration of the listeners
    (lines 292-294). *)
Definition init : M unit :=
  handleRouteChange ;;
  v <- env visibilityState ;;
  if String.eqb v "visible" then startEngagement else ret tt.

(** The world when the script starts: the variables as declared on lines
    7-21, [config] as [initConfig] made it. *)
Definition boot (c : Config) (h : Host) (clk : nat -> Z) : World :=
  {| vars := {| config := c; currentPath := ""; pageviewSent := false;
                documentHeight := 0; maxScrollDepth := 0%Q;
                engagementStart := None; accumulatedEngagement := 0;
                engagementTimerActive := false; engagementSent := false;
                pageLoadTime := performance_now h; ticking := false |};
     host := h; rafQueue := 0; timers := []; clock := clk; reads := 0;
     log := [] |}.

(** The world after the script started in host [h] and the inputs [l]
    were handled. *)
Definition run (c : Config) (h : Host) (clk : nat -> Z) (l : list Input) : World :=
  exec (init ;; steps l) (boot c h clk).

(* ================================================================== *)
(** ** Vocabulary of the statements *)
(* ================================================================== *)

(* ------------------------------------------------------------------ *)
(** *** Reading the world *)
(* ------------------------------------------------------------------ *)

(** What the next call of [Date.now()] returns. *)
Definition next_reading (w : World) : Z := clock w (reads w).

(** The engaged time at the instant [now], lines 136-137 as a formula. *)
Definition elapsedAt (w : World) (now : Z) : Z :=
  accumulatedEngagement (vars w) +
  (if engagementTimerActive (vars w)
   then now - toNumber (engagementStart (vars w)) else 0).

(** [location.href || ''], caught. *)
Definition urlOf (l : Location) : string :=
  match href l with
  | Some s => s
  | None => ""%string
  end.

(** The event object [trackEvent name props] builds in world [w]. *)
Definition eventOf (name : string) (props : Props) (w : World) : Data.t Obj :=
  let b := eval basePayload w in
  Data.mk name (payload_u b) (payload_hu b) (payload_i b) (payload_r b)
          (payload_p b) (props_sd props) (props_e props) (props_h props)
          (props_tt props).

(** The event-specific fields of the closing report, lines 231-234. *)
Definition engagementProps (w : World) : Props :=
  {| props_sd := Some (eval getScrollPercentage w);
     props_e := Some (eval getEngagementTime w);
     props_h := Some 1;
     props_tt := Some (Math_round (Double.sub (performance_now (host w))
                                              (pageLoadTime (vars w)))) |}.

(** The test of line 226: under two seconds and nothing scrolled. *)
Definition is_noise (w : World) : bool :=
  (eval getEngagementTime w <? 2000) && Qeq_bool (maxScrollDepth (vars w)) 0.

(** Whether a request leaves: the two tests of lines 155-156. *)
Definition may_send (w : World) : bool :=
  window_fetch (host w) && eval shouldTrack w.

(** The object the before-send function is called with. *)
Definition hookArgument (d : Data.t Obj) : Obj :=
  match Data.p d with
  | Some o => o
  | None => []
  end.

(** The configuration after the before-send function ran on the object
    [config.customProps]. *)
Definition configAfterHook (d : Data.t Obj) (after : Obj) (c : Config) : Config :=
  match Data.p d, customProps c with
  | Some _, Some _ => set_customProps (Some after) c
  | _, _ => c
  end.

(** Two events that agree on every field but [p]. *)
Definition same_but_p {P P'} (a : Data.t P) (b : Data.t P') : Prop :=
  Data.n a = Data.n b /\ Data.u a = Data.u b /\ Data.hu a = Data.hu b /\
  Data.i a = Data.i b /\ Data.r a = Data.r b /\ Data.sd a = Data.sd b /\
  Data.e a = Data.e b /\ Data.h a = Data.h b /\ Data.tt a = Data.tt b.

(** What a call of [sendRequest d] in [w] did: the requests [fs] it made
    and the configuration [c'] it left. *)
Definition send_outcome (d : Data.t Obj) (w : World) (c' : Config)
    (fs : list Action) : Prop :=
  (may_send w = false /\ fs = [] /\ c' = config (vars w)) \/
  (may_send w = true /\
   exists b, fs = [Fetch (endpoint (config (vars w))) b] /\ same_but_p d b).

(** The host asks not to be tracked: one of the four signals of
    [shouldTrack]. *)
Definition gate_closed (h : Host) : Prop :=
  is_loopback (hostname (location h)) = true \/
  navigator_webdriver h = true \/
  window_Cypress h = true \/
  localStorage_getItem h "analytics_ignore"%string = Some (Some "true"%string).

(* ------------------------------------------------------------------ *)
(** *** The steps of the life cycle *)
(* ------------------------------------------------------------------ *)

(** Lines 249-251: the new path becomes the current one and its page
    view is opened. *)
Definition enter (path : string) : M unit :=
  assign (set_currentPath path) ;;
  record (PathSet path) ;;
  assign (set_pageviewSent false) ;;
  trackPageview.

(** The variables once a page view was opened (lines 211-218) in host [h]
    at time [now], the configuration being [c']. *)
Definition opened (c' : Config) (h : Host) (now : Z) (v : Vars) : Vars :=
  let dh := Z.max (body_scrollHeight h) (documentElement_scrollHeight h) in
  {| config := c'; currentPath := currentPath v; pageviewSent := true;
     documentHeight := dh;
     maxScrollDepth := Qmin (Double.add (scrollY h) (inject_Z (innerHeight h)))
                            (inject_Z dh);
     engagementStart := Some now; accumulatedEngagement := 0;
     engagementTimerActive := true; engagementSent := false;
     pageLoadTime := pageLoadTime v; ticking := ticking v |}.

(** The variables once a page view was closed (lines 237-238), the
    configuration being [c']. *)
Definition closed (c' : Config) (v : Vars) : Vars :=
  set_engagementSent true
    (set_engagementTimerActive false
       (set_accumulatedEngagement 0
          (set_engagementStart None (set_config c' v)))).

(** The number of [Date.now()] calls [trackEngagement] makes when it
    reports: one in [getEngagementTime] and one in [pauseEngagement], both
    only while the timer runs. *)
Definition closing_reads (w : World) : nat :=
  if engagementTimerActive (vars w) then 2 else 0.

(* ------------------------------------------------------------------ *)
(** *** The accumulator *)
(* ------------------------------------------------------------------ *)

(** Time does not run backwards: a later call of [Date.now()] does not
    return less than an earlier one. *)
Definition clock_monotone (w : World) : Prop :=
  forall i j : nat, (i <= j)%nat -> clock w i <= clock w j.

(** Calls of the two operations that drive the accumulator. *)
Inductive Call : Type := CallStart | CallPause.

Definition call (c : Call) : M unit :=
  match c with
  | CallStart => startEngagement
  | CallPause => pauseEngagement
  end.

Fixpoint calls (l : list Call) : M unit :=
  match l with
  | [] => ret tt
  | c :: l' => call c ;; calls l'
  end.

(** The invariant of the accumulator as the data model words it, and the
    half of it the script maintains. *)
Definition active_iff_start_set (w : World) : Prop :=
  engagementTimerActive (vars w) = true <-> engagementStart (vars w) <> None.

Definition active_implies_start_set (w : World) : Prop :=
  engagementTimerActive (vars w) = true -> engagementStart (vars w) <> None.

(* ------------------------------------------------------------------ *)
(** *** Traces *)
(* ------------------------------------------------------------------ *)

(** The event an action carries, if any. *)
Definition tracked_name (a : Action) : option string :=
  match a with
  | Tracked d => Some (Data.n d)
  | _ => None
  end.

Definition request_name (a : Action) : option string :=
  match a with
  | Fetch _ b => Some (Data.n b)
  | _ => None
  end.

(** An action that is about the event called [name]: the event handed
    to the dispatcher, or the request that carries it. *)
Definition about (name : string) (a : Action) : Prop :=
  tracked_name a = Some name \/ request_name a = Some name.

Definition is_path_set (a : Action) : bool :=
  match a with
  | PathSet _ => true
  | _ => false
  end.

(** [a] hands the event called [name] to the dispatcher. *)
Definition emits (name : string) (a : Action) : bool :=
  match a with
  | Tracked d => String.eqb (Data.n d) name
  | _ => false
  end.

(** [a] is the request that carries the event called [name]. *)
Definition requests (name : string) (a : Action) : bool :=
  match a with
  | Fetch _ b => String.eqb (Data.n b) name
  | _ => false
  end.

Definition count (f : Action -> bool) (l : list Action) : nat :=
  List.length (filter f l).

(** At most one event called [name] is emitted, and at most one request
    made for it, in any stretch of the trace over which [currentPath] is
    not assigned. *)
Definition at_most_once_per_path (name : string) (t : list Action) : Prop :=
  forall pre mid post : list Action,
    t = pre ++ mid ++ post ->
    forallb (fun a => negb (is_path_set a)) mid = true ->
    (count (emits name) mid <= 1)%nat /\ (count (requests name) mid <= 1)%nat.

(** The part of a log (newest action first) that is later than the last
    assignment of [currentPath]. *)
Fixpoint since_path_set (l : list Action) : list Action :=
  match l with
  | [] => []
  | PathSet _ :: _ => []
  | a :: l' => a :: since_path_set l'
  end.

Definition segment_ok (name : string) (s : list Action) : Prop :=
  (count (emits name) s <= 1)%nat /\
  (count (requests name) s <= count (emits name) s)%nat.

(** Every moment of the log was fine for [name]. *)
Fixpoint log_ok (name : string) (l : list Action) : Prop :=
  match l with
  | [] => True
  | a :: l' => segment_ok name (since_path_set l) /\ log_ok name l'
  end.

(** The log is fine, and while no closing report was sent for the current
    page view the log has none since [currentPath] was set. *)
Record session_ok (w : World) : Prop := {
  pageview_log_ok : log_ok "pageview" (log w);
  engagement_log_ok : log_ok "engagement" (log w);
  engagement_pending :
    engagementSent (vars w) = false ->
    count (emits "engagement") (since_path_set (log w)) = 0%nat /\
    count (requests "engagement") (since_path_set (log w)) = 0%nat
}.

(** A computation that emits nothing, leaves the timers alone and does
    not touch the two flags of the page view. *)
Definition quiet {A} (m : M A) : Prop :=
  forall w : World,
    log (exec m w) = log w /\
    timers (exec m w) = timers w /\
    pageviewSent (vars (exec m w)) = pageviewSent (vars w) /\
    engagementSent (vars (exec m w)) = engagementSent (vars w).

(* ------------------------------------------------------------------ *)
(** *** Timers *)
(* ------------------------------------------------------------------ *)

(** The callback of timer [k] ran. *)
Definition polled (k : nat) (a : Action) : bool :=
  match a with
  | Polled j => Nat.eqb j k
  | _ => false
  end.

(** How often the callback of timer [k] ran. *)
Definition polls (k : nat) (l : list Action) : nat := count (polled k) l.

(** Timer [k] and the number of its runs agree: while it is not cleared
    each run took one of its ten attempts and some are left; once it is
    cleared it has run ten times; and a timer that does not exist has not
    run. *)
Definition timer_ok (k : nat) (w : World) : Prop :=
  match nth_error (timers w) k with
  | Some t =>
      delay t = 300 /\
      (if cleared t then polls k (log w) = 10%nat
       else attempts t = 10 - Z.of_nat (polls k (log w)) /\
            (polls k (log w) < 10)%nat)
  | None => polls k (log w) = 0%nat
  end.

(** A computation that neither touches the timers nor runs a callback
    of one. *)
Definition no_polling {A} (m : M A) : Prop :=
  forall w : World,
    timers (exec m w) = timers w /\
    forall k, polls k (log (exec m w)) = polls k (log w).

Definition is_load (i : Input) : bool :=
  match i with
  | Load => true
  | _ => false
  end.

(* ------------------------------------------------------------------ *)
(** *** The scroll state *)
(* ------------------------------------------------------------------ *)

(** The scroll state has the sign the browser's measures give it. *)
Definition scroll_state_ok (w : World) : Prop :=
  (0 <= maxScrollDepth (vars w))%Q /\ 0 <= documentHeight (vars w).

(** A browser whose measures have the sign they have in a document that
    is laid out: heights are not negative, and neither is the bottom edge
    of the viewport. *)
Definition sane (h : Host) : Prop :=
  0 <= body_scrollHeight h /\
  0 <= documentElement_scrollHeight h /\
  (0 <= scrollY h + inject_Z (innerHeight h))%Q.


(** The scroll state in a sane browser. *)
Definition scroll_ok (w : World) : Prop :=
  sane (host w) /\ scroll_state_ok w.

(** A computation that keeps [P] true. *)
Definition keeps (P : World -> Prop) {A} (m : M A) : Prop :=
  forall w : World, P w -> P (exec m w).

(** A computation that keeps both the scroll state and the accumulator
    well formed. *)
Definition keeps_trackers {A} (m : M A) : Prop :=
  keeps scroll_ok m /\ keeps active_implies_start_set m.

(* ------------------------------------------------------------------ *)
(** *** Sample pages *)
(* ------------------------------------------------------------------ *)

(** A page, a tag and a clock to run the script on. *)
Definition at_path (path : string) : Location :=
  {| href := Some ("https://example.com" ++ path)%string;
     pathname := path;
     hostname := "example.com"%string |}.

Definition page (l : Location) (scrolled : Q) (height : Z) : Host :=
  {| location := l; referrer := ""%string;
     body_scrollHeight := height; documentElement_scrollHeight := height;
     scrollY := scrolled; innerHeight := 800;
     visibilityState := "visible"%string;
     navigator_webdriver := false; window_Cypress := false;
     localStorage_getItem := fun _ => Some None;
     window_fetch := true;
     window_prop := fun _ => NotAFunction;
     performance_now := 10%Q |}.

Definition tag : Config :=
  {| endpoint := "https://stats.example/api/event"%string; siteId := Some 7;
     uniqueId := Some "abc"%string; logging := true; customProps := None;
     beforeSend := None |}.

(** [Date.now()] gives 1000, 2500, 4000, ... *)
Definition ticks (k : nat) : Z := 1000 + 1500 * Z.of_nat k.

(** A clock that is set back: [Date.now()] gives 5000, then 4000, then
    2000 from then on. *)
Definition set_back (k : nat) : Z :=
  match k with
  | O => 5000
  | S O => 4000
  | _ => 2000
  end.

(** The script running on /a, no input handled yet. *)
Definition on_a : World := run tag (page (at_path "/a") 0 2000) ticks [].

(** The same page, its URL now carrying a query and a fragment. *)
Definition a_with_query : Location :=
  {| href := Some "https://example.com/a?tab=2#top"%string;
     pathname := "/a"%string;
     hostname := "example.com"%string |}.

(** 'load', then the timer it made fires ten times. *)
Definition load_and_ten_ticks : list Input :=
  Load :: repeat (Interval 0) 10.

Definition loopback_page : Host :=
  page {| href := Some "http://127.0.0.1:8080/a"%string;
          pathname := "/a"%string; hostname := "127.0.0.1"%string |} 0 2000.

(** A page where reading the stored opt-out throws. *)
Definition page_without_storage : Host :=
  let h := page (at_path "/a") 0 2000 in
  {| location := location h; referrer := referrer h;
     body_scrollHeight := body_scrollHeight h;
     documentElement_scrollHeight := documentElement_scrollHeight h;
     scrollY := scrollY h; innerHeight := innerHeight h;
     visibilityState := visibilityState h;
     navigator_webdriver := navigator_webdriver h;
     window_Cypress := window_Cypress h;
     localStorage_getItem := fun _ => None;
     window_fetch := window_fetch h;
     window_prop := window_prop h;
     performance_now := performance_now h |}.

(** A tag that names a before-send function, and a page whose function
    of that name throws as soon as it is called. *)
Definition tag_with_hook : Config :=
  {| endpoint := endpoint tag; siteId := siteId tag; uniqueId := uniqueId tag;
     logging := logging tag; customProps := None;
     beforeSend := Some "enrich"%string |}.

Definition throwing (o : Obj) : HookResult :=
  {| arg_after := o; outcome := None |}.

Definition page_with_throwing_hook : Host :=
  let h := page (at_path "/a") 0 2000 in
  {| location := location h; referrer := referrer h;
     body_scrollHeight := body_scrollHeight h;
     documentElement_scrollHeight := documentElement_scrollHeight h;
     scrollY := scrollY h; innerHeight := innerHeight h;
     visibilityState := visibilityState h;
     navigator_webdriver := navigator_webdriver h;
     window_Cypress := window_Cypress h;
     localStorage_getItem := localStorage_getItem h;
     window_fetch := window_fetch h;
     window_prop := fun _ => Function throwing;
     performance_now := performance_now h |}.

(** A tag with a custom property and a before-send function, and a page
    whose function of that name marks the object it is given and then
    throws. *)
Definition tag_with_props : Config :=
  {| endpoint := endpoint tag; siteId := siteId tag; uniqueId := uniqueId tag;
     logging := logging tag;
     customProps := Some [("plan"%string, JStr "pro")];
     beforeSend := Some "enrich"%string |}.

Definition marking_then_throwing (o : Obj) : HookResult :=
  {| arg_after := ("seen"%string, JBool true) :: o; outcome := None |}.

Definition page_with_marking_hook : Host :=
  let h := page (at_path "/a") 0 2000 in
  {| location := location h; referrer := referrer h;
     body_scrollHeight := body_scrollHeight h;
     documentElement_scrollHeight := documentElement_scrollHeight h;
     scrollY := scrollY h; innerHeight := innerHeight h;
     visibilityState := visibilityState h;
     navigator_webdriver := navigator_webdriver h;
     window_Cypress := window_Cypress h;
     localStorage_getItem := localStorage_getItem h;
     window_fetch := window_fetch h;
     window_prop := fun _ => Function marking_then_throwing;
     performance_now := performance_now h |}.

(* ------------------------------------------------------------------ *)
(** *** The custom properties *)
(* ------------------------------------------------------------------ *)

(** [o[key]] for an own property, [None] when there is none. *)
Fixpoint lookup (key : string) (o : Obj) : option JsVal :=
  match o with
  | [] => None
  | (k, x) :: o' => if String.eqb k key then Some x else lookup key o'
  end.

(** The value of the last attribute called [name]. *)
Fixpoint last_value (name : string) (attrs : list Attr) : option string :=
  match attrs with
  | [] => None
  | a :: rest =>
      match last_value name rest with
      | Some v => Some v
      | None => if String.eqb (attr_name a) name then Some (attr_value a) else None
      end
  end.

(** The custom property [key] the attributes define, if they do. *)
Definition customProp (key : string) (attrs : list Attr) : option JsVal :=
  if String.eqb key "__proto__" then None
  else option_map JStr (last_value ("data-usd-" ++ key) attrs).

(* ------------------------------------------------------------------ *)
(** *** From one world to a later one *)
(* ------------------------------------------------------------------ *)

(** A relation between the world before and the world after that holds
    across nothing and across one thing after another. *)
Record preorder (R : World -> World -> Prop) : Prop := {
  preorder_refl : forall w, R w w;
  preorder_trans : forall w1 w2 w3, R w1 w2 -> R w2 w3 -> R w1 w3
}.

(** [R] holds across the computation [m]. *)
Definition across (R : World -> World -> Prop) {A} (m : M A) : Prop :=
  forall w : World, R w (exec m w).

(** [R] holds across each of the listeners' building blocks. *)
Definition across_blocks (R : World -> World -> Prop) : Prop :=
  (forall h w, R w (with_host h w)) /\
  across R startEngagement /\
  across R pauseEngagement /\
  across R trackEngagement /\
  (forall path, across R (enter path)) /\
  across R onScroll /\
  across R runAnimationFrame /\
  across R onLoad /\
  (forall k a, across R (onInterval k a)).

(* ------------------------------------------------------------------ *)
(** *** The settings *)
(* ------------------------------------------------------------------ *)

(** What the script can do to its configuration [c]: nothing, or, when
    a before-send function is named and there are custom properties, let
    that function change the content of the custom properties. *)
Definition tag_kept (c c' : Config) : Prop :=
  c' = c \/
  exists name o o',
    beforeSend c = Some name /\ name <> ""%string /\
    customProps c = Some o /\ c' = set_customProps (Some o') c.

(** The script keeps its tag, its start time and its clock. *)
Definition settings_kept (w w' : World) : Prop :=
  tag_kept (config (vars w)) (config (vars w')) /\
  pageLoadTime (vars w') = pageLoadTime (vars w) /\
  clock w' = clock w.

(* ------------------------------------------------------------------ *)
(** *** The events of a run *)
(* ------------------------------------------------------------------ *)

(** An event as the script builds it for the tag [c]: the identifiers
    of the tag, a referrer that is null rather than empty, a [p] exactly
    when the tag has custom properties (the very ones of the tag when no
    before-send function is named), and either a [pageview] with no
    measure or an [engagement] with all four. *)
Definition event_ok (c : Config) (d : Data.t Obj) : Prop :=
  Data.hu d = uniqueId c /\ Data.i d = siteId c /\
  Data.r d <> Some ""%string /\
  (Data.p d = None <-> customProps c = None) /\
  (beforeSend c = None -> Data.p d = customProps c) /\
  ((Data.n d = "pageview"%string /\ Data.sd d = None /\ Data.e d = None /\
    Data.h d = None /\ Data.tt d = None) \/
   (Data.n d = "engagement"%string /\
    (exists sd, Data.sd d = Some sd /\ sd <= 100) /\
    Data.e d <> None /\ Data.h d = Some 1 /\ Data.tt d <> None)).

(** A log (newest action first) in which every event is well formed and
    every request goes to the endpoint of the tag and comes right after
    the event it carries. *)
Fixpoint wire_ok (c : Config) (l : list Action) : Prop :=
  match l with
  | [] => True
  | Fetch url b :: l' =>
      url = endpoint c /\
      match l' with
      | Tracked d :: _ => same_but_p d b
      | _ => False
      end /\
      wire_ok c l'
  | Tracked d :: l' => event_ok c d /\ wire_ok c l'
  | _ :: l' => wire_ok c l'
  end.

(** One [pageview] per assignment of [currentPath], and no more
    [engagement] events than page views to close. *)
Definition tally_ok (w : World) : Prop :=
  count (emits "pageview") (log w) = count is_path_set (log w) /\
  (count (emits "engagement") (log w) +
   (if pageviewSent (vars w) && negb (engagementSent (vars w)) then 1 else 0)
   <= count (emits "pageview") (log w))%nat.

Definition ledger_ok (c : Config) (w : World) : Prop :=
  tag_kept c (config (vars w)) /\ wire_ok c (log w) /\ tally_ok w.

(* ------------------------------------------------------------------ *)
(** *** The accumulator in a run *)
(* ------------------------------------------------------------------ *)

(** The engaged time an action reports, if it reports one, is not
    negative. *)
Definition reports_nonneg (a : Action) : Prop :=
  match a with
  | Tracked d => forall ev, Data.e d = Some ev -> 0 <= ev
  | Fetch _ b => forall ev, Data.e b = Some ev -> 0 <= ev
  | _ => True
  end.

(** The accumulator under a clock that does not run backwards: nothing
    negative was accumulated or reported, and a running timer was started
    at a reading the clock already gave. *)
Definition timer_sound (w : World) : Prop :=
  clock_monotone w /\
  0 <= accumulatedEngagement (vars w) /\
  (engagementTimerActive (vars w) = true ->
   exists j, (j < reads w)%nat /\ engagementStart (vars w) = Some (clock w j)) /\
  Forall reports_nonneg (log w).

(* ------------------------------------------------------------------ *)
(** *** Frames and the scroll depth *)
(* ------------------------------------------------------------------ *)

(** The [ticking] flag says whether a callback is waiting for the next
    frame, and there is never more than one. *)
Definition frame_ok (w : World) : Prop :=
  rafQueue w = if ticking (vars w) then 1%nat else 0%nat.

(** The depth the callback of lines 99-101 leaves in [maxScrollDepth]. *)
Definition sampled (w : World) : Q :=
  if Qle_bool (eval getCurrentScrollDepth w) (maxScrollDepth (vars w))
  then maxScrollDepth (vars w)
  else eval getCurrentScrollDepth w.

(** From [w] to [w'] the log grew, and if [currentPath] was not assigned
    on the way the page view is the same and its [maxScrollDepth] did not
    go down. *)
Definition depth_kept (w w' : World) : Prop :=
  exists delta,
    log w' = delta ++ log w /\
    (forallb (fun a => negb (is_path_set a)) delta = true ->
     currentPath (vars w') = currentPath (vars w) /\
     (maxScrollDepth (vars w) <= maxScrollDepth (vars w'))%Q).

(* ------------------------------------------------------------------ *)
(** *** The loop-back pattern as a grammar *)
(* ------------------------------------------------------------------ *)

(** The host names the pattern of line 180 describes, read as a grammar:
    [localhost], or [127] followed by one to three groups, each a dot and
    at least one digit. *)
Fixpoint all_digits (s : string) : bool :=
  match s with
  | EmptyString => true
  | String c s' => is_digit c && all_digits s'
  end.

Definition digit_group (g : string) : Prop :=
  g <> ""%string /\ all_digits g = true.

Fixpoint dotted (groups : list string) : string :=
  match groups with
  | [] => ""%string
  | g :: groups' => ("." ++ g ++ dotted groups')%string
  end.

Definition loopback_name (s : string) : Prop :=
  s = "localhost"%string \/
  exists groups : list string,
    (1 <= List.length groups <= 3)%nat /\ Forall digit_group groups /\
    s = ("127" ++ dotted groups)%string.

(** A string that does not go on with a digit. *)
Definition no_digit_ahead (s : string) : Prop :=
  match s with
  | String c _ => is_digit c = false
  | EmptyString => True
  end.

(* ------------------------------------------------------------------ *)
(** *** One more sample page *)
(* ------------------------------------------------------------------ *)

(** A page whose before-send function leaves the object it is given
    alone and returns null. *)
Definition dropping (o : Obj) : HookResult :=
  {| arg_after := o; outcome := Some JNull |}.

Definition page_with_dropping_hook : Host :=
  let h := page (at_path "/a") 0 2000 in
  {| location := location h; referrer := referrer h;
     body_scrollHeight := body_scrollHeight h;
     documentElement_scrollHeight := documentElement_scrollHeight h;
     scrollY := scrollY h; innerHeight := innerHeight h;
     visibilityState := visibilityState h;
     navigator_webdriver := navigator_webdriver h;
     window_Cypress := window_Cypress h;
     localStorage_getItem := localStorage_getItem h;
     window_fetch := window_fetch h;
     window_prop := fun _ => Function dropping;
     performance_now := performance_now h |}.

(* ------------------------------------------------------------------ *)
(** *** The accumulator and the wall time *)
(* ------------------------------------------------------------------ *)

(** Since the clock read [t0], no more time was accumulated than has
    passed: what is accumulated is at most the time from [t0] to a
    reading the clock already gave, the one the timer was started at if
    it runs. *)
Definition within_wall_time (t0 : Z) (w : World) : Prop :=
  clock_monotone w /\
  0 <= accumulatedEngagement (vars w) /\
  exists j, (j < reads w)%nat /\
    accumulatedEngagement (vars w) <= clock w j - t0 /\
    (engagementTimerActive (vars w) = true ->
     engagementStart (vars w) = Some (clock w j)).

(** From [w] to [w'] the log grew, and if [currentPath] was not assigned
    on the way the accumulator stayed within the wall time. *)
Definition wall_time_kept (t0 : Z) (w w' : World) : Prop :=
  exists delta,
    log w' = delta ++ log w /\
    (forallb (fun a => negb (is_path_set a)) delta = true ->
     within_wall_time t0 w -> within_wall_time t0 w').

(* ------------------------------------------------------------------ *)
(** *** The doubles of the kernel *)
(* ------------------------------------------------------------------ *)

(** Rocq's primitive floats are IEEE 754 binary64 numbers, as the
    numbers of JavaScript are; they serve to check [Double] on samples.
    [binary64_value x] is the rational the float [x] stands for, if it is
    finite. *)
Definition binary64_value (x : PrimFloat.float) : option Q :=
  match FloatOps.Prim2SF x with
  | SpecFloat.S754_zero _ => Some 0%Q
  | SpecFloat.S754_finite s m e =>
      let v := if 0 <=? e then inject_Z (Zpos m * 2 ^ e)
               else Qmake (Zpos m) (Z.to_pos (2 ^ (- e))) in
      Some (if s then Qopp v else v)
  | _ => None
  end.

(** The float of an integer below 2^53 in size. *)
Definition binary64_of_Z (z : Z) : PrimFloat.float :=
  match z with
  | Z0 => PrimFloat.of_uint63 (Uint63.of_Z 0)
  | Zpos p => PrimFloat.of_uint63 (Uint63.of_Z (Zpos p))
  | Zneg p => PrimFloat.opp (PrimFloat.of_uint63 (Uint63.of_Z (Zpos p)))
  end.

Definition is_value (x : PrimFloat.float) (q : Q) : bool :=
  match binary64_value x with
  | Some v => Qeq_bool v q
  | None => false
  end.

(** [(m / dh) * 100], as line 83 computes it, on floats and on [Double]. *)
Definition same_percentage (m dh : Z) : bool :=
  is_value (PrimFloat.mul (PrimFloat.div (binary64_of_Z m) (binary64_of_Z dh))
                          (binary64_of_Z 100))
           (Double.mul (Double.div (inject_Z m) (inject_Z dh)) 100).

(** [a / 10 - b / 10] and [a / 10 + b], readings with one decimal. *)
Definition same_difference (a b : Z) : bool :=
  is_value (PrimFloat.sub (PrimFloat.div (binary64_of_Z a) (binary64_of_Z 10))
                          (PrimFloat.div (binary64_of_Z b) (binary64_of_Z 10)))
           (Double.sub (Double.div (inject_Z a) 10) (Double.div (inject_Z b) 10)).

Definition same_sum (a b : Z) : bool :=
  is_value (PrimFloat.add (PrimFloat.div (binary64_of_Z a) (binary64_of_Z 10))
                          (binary64_of_Z b))
           (Double.add (Double.div (inject_Z a) 10) (inject_Z b)).

(** The integers from [from], [k] of them. *)
Fixpoint upto (k : nat) (from : Z) : list Z :=
  match k with
  | O => []
  | S k' => from :: upto k' (from + 1)
  end.

(* ================================================================== *)
(** * Lemmas *)
(* ================================================================== *)

(** Unfold the monad and the record updates, down to the tests the code
    makes. *)
Ltac js :=
  cbv [exec eval bind ret var env assign record Date_now fetch
       elapsedAt next_reading
       with_vars with_host with_rafQueue with_timers with_reads with_log
       set_config set_currentPath set_pageviewSent set_documentHeight
       set_maxScrollDepth set_engagementStart set_accumulatedEngagement
       set_engagementTimerActive set_engagementSent set_ticking
       vars host rafQueue timers clock reads log
       config currentPath pageviewSent documentHeight maxScrollDepth
       engagementStart accumulatedEngagement engagementTimerActive
       engagementSent pageLoadTime ticking fst snd negb];
  cbn [toNumber].

Ltac accumulator :=
  unfold call, startEngagement, pauseEngagement, getEngagementTime,
    resetEngagementTracking; js.

Ltac open_world w :=
  destruct w as [[cfg cur pv dh msd es acc act sent plt tick]
                   hst raf tms clk rd lg].

Lemma exec_bind {A B} (m : M A) (k : A -> M B) (w : World) :
  exec (bind m k) w = exec (k (eval m w)) (exec m w).
Proof. unfold exec, eval, bind. destruct (m w). reflexivity. Qed.

Lemma eval_bind {A B} (m : M A) (k : A -> M B) (w : World) :
  eval (bind m k) w = eval (k (eval m w)) (exec m w).
Proof. unfold exec, eval, bind. destruct (m w). reflexivity. Qed.

(* ------------------------------------------------------------------ *)
(** ** The engagement accumulator *)
(* ------------------------------------------------------------------ *)

Lemma call_clock (c : Call) (w : World) : clock (exec (call c) w) = clock w.
Proof. open_world w. destruct c; accumulator; destruct act; reflexivity. Qed.

(** A lower bound on the engaged time stays one across a call. *)
Lemma call_keeps_bound (c : Call) (w : World) (x : Z) :
  clock_monotone w ->
  x <= elapsedAt w (next_reading w) ->
  x <= elapsedAt (exec (call c) w) (next_reading (exec (call c) w)).
Proof.
  intros Hm.
  pose proof (Hm (reads w) (S (reads w)) (Nat.le_succ_diag_r _)) as Hs.
  open_world w. destruct c; revert Hs; accumulator; destruct act; cbn [toNumber];
    intros; lia.
Qed.

Lemma calls_keep_bound (l : list Call) : forall (w : World) (x : Z),
  clock_monotone w ->
  x <= elapsedAt w (next_reading w) ->
  clock_monotone (exec (calls l) w) /\
  x <= elapsedAt (exec (calls l) w) (next_reading (exec (calls l) w)).
Proof.
  induction l as [|c l IH]; intros w x Hm Hx.
  - split; assumption.
  - change (calls (c :: l)) with (bind (call c) (fun _ => calls l)).
    rewrite exec_bind. apply IH.
    + unfold clock_monotone. rewrite call_clock. exact Hm.
    + apply call_keeps_bound; assumption.
Qed.

Lemma read_gives_bound (w : World) :
  clock_monotone w ->
  clock_monotone (exec getEngagementTime w) /\
  eval getEngagementTime w <=
    elapsedAt (exec getEngagementTime w)
              (next_reading (exec getEngagementTime w)).
Proof.
  intros Hm.
  pose proof (Hm (reads w) (S (reads w)) (Nat.le_succ_diag_r _)) as Hs.
  open_world w. revert Hs Hm. unfold clock_monotone. accumulator.
  destruct act; cbn [toNumber]; intros; split; try assumption; lia.
Qed.

Lemma getEngagementTime_value (w : World) :
  eval getEngagementTime w = elapsedAt w (next_reading w).
Proof. open_world w. accumulator. destruct act; reflexivity. Qed.

Lemma start_makes_active (w : World) :
  engagementTimerActive (vars (exec startEngagement w)) = true.
Proof. open_world w. accumulator. destruct act; reflexivity. Qed.

Lemma start_when_active (w : World) :
  engagementTimerActive (vars w) = true -> startEngagement w = (tt, w).
Proof. open_world w. accumulator. intros ->. reflexivity. Qed.

(** The accumulator across the operations: what each one does. *)
Lemma pause_effect (w : World) :
  engagementTimerActive (vars w) = true ->
  accumulatedEngagement (vars (exec pauseEngagement w)) =
    accumulatedEngagement (vars w) +
    (next_reading w - toNumber (engagementStart (vars w))) /\
  engagementTimerActive (vars (exec pauseEngagement w)) = false /\
  engagementStart (vars (exec pauseEngagement w)) = engagementStart (vars w).
Proof. open_world w. accumulator. intros ->. repeat split. Qed.

(* ------------------------------------------------------------------ *)
(** ** The event dispatcher *)
(* ------------------------------------------------------------------ *)

Ltac dispatcher :=
  unfold trackEvent, basePayload, getCurrentUrl, sendRequest, applyHook, shouldTrack; js.

Lemma shouldTrack_pure w : exec shouldTrack w = w.
Proof.
  open_world w. dispatcher.
  destruct (is_loopback _); [reflexivity|].
  destruct (navigator_webdriver hst || window_Cypress hst); [reflexivity|].
  destruct (localStorage_getItem hst _) as [[v|]|]; try reflexivity.
  destruct (String.eqb v "true"); reflexivity.
Qed.

Lemma shouldTrack_false w :
  eval shouldTrack w = false <-> gate_closed (host w).
Proof.
  open_world w. unfold gate_closed. dispatcher.
  destruct (is_loopback _); [intuition|].
  destruct (navigator_webdriver hst); [cbn; intuition|].
  destruct (window_Cypress hst); [cbn; intuition|]. cbn.
  destruct (localStorage_getItem hst _) as [[v|]|]; cbn.
  - destruct (String.eqb_spec v "true") as [->|Hv]; cbn.
    + intuition.
    + split; [discriminate|]. intros [H|[H|[H|H]]]; try discriminate.
      injection H as H. contradiction.
  - split; [discriminate|]. intros [H|[H|[H|H]]]; discriminate.
  - split; [discriminate|]. intros [H|[H|[H|H]]]; discriminate.
Qed.

Lemma sendRequest_gate_closed d w :
  eval shouldTrack w = false -> sendRequest d w = (tt, w).
Proof.
  open_world w. dispatcher.
  destruct (window_fetch hst); [|reflexivity]. cbn.
  destruct (is_loopback _); [reflexivity|].
  destruct (navigator_webdriver hst || window_Cypress hst); [reflexivity|].
  destruct (localStorage_getItem hst _) as [[v|]|]; try discriminate.
  destruct (String.eqb v "true"); [reflexivity|discriminate].
Qed.

Lemma same_but_p_with_p {P P'} (v : option P') (d : Data.t P) :
  same_but_p d (Data.with_p v d).
Proof. unfold same_but_p. cbn. repeat split. Qed.

Lemma shouldTrack_run (w : World) : shouldTrack w = (eval shouldTrack w, w).
Proof.
  pose proof (shouldTrack_pure w) as Hp. unfold exec in Hp. unfold eval.
  destruct (shouldTrack w) as [b w']. cbn in *. congruence.
Qed.

Lemma sendRequest_effect (d : Data.t Obj) (w : World) :
  exists c' fs,
    sendRequest d w =
      (tt, with_log (fs ++ log w) (with_vars (set_config c' (vars w)) w)) /\
    send_outcome d w c' fs.
Proof.
  destruct (may_send w) eqn:Hg.
  - assert (Hyes : forall c' v,
      send_outcome d w c' [Fetch (endpoint (config (vars w))) (Data.with_p v d)]).
    { intros c' v. right. split; [exact Hg|].
      exists (Data.with_p v d). split; [reflexivity|apply same_but_p_with_p]. }
    unfold may_send in Hg. apply andb_true_iff in Hg as [Hf Hs].
    unfold sendRequest. cbv [bind env ret]. rewrite Hf. cbv [negb].
    rewrite shouldTrack_run, Hs. cbv [var fetch record].
    destruct (beforeSend (config (vars w))) as [name|].
    2:{ exists (config (vars w)), [Fetch (endpoint (config (vars w))) (Data.body d)].
        split; [open_world w; reflexivity|apply Hyes]. }
    destruct (String.eqb name ""); cbv [negb].
    { exists (config (vars w)), [Fetch (endpoint (config (vars w))) (Data.body d)].
      split; [open_world w; reflexivity|apply Hyes]. }
    unfold applyHook. cbv [bind env ret var].
    destruct (window_prop (host w) name) as [| |fn].
    1,2: exists (config (vars w)),
                [Fetch (endpoint (config (vars w))) (Data.body d)];
         (split; [open_world w; reflexivity|apply Hyes]).
    pose (url := endpoint (config (vars w))).
    destruct (Data.p d) as [o|].
    + destruct (customProps (config (vars w))) eqn:Hcp.
      * exists (set_customProps (Some (arg_after (fn o))) (config (vars w))).
        destruct (outcome (fn o)) as [v|];
          [exists [Fetch url (Data.with_p (Some v) d)]
          |exists [Fetch url (Data.with_p (Some (JObj (arg_after (fn o)))) d)]];
          (split; [open_world w; js; reflexivity|apply Hyes]).
      * exists (config (vars w)).
        destruct (outcome (fn o)) as [v|];
          [exists [Fetch url (Data.with_p (Some v) d)]
          |exists [Fetch url (Data.with_p (Some (JObj (arg_after (fn o)))) d)]];
          (split; [open_world w; js; reflexivity|apply Hyes]).
    + exists (config (vars w)).
      destruct (outcome (fn [])) as [v|];
        [exists [Fetch url (Data.with_p (Some v) d)]
        |exists [Fetch url (Data.with_p (Some (JObj (arg_after (fn [])))) d)]];
        (split; [open_world w; js; reflexivity|apply Hyes]).
  - exists (config (vars w)), []. split; [|left; auto].
    unfold may_send in Hg. apply andb_false_iff in Hg as [Hf|Hs].
    + unfold sendRequest. cbv [bind env ret]. rewrite Hf. open_world w. reflexivity.
    + rewrite sendRequest_gate_closed by exact Hs. open_world w. reflexivity.
Qed.

Lemma shouldTrack_host (w1 w2 : World) :
  host w1 = host w2 -> eval shouldTrack w1 = eval shouldTrack w2.
Proof.
  open_world w1. destruct w2 as [v2 h2 q2 t2 c2 r2 l2]. cbn. intros ->.
  dispatcher.
  destruct (is_loopback _); [reflexivity|].
  destruct (navigator_webdriver h2 || window_Cypress h2); [reflexivity|].
  destruct (localStorage_getItem h2 _) as [[v|]|]; try reflexivity.
  destruct (String.eqb v "true"); reflexivity.
Qed.

Lemma send_outcome_log (d : Data.t Obj) (w : World) (l : list Action) c' fs :
  send_outcome d (with_log l w) c' fs -> send_outcome d w c' fs.
Proof.
  unfold send_outcome, may_send.
  rewrite (shouldTrack_host (with_log l w) w) by reflexivity.
  open_world w. exact (fun H => H).
Qed.

Lemma basePayload_run (w : World) : basePayload w = (eval basePayload w, w).
Proof.
  open_world w. unfold basePayload, getCurrentUrl. js.
  destruct (href (location hst)); reflexivity.
Qed.

Lemma trackEvent_effect (name : string) (props : Props) (w : World) :
  exists c' fs,
    trackEvent name props w =
      (tt, with_log (fs ++ Tracked (eventOf name props w) :: log w)
                    (with_vars (set_config c' (vars w)) w)) /\
    send_outcome (eventOf name props w) w c' fs.
Proof.
  unfold trackEvent. cbv [bind]. rewrite basePayload_run.
  fold (eventOf name props w). cbv [record].
  destruct (sendRequest_effect (eventOf name props w)
              (with_log (Tracked (eventOf name props w) :: log w) w))
    as (c' & fs & E & O).
  exists c', fs. rewrite E. split.
  - open_world w. reflexivity.
  - exact (send_outcome_log _ _ _ _ _ O).
Qed.

(* ------------------------------------------------------------------ *)
(** ** Opening and closing a page view *)
(* ------------------------------------------------------------------ *)

Ltac lifecycle :=
  unfold trackPageview, trackEngagement, resetScrollTracking,
    getDocumentHeight, getCurrentScrollDepth, getScrollPercentage,
    resetEngagementTracking, startEngagement, pauseEngagement,
    getEngagementTime; js; cbv [orb andb].

Lemma eventOf_host_config (name : string) (props : Props) (w1 w2 : World) :
  host w1 = host w2 -> config (vars w1) = config (vars w2) ->
  eventOf name props w1 = eventOf name props w2.
Proof.
  open_world w1. destruct w2 as [[] h2 q2 t2 c2 r2 l2]. cbn. intros -> ->.
  unfold eventOf, basePayload, getCurrentUrl. js.
  destruct (href (location h2)); reflexivity.
Qed.

Lemma send_outcome_host_config (d : Data.t Obj) (w1 w2 : World) c' fs :
  host w1 = host w2 -> config (vars w1) = config (vars w2) ->
  send_outcome d w1 c' fs -> send_outcome d w2 c' fs.
Proof.
  intros Hh Hc. unfold send_outcome, may_send.
  rewrite (shouldTrack_host w1 w2 Hh), Hh, Hc. exact (fun H => H).
Qed.

(** Replace a call of [trackEvent] in the goal by its effect, with the
    event and its outcome stated in the world [w0] the enclosing function
    started in (the host and the configuration are still those of [w0]). *)
Tactic Notation "use_trackEvent" ident(c) ident(fs) ident(H) :=
  match goal with
  | |- context [trackEvent ?n ?p ?W] =>
      match goal with
      | |- context [Tracked (eventOf n _ ?w0)] =>
          let E := fresh "E" in
          destruct (trackEvent_effect n p W) as (c & fs & E & H);
          rewrite E; clear E;
          try rewrite (eventOf_host_config n p W w0 eq_refl eq_refl) in *;
          apply (send_outcome_host_config _ W w0 _ _ eq_refl eq_refl) in H
      end
  end.

Lemma trackPageview_effect (w : World) :
  exists c' fs,
    trackPageview w =
      (tt, with_log (fs ++ Tracked (eventOf "pageview" no_props w) :: log w)
             (with_reads (S (reads w))
                (with_vars (opened c' (host w) (next_reading w) (vars w)) w))) /\
    send_outcome (eventOf "pageview" no_props w) w c' fs.
Proof.
  open_world w. lifecycle.
  use_trackEvent c' fs HO.
  exists c', fs. split; [reflexivity|exact HO].
Qed.

Lemma trackEngagement_skips (w : World) :
  pageviewSent (vars w) = false \/ engagementSent (vars w) = true ->
  trackEngagement w = (tt, w).
Proof.
  open_world w. cbn [vars pageviewSent engagementSent].
  intros [-> | ->]; lifecycle; [reflexivity|].
  destruct pv; reflexivity.
Qed.

Lemma trackEngagement_noise (w : World) :
  pageviewSent (vars w) = true -> engagementSent (vars w) = false ->
  is_noise w = true ->
  trackEngagement w = (tt, exec getEngagementTime w).
Proof.
  unfold is_noise. open_world w. cbn [vars pageviewSent engagementSent].
  intros -> ->. lifecycle.
  destruct act; cbv beta iota; intros ->; reflexivity.
Qed.

Lemma trackEngagement_effect (w : World) :
  pageviewSent (vars w) = true -> engagementSent (vars w) = false ->
  is_noise w = false ->
  exists c' fs,
    trackEngagement w =
      (tt, with_log
             (fs ++ Tracked (eventOf "engagement" (engagementProps w) w) :: log w)
             (with_reads (closing_reads w + reads w)
                (with_vars (closed c' (vars w)) w))) /\
    send_outcome (eventOf "engagement" (engagementProps w) w) w c' fs.
Proof.
  unfold is_noise, engagementProps, closing_reads. open_world w.
  cbn [vars pageviewSent engagementSent]. intros -> ->. lifecycle.
  destruct act; cbv beta iota; intros ->.
  all: destruct (dh =? 0); use_trackEvent c' fs HO;
    exists c', fs; (split; [reflexivity|exact HO]).
Qed.

(* ------------------------------------------------------------------ *)
(** ** Route changes *)
(* ------------------------------------------------------------------ *)

Lemma handleRouteChange_same (w : World) :
  pathname (location (host w)) = currentPath (vars w) ->
  handleRouteChange w = (tt, w).
Proof.
  intros H. unfold handleRouteChange. cbv [bind env var]. rewrite H.
  rewrite String.eqb_refl. reflexivity.
Qed.

Lemma handleRouteChange_first (w : World) :
  pathname (location (host w)) <> currentPath (vars w) ->
  currentPath (vars w) = ""%string ->
  handleRouteChange w = enter (pathname (location (host w))) w.
Proof.
  intros H He. apply String.eqb_neq in H.
  unfold handleRouteChange, enter. cbv [bind env var]. rewrite H, He.
  reflexivity.
Qed.

Lemma handleRouteChange_next (w : World) :
  pathname (location (host w)) <> currentPath (vars w) ->
  currentPath (vars w) <> ""%string ->
  handleRouteChange w =
    (trackEngagement ;; enter (pathname (location (host w)))) w.
Proof.
  intros H He. apply String.eqb_neq in H. apply String.eqb_neq in He.
  unfold handleRouteChange, enter. cbv [bind env var]. rewrite H, He.
  reflexivity.
Qed.

Lemma enter_effect (path : string) (w : World) :
  exists c' fs,
    enter path w =
      (tt, with_log
             (fs ++ Tracked (eventOf "pageview" no_props w)
                 :: PathSet path :: log w)
             (with_reads (S (reads w))
                (with_vars
                   (opened c' (host w) (next_reading w)
                      (set_currentPath path (vars w))) w))) /\
    send_outcome (eventOf "pageview" no_props w) w c' fs.
Proof.
  unfold enter. cbv [bind assign record].
  match goal with
  | |- context [trackPageview ?W] =>
      destruct (trackPageview_effect W) as (c' & fs & E & HO); rewrite E; clear E
  end.
  exists c', fs. split.
  - rewrite (eventOf_host_config _ _ _ w) by (open_world w; reflexivity).
    open_world w. reflexivity.
  - rewrite (eventOf_host_config _ _ _ w) in HO by (open_world w; reflexivity).
    eapply send_outcome_host_config; [| |exact HO]; open_world w; reflexivity.
Qed.

Lemma send_outcome_requests (d : Data.t Obj) (w : World) c' fs :
  send_outcome d w c' fs ->
  Forall (fun a => request_name a = Some (Data.n d)) fs /\ rev fs = fs /\
  (List.length fs <= 1)%nat.
Proof.
  intros [(_ & -> & _) | (_ & b & -> & Hb)].
  - repeat split; auto.
  - repeat split; auto. constructor; [|constructor].
    cbn. destruct Hb as [<- _]. reflexivity.
Qed.

Lemma eventOf_name (name : string) (props : Props) (w : World) :
  Data.n (eventOf name props w) = name.
Proof. reflexivity. Qed.

(** What [trackEngagement] adds to the trace: nothing, or the closing
    report followed by the request that carries it. *)
Lemma trackEngagement_trace (w : World) :
  exists closing,
    trace (exec trackEngagement w) = trace w ++ closing /\
    (closing = [] \/
     exists fs,
       closing = Tracked (eventOf "engagement" (engagementProps w) w) :: fs /\
       Forall (fun a => request_name a = Some "engagement"%string) fs).
Proof.
  destruct (pageviewSent (vars w)) eqn:Hpv;
    [destruct (engagementSent (vars w)) eqn:Hes|].
  2: destruct (is_noise w) eqn:Hn.
  - exists []. unfold exec. rewrite trackEngagement_skips by auto.
    split; [symmetry; apply app_nil_r|auto].
  - exists []. unfold exec at 1. rewrite trackEngagement_noise by auto.
    split; [|auto]. rewrite app_nil_r.
    open_world w. accumulator. destruct act; reflexivity.
  - destruct (trackEngagement_effect w Hpv Hes Hn) as (c' & fs & E & HO).
    apply send_outcome_requests in HO as (Hf & Hr & _).
    exists (Tracked (eventOf "engagement" (engagementProps w) w) :: fs).
    unfold exec. rewrite E. split.
    + unfold trace. open_world w. cbn [snd log with_log].
      rewrite rev_app_distr, Hr. cbn. rewrite <- app_assoc. reflexivity.
    + right. exists fs. auto.
  - exists []. unfold exec. rewrite trackEngagement_skips by auto.
    split; [symmetry; apply app_nil_r|auto].
Qed.

Lemma enter_trace (path : string) (w : World) :
  exists fs,
    trace (exec (enter path) w) =
      trace w ++ PathSet path :: Tracked (eventOf "pageview" no_props w) :: fs /\
    Forall (fun a => request_name a = Some "pageview"%string) fs /\
    currentPath (vars (exec (enter path) w)) = path /\
    pageviewSent (vars (exec (enter path) w)) = true /\
    engagementSent (vars (exec (enter path) w)) = false.
Proof.
  destruct (enter_effect path w) as (c' & fs & E & HO).
  apply send_outcome_requests in HO as (Hf & Hr & _).
  exists fs. unfold exec. rewrite E. repeat split.
  - unfold trace. open_world w. cbn [snd log with_log].
    rewrite rev_app_distr, Hr. cbn. rewrite <- !app_assoc. reflexivity.
  - exact Hf.
Qed.

Lemma handleRouteChange_closes_first (w : World) :
  pathname (location (host w)) <> currentPath (vars w) ->
  currentPath (vars w) <> ""%string ->
  exec handleRouteChange w =
    exec (enter (pathname (location (host w)))) (exec trackEngagement w).
Proof.
  intros Hd Hne. unfold exec at 1. rewrite handleRouteChange_next by assumption.
  fold (exec (trackEngagement ;; enter (pathname (location (host w)))) w).
  apply exec_bind.
Qed.

Lemma Math_round_nonneg (q : Q) : (0 <= q)%Q -> 0 <= Math_round q.
Proof.
  intros Hq. unfold Math_round.
  change 0 with (Qfloor 0). apply Qfloor_resp_le.
  apply Qle_trans with q; [exact Hq|].
  rewrite <- (Qplus_0_r q) at 1. apply Qplus_le_r. discriminate.
Qed.

Lemma round_half_even_nonneg (n d : Z) :
  0 <= n -> 0 < d -> 0 <= Double.round_half_even n d.
Proof.
  intros Hn Hd. unfold Double.round_half_even.
  pose proof (Z.div_pos n d Hn Hd) as Hq.
  destruct (2 * (n mod d) ?= d); [destruct (Z.even (n / d))| |]; lia.
Qed.

Lemma nearest_pos_nonneg (n d : Z) :
  0 < n -> 0 < d -> (0 <= Double.nearest_pos n d)%Q.
Proof.
  intros Hn Hd. unfold Double.nearest_pos, Double.scaled, Qle.
  cbn [Qnum Qden]. rewrite Z.mul_1_r, Z.mul_0_l.
  apply Z.mul_nonneg_nonneg; [|apply Z.pow_nonneg; lia].
  apply round_half_even_nonneg.
  - apply Z.mul_nonneg_nonneg; [lia|apply Z.pow_nonneg; lia].
  - apply Z.mul_pos_pos; [exact Hd|]. apply Z.pow_pos_nonneg; lia.
Qed.

(** Rounding to a double keeps the sign. *)
Lemma nearest_nonneg (q : Q) : (0 <= q)%Q -> (0 <= Double.nearest q)%Q.
Proof.
  destruct q as [[|n|n] d]; unfold Double.nearest; cbn [Qnum Qden]; intros H.
  - apply Qle_refl.
  - apply nearest_pos_nonneg; reflexivity.
  - exfalso. unfold Qle in H. cbn in H. lia.
Qed.

Lemma getScrollPercentage_range (w : World) :
  eval getScrollPercentage w <= 100 /\
  (scroll_state_ok w -> 0 <= eval getScrollPercentage w).
Proof.
  unfold scroll_state_ok. open_world w. unfold getScrollPercentage. js.
  destruct (Z.eqb_spec dh 0) as [->|Hdh]; cbn [fst].
  - split; [lia|intros _; lia].
  - split; [apply Z.le_min_r|]. intros [Hm Hd].
    apply Z.min_glb; [|lia]. apply Math_round_nonneg.
    apply nearest_nonneg. apply Qmult_le_0_compat; [|discriminate].
    apply nearest_nonneg. apply Qmult_le_0_compat; [exact Hm|].
    apply Qinv_le_0_compat. change 0%Q with (inject_Z 0).
    rewrite <- Zle_Qle. exact Hd.
Qed.


(* ------------------------------------------------------------------ *)
(** ** At most one event of each kind per page view *)
(* ------------------------------------------------------------------ *)

Lemma count_app f l1 l2 : count f (l1 ++ l2) = (count f l1 + count f l2)%nat.
Proof. unfold count. rewrite filter_app, length_app. reflexivity. Qed.

Lemma count_rev f l : count f (rev l) = count f l.
Proof.
  induction l as [|a l IH]; [reflexivity|].
  cbn [rev]. rewrite count_app, IH. unfold count. cbn.
  destruct (f a); cbn; lia.
Qed.

Lemma since_path_set_app (l1 l2 : list Action) :
  forallb (fun a => negb (is_path_set a)) l1 = true ->
  since_path_set (l1 ++ l2) = l1 ++ since_path_set l2.
Proof.
  induction l1 as [|a l1 IH]; [reflexivity|].
  cbn. intros H. apply andb_true_iff in H as [Ha Hl].
  destruct a; try discriminate; rewrite IH by exact Hl; reflexivity.
Qed.

Lemma log_ok_app name (l1 l2 : list Action) :
  log_ok name (l1 ++ l2) -> log_ok name l2.
Proof.
  induction l1 as [|a l1 IH]; [exact (fun H => H)|].
  cbn [app log_ok]. intros [_ H]. apply IH, H.
Qed.

Lemma log_ok_head name (l : list Action) :
  log_ok name l -> segment_ok name (since_path_set l).
Proof.
  destruct l as [|a l]; [|intros [H _]; exact H].
  intros _. split; cbn; lia.
Qed.

Lemma forallb_rev {A} (f : A -> bool) (l : list A) :
  forallb f (rev l) = forallb f l.
Proof.
  induction l as [|a l IH]; [reflexivity|].
  cbn. rewrite forallb_app, IH. cbn. rewrite andb_true_r. apply andb_comm.
Qed.

(** The invariant of the log gives the property of the trace. *)
Lemma log_ok_at_most_once name (l : list Action) :
  log_ok name l -> at_most_once_per_path name (rev l).
Proof.
  intros Hok pre mid post E Hmid.
  assert (El : l = rev post ++ rev mid ++ rev pre).
  { rewrite <- (rev_involutive l), E, !rev_app_distr, <- app_assoc.
    reflexivity. }
  rewrite El in Hok. apply log_ok_app, log_ok_head in Hok.
  rewrite since_path_set_app in Hok by (rewrite forallb_rev; exact Hmid).
  destruct Hok as [H1 H2]. rewrite !count_app, !count_rev in *. lia.
Qed.

Lemma quiet_bind {A B} (m : M A) (k : A -> M B) :
  quiet m -> (forall a, quiet (k a)) -> quiet (bind m k).
Proof.
  intros Hm Hk w. rewrite exec_bind.
  destruct (Hm w) as (H1 & H2 & H3 & H4).
  destruct (Hk (eval m w) (exec m w)) as (K1 & K2 & K3 & K4).
  repeat split; congruence.
Qed.

Lemma quiet_ret {A} (a : A) : quiet (ret a).
Proof. intros w. repeat split. Qed.

Lemma quiet_startEngagement : quiet startEngagement.
Proof. intros w. open_world w. accumulator. destruct act; repeat split. Qed.

Lemma quiet_pauseEngagement : quiet pauseEngagement.
Proof. intros w. open_world w. accumulator. destruct act; repeat split. Qed.

Lemma quiet_getEngagementTime : quiet getEngagementTime.
Proof. intros w. open_world w. accumulator. destruct act; repeat split. Qed.

Lemma quiet_handleVisibilityChange : quiet handleVisibilityChange.
Proof.
  intros w. unfold handleVisibilityChange, exec. cbv [bind env].
  destruct (String.eqb _ _);
    [apply quiet_startEngagement|apply quiet_pauseEngagement].
Qed.

Lemma quiet_onScroll : quiet onScroll.
Proof.
  intros w. open_world w. unfold onScroll, requestAnimationFrame. js.
  destruct tick; repeat split.
Qed.

Lemma quiet_onAnimationFrame : quiet onAnimationFrame.
Proof.
  intros w. open_world w. unfold onAnimationFrame, getCurrentScrollDepth. js.
  destruct (Qle_bool _ _); repeat split.
Qed.

Lemma quiet_times (k : nat) (m : M unit) : quiet m -> quiet (times k m).
Proof.
  intros Hm. induction k as [|k IH]; [apply quiet_ret|].
  cbn [times]. apply quiet_bind; [exact Hm|intros _; exact IH].
Qed.

Lemma quiet_runAnimationFrame : quiet runAnimationFrame.
Proof.
  intros w. unfold runAnimationFrame, exec.
  destruct (quiet_times (rafQueue w) onAnimationFrame quiet_onAnimationFrame
              (with_rafQueue 0 w)) as (H1 & H2 & H3 & H4).
  unfold exec in *. rewrite H1, H2, H3, H4. open_world w. repeat split.
Qed.

Lemma onLoad_effect (w : World) :
  log (exec onLoad w) = log w /\
  timers (exec onLoad w) =
    timers w ++ [{| attempts := 10; delay := 300; cleared := false |}] /\
  pageviewSent (vars (exec onLoad w)) = pageviewSent (vars w) /\
  engagementSent (vars (exec onLoad w)) = engagementSent (vars w).
Proof.
  open_world w. unfold onLoad, getDocumentHeight, setInterval. js.
  repeat split.
Qed.

Lemma onInterval_effect (k : nat) (a : Z) (w : World) :
  log (exec (onInterval k a) w) = Polled k :: log w /\
  timers (exec (onInterval k a) w) =
    (if a - 1 <=? 0
     then update k (set_cleared true) (update k (set_attempts (a - 1)) (timers w))
     else update k (set_attempts (a - 1)) (timers w)) /\
  pageviewSent (vars (exec (onInterval k a) w)) = pageviewSent (vars w) /\
  engagementSent (vars (exec (onInterval k a) w)) = engagementSent (vars w).
Proof.
  open_world w. unfold onInterval, getDocumentHeight, clearInterval. js.
  destruct (a - 1 <=? 0); repeat split.
Qed.

Lemma log_ok_cons_other name (a : Action) (l : list Action) :
  log_ok name l ->
  emits name a = false -> requests name a = false -> is_path_set a = false ->
  log_ok name (a :: l) /\
  count (emits name) (since_path_set (a :: l)) =
    count (emits name) (since_path_set l) /\
  count (requests name) (since_path_set (a :: l)) =
    count (requests name) (since_path_set l).
Proof.
  intros Hl He Hr Hp.
  assert (Hs : since_path_set (a :: l) = a :: since_path_set l)
    by (destruct a; try discriminate; reflexivity).
  assert (C1 : count (emits name) (a :: since_path_set l) =
               count (emits name) (since_path_set l))
    by (unfold count; cbn; rewrite He; reflexivity).
  assert (C2 : count (requests name) (a :: since_path_set l) =
               count (requests name) (since_path_set l))
    by (unfold count; cbn; rewrite Hr; reflexivity).
  destruct (log_ok_head name l Hl) as [S1 S2].
  split.
  - change (segment_ok name (since_path_set (a :: l)) /\ log_ok name l).
    rewrite Hs. split; [split; rewrite ?C1, ?C2; assumption|exact Hl].
  - rewrite Hs. split; assumption.
Qed.

Lemma log_ok_cons_path name (path : string) (l : list Action) :
  log_ok name l -> log_ok name (PathSet path :: l).
Proof. intros Hl. split; [split; cbn; lia|exact Hl]. Qed.

Lemma log_ok_cons_tracked name (d : Data.t Obj) (l : list Action) :
  log_ok name l ->
  Data.n d = name ->
  count (emits name) (since_path_set l) = 0%nat ->
  count (requests name) (since_path_set l) = 0%nat ->
  log_ok name (Tracked d :: l) /\
  count (emits name) (since_path_set (Tracked d :: l)) = 1%nat /\
  count (requests name) (since_path_set (Tracked d :: l)) = 0%nat.
Proof.
  intros Hl Hn He Hr.
  assert (C1 : count (emits name) (since_path_set (Tracked d :: l)) = 1%nat).
  { cbn [since_path_set]. unfold count in *. cbn [filter emits].
    rewrite Hn, String.eqb_refl. cbn. rewrite He. reflexivity. }
  assert (C2 : count (requests name) (since_path_set (Tracked d :: l)) = 0%nat).
  { cbn [since_path_set]. unfold count in *. cbn [filter requests]. exact Hr. }
  repeat split; try assumption; rewrite ?C1, ?C2; lia.
Qed.

Lemma log_ok_cons_fetch name (url : string) (b : Data.t JsVal) (l : list Action) :
  log_ok name l ->
  Data.n b = name ->
  count (emits name) (since_path_set l) = 1%nat ->
  count (requests name) (since_path_set l) = 0%nat ->
  log_ok name (Fetch url b :: l).
Proof.
  intros Hl Hn He Hr. split; [|exact Hl].
  cbn [since_path_set]. unfold segment_ok, count in *.
  cbn [filter emits requests]. rewrite Hn, String.eqb_refl. cbn. lia.
Qed.

(** An event emitted and its request (if any) keep the log fine, provided
    the current page view had no such event yet. *)
Lemma log_ok_event name (d : Data.t Obj) (w : World) c' fs (l : list Action) :
  send_outcome d w c' fs ->
  log_ok name l ->
  Data.n d = name ->
  count (emits name) (since_path_set l) = 0%nat ->
  count (requests name) (since_path_set l) = 0%nat ->
  log_ok name (fs ++ Tracked d :: l).
Proof.
  intros HO Hl Hn He Hr.
  destruct (log_ok_cons_tracked name d l Hl Hn He Hr) as (H1 & H2 & H3).
  destruct HO as [(_ & -> & _) | (_ & b & -> & Hb)]; [exact H1|].
  apply log_ok_cons_fetch; try assumption.
  destruct Hb as [Hb _]. congruence.
Qed.

(** An event of another name, and its request, change nothing for [name]. *)
Lemma log_ok_other_event name (d : Data.t Obj) (w : World) c' fs (l : list Action) :
  send_outcome d w c' fs ->
  log_ok name l ->
  String.eqb (Data.n d) name = false ->
  log_ok name (fs ++ Tracked d :: l) /\
  count (emits name) (since_path_set (fs ++ Tracked d :: l)) =
    count (emits name) (since_path_set l) /\
  count (requests name) (since_path_set (fs ++ Tracked d :: l)) =
    count (requests name) (since_path_set l).
Proof.
  intros HO Hl Hn.
  destruct (log_ok_cons_other name (Tracked d) l Hl Hn eq_refl eq_refl)
    as (H1 & H2 & H3).
  destruct HO as [(_ & -> & _) | (_ & b & -> & Hb)]; [auto|].
  destruct Hb as [Hb _].
  destruct (log_ok_cons_other name (Fetch (endpoint (config (vars w))) b)
              (Tracked d :: l) H1) as (K1 & K2 & K3); try reflexivity.
  { cbn. rewrite <- Hb. exact Hn. }
  cbn [app]. rewrite K2, K3. auto.
Qed.

Lemma session_ok_same (w w' : World) :
  session_ok w ->
  log w' = log w ->
  engagementSent (vars w') = engagementSent (vars w) ->
  session_ok w'.
Proof.
  intros [H1 H2 H3] Hl He. split; rewrite ?Hl, ?He; assumption.
Qed.

Lemma session_ok_quiet {A} (m : M A) (w : World) :
  quiet m -> session_ok w -> session_ok (exec m w).
Proof.
  intros Hq Hw. destruct (Hq w) as (H1 & _ & _ & H4).
  apply (session_ok_same w); assumption.
Qed.

Lemma session_ok_polled (k : nat) (w w' : World) :
  session_ok w ->
  log w' = Polled k :: log w ->
  engagementSent (vars w') = engagementSent (vars w) ->
  session_ok w'.
Proof.
  intros [H1 H2 H3] Hl He.
  destruct (log_ok_cons_other "pageview" (Polled k) (log w) H1)
    as (P1 & _ & _); try reflexivity.
  destruct (log_ok_cons_other "engagement" (Polled k) (log w) H2)
    as (E1 & E2 & E3); try reflexivity.
  split; rewrite Hl; try assumption.
  rewrite He, E2, E3. exact H3.
Qed.

Lemma session_ok_trackEngagement (w : World) :
  session_ok w -> session_ok (exec trackEngagement w).
Proof.
  intros Hw.
  destruct (pageviewSent (vars w)) eqn:Hpv;
    [destruct (engagementSent (vars w)) eqn:Hes|].
  2: destruct (is_noise w) eqn:Hn.
  - unfold exec. rewrite trackEngagement_skips by auto. exact Hw.
  - unfold exec at 1. rewrite trackEngagement_noise by auto.
    apply session_ok_quiet; [apply quiet_getEngagementTime|exact Hw].
  - destruct (trackEngagement_effect w Hpv Hes Hn) as (c' & fs & E & HO).
    unfold exec. rewrite E. destruct Hw as [H1 H2 H3].
    destruct (H3 Hes) as [C1 C2].
    split.
    + replace (log _) with
        (fs ++ Tracked (eventOf "engagement" (engagementProps w) w) :: log w)
        by (open_world w; reflexivity).
      eapply log_ok_other_event; [exact HO|exact H1|reflexivity].
    + replace (log _) with
        (fs ++ Tracked (eventOf "engagement" (engagementProps w) w) :: log w)
        by (open_world w; reflexivity).
      eapply log_ok_event; [exact HO|exact H2|reflexivity|exact C1|exact C2].
    + open_world w. cbn. discriminate.
  - unfold exec. rewrite trackEngagement_skips by auto. exact Hw.
Qed.

Lemma session_ok_enter (path : string) (w : World) :
  session_ok w -> session_ok (exec (enter path) w).
Proof.
  intros [H1 H2 _].
  destruct (enter_effect path w) as (c' & fs & E & HO).
  unfold exec. rewrite E.
  assert (El : forall W,
    log (snd (tt, with_log (fs ++ Tracked (eventOf "pageview" no_props w)
                               :: PathSet path :: log w) W)) =
    fs ++ Tracked (eventOf "pageview" no_props w) :: PathSet path :: log w)
    by reflexivity.
  split; rewrite ?El.
  - eapply log_ok_event; [exact HO| |reflexivity|reflexivity|reflexivity].
    apply log_ok_cons_path, H1.
  - eapply log_ok_other_event; [exact HO| |reflexivity].
    apply log_ok_cons_path, H2.
  - intros _.
    destruct (log_ok_other_event "engagement" _ _ _ _ (PathSet path :: log w) HO)
      as (_ & K2 & K3); [apply log_ok_cons_path, H2|reflexivity|].
    rewrite K2, K3. split; reflexivity.
Qed.

Lemma handleRouteChange_cases (w : World) :
  exec handleRouteChange w = w \/
  exec handleRouteChange w = exec (enter (pathname (location (host w)))) w \/
  exec handleRouteChange w =
    exec (enter (pathname (location (host w)))) (exec trackEngagement w).
Proof.
  destruct (String.eqb_spec (pathname (location (host w))) (currentPath (vars w)))
    as [He|Hne].
  - left. unfold exec. rewrite handleRouteChange_same by exact He. reflexivity.
  - destruct (String.eqb_spec (currentPath (vars w)) "") as [Hc|Hc].
    + right. left. unfold exec.
      rewrite handleRouteChange_first by assumption. reflexivity.
    + right. right. apply handleRouteChange_closes_first; assumption.
Qed.

Lemma session_ok_handleRouteChange (w : World) :
  session_ok w -> session_ok (exec handleRouteChange w).
Proof.
  intros Hw. destruct (handleRouteChange_cases w) as [E | [E | E]]; rewrite E.
  - exact Hw.
  - apply session_ok_enter, Hw.
  - apply session_ok_enter, session_ok_trackEngagement, Hw.
Qed.

Lemma session_ok_with_host (h : Host) (w : World) :
  session_ok w -> session_ok (with_host h w).
Proof. intros Hw. apply (session_ok_same w); [exact Hw| |]; reflexivity. Qed.

Lemma session_ok_step (i : Input) (w : World) :
  session_ok w -> session_ok (exec (step i) w).
Proof.
  intros Hw. destruct i; cbn [step].
  - apply session_ok_with_host, Hw.
  - apply (session_ok_handleRouteChange (with_host (set_location l (host w)) w)),
      session_ok_with_host, Hw.
  - apply (session_ok_handleRouteChange (with_host (set_location l (host w)) w)),
      session_ok_with_host, Hw.
  - apply session_ok_handleRouteChange, Hw.
  - apply session_ok_handleRouteChange, Hw.
  - apply session_ok_handleRouteChange, Hw.
  - apply session_ok_trackEngagement, Hw.
  - apply session_ok_trackEngagement, Hw.
  - destruct persisted; [apply session_ok_handleRouteChange, Hw|exact Hw].
  - apply session_ok_quiet; [apply quiet_handleVisibilityChange|exact Hw].
  - apply session_ok_quiet; [apply quiet_startEngagement|exact Hw].
  - apply session_ok_quiet; [apply quiet_pauseEngagement|exact Hw].
  - apply session_ok_quiet; [apply quiet_onScroll|exact Hw].
  - apply session_ok_quiet; [apply quiet_runAnimationFrame|exact Hw].
  - destruct (onLoad_effect w) as (H1 & _ & _ & H4).
    apply (session_ok_same w); assumption.
  - unfold exec, runInterval.
    destruct (nth_error (timers w) k) as [t|]; [|exact Hw].
    destruct (cleared t); [exact Hw|].
    destruct (onInterval_effect k (attempts t) w) as (H1 & _ & _ & H4).
    apply (session_ok_polled k w); assumption.
Qed.

Lemma session_ok_steps (l : list Input) : forall w : World,
  session_ok w -> session_ok (exec (steps l) w).
Proof.
  induction l as [|i l IH]; intros w Hw; [exact Hw|].
  cbn [steps]. rewrite exec_bind. apply IH, session_ok_step, Hw.
Qed.

Lemma session_ok_run (c : Config) (h : Host) (clk : nat -> Z) (l : list Input) :
  session_ok (run c h clk l).
Proof.
  unfold run. rewrite exec_bind. apply session_ok_steps.
  unfold init. rewrite exec_bind.
  assert (H0 : session_ok (boot c h clk)).
  { split; cbn; auto. }
  apply session_ok_handleRouteChange in H0.
  rewrite exec_bind. cbv [env eval exec fst snd].
  destruct (String.eqb _ _); [|exact H0].
  apply (session_ok_quiet startEngagement); [apply quiet_startEngagement|exact H0].
Qed.

Lemma count_requests_le (name : string) (d : Data.t Obj) (w : World) c' fs :
  send_outcome d w c' fs ->
  (count (requests name) fs <= 1)%nat /\ count (emits name) fs = 0%nat.
Proof.
  intros [(_ & -> & _) | (_ & b & -> & _)]; unfold count; cbn.
  - split; lia.
  - destruct (String.eqb _ _); cbn; split; lia.
Qed.

(** One call of [trackEngagement]: what it adds to the trace, and that a
    report made sets [engagementSent]. *)
Lemma trackEngagement_once (w : World) :
  exists delta,
    trace (exec trackEngagement w) = trace w ++ delta /\
    (count (emits "engagement") delta <= 1)%nat /\
    (count (requests "engagement") delta <= 1)%nat /\
    (delta = [] \/ engagementSent (vars (exec trackEngagement w)) = true).
Proof.
  destruct (pageviewSent (vars w)) eqn:Hpv;
    [destruct (engagementSent (vars w)) eqn:Hes|].
  2: destruct (is_noise w) eqn:Hn.
  - exists []. unfold exec. rewrite trackEngagement_skips by auto.
    rewrite app_nil_r. cbn. auto.
  - exists []. unfold exec at 1. rewrite trackEngagement_noise by auto.
    destruct (quiet_getEngagementTime w) as (Hl & _).
    cbn [snd]. unfold trace. rewrite Hl, app_nil_r. cbn. auto.
  - destruct (trackEngagement_effect w Hpv Hes Hn) as (c' & fs & E & HO).
    destruct (send_outcome_requests _ _ _ _ HO) as (_ & Hr & _).
    destruct (count_requests_le "engagement" _ _ _ _ HO) as (Hc & Hc').
    exists (Tracked (eventOf "engagement" (engagementProps w) w) :: fs).
    unfold exec. rewrite E. split; [|split; [|split]].
    + unfold trace. open_world w. cbn [snd log with_log].
      rewrite rev_app_distr, Hr. cbn. rewrite <- app_assoc. reflexivity.
    + change (Tracked (eventOf "engagement" (engagementProps w) w) :: fs)
        with ([Tracked (eventOf "engagement" (engagementProps w) w)] ++ fs).
      rewrite count_app, Hc'. cbn. lia.
    + change (Tracked (eventOf "engagement" (engagementProps w) w) :: fs)
        with ([Tracked (eventOf "engagement" (engagementProps w) w)] ++ fs).
      rewrite count_app. unfold count at 1. cbn. exact Hc.
    + right. open_world w. reflexivity.
  - exists []. unfold exec. rewrite trackEngagement_skips by auto.
    rewrite app_nil_r. cbn. auto.
Qed.

(* ------------------------------------------------------------------ *)
(** ** The height polling after 'load' *)
(* ------------------------------------------------------------------ *)

Lemma nth_error_update_same {A} (f : A -> A) (l : list A) : forall k x,
  nth_error l k = Some x -> nth_error (update k f l) k = Some (f x).
Proof.
  induction l as [|y l IH]; intros [|k] x H; try discriminate; cbn in *.
  - congruence.
  - apply IH, H.
Qed.

Lemma nth_error_update_other {A} (f : A -> A) (l : list A) : forall j k,
  j <> k -> nth_error (update j f l) k = nth_error l k.
Proof.
  induction l as [|y l IH]; intros [|j] [|k] H; cbn; try reflexivity.
  - contradiction.
  - apply IH. congruence.
Qed.

Lemma quiet_no_polling {A} (m : M A) : quiet m -> no_polling m.
Proof.
  intros Hq w. destruct (Hq w) as (Hl & Ht & _).
  split; [exact Ht|]. intros k. rewrite Hl. reflexivity.
Qed.

Lemma polls_event (k : nat) (d : Data.t Obj) (w : World) c' fs (l : list Action) :
  send_outcome d w c' fs -> polls k (fs ++ Tracked d :: l) = polls k l.
Proof.
  intros [(_ & -> & _) | (_ & b & -> & _)]; reflexivity.
Qed.

Lemma no_polling_trackEngagement : no_polling trackEngagement.
Proof.
  intros w.
  destruct (pageviewSent (vars w)) eqn:Hpv;
    [destruct (engagementSent (vars w)) eqn:Hes|].
  2: destruct (is_noise w) eqn:Hn.
  - unfold exec. rewrite trackEngagement_skips by auto. auto.
  - unfold exec at 1 2. rewrite trackEngagement_noise by auto.
    apply (quiet_no_polling getEngagementTime quiet_getEngagementTime).
  - destruct (trackEngagement_effect w Hpv Hes Hn) as (c' & fs & E & HO).
    unfold exec. rewrite E. split; [open_world w; reflexivity|].
    intros k. rewrite <- (polls_event k _ _ _ _ (log w) HO).
    open_world w. reflexivity.
  - unfold exec. rewrite trackEngagement_skips by auto. auto.
Qed.

Lemma no_polling_enter (path : string) : no_polling (enter path).
Proof.
  intros w. destruct (enter_effect path w) as (c' & fs & E & HO).
  unfold exec. rewrite E. split; [open_world w; reflexivity|].
  intros k.
  change (polls k (log w)) with (polls k (PathSet path :: log w)).
  rewrite <- (polls_event k _ _ _ _ (PathSet path :: log w) HO).
  open_world w. reflexivity.
Qed.

Lemma no_polling_handleRouteChange : no_polling handleRouteChange.
Proof.
  intros w. destruct (handleRouteChange_cases w) as [E | [E | E]]; rewrite E.
  - auto.
  - apply no_polling_enter.
  - destruct (no_polling_trackEngagement w) as [T1 P1].
    destruct (no_polling_enter (pathname (location (host w)))
                (exec trackEngagement w)) as [T2 P2].
    split; [congruence|]. intros k. rewrite P2. apply P1.
Qed.

Lemma no_polling_with_host (h : Host) (w : World) :
  timers (with_host h w) = timers w /\
  forall k, polls k (log (with_host h w)) = polls k (log w).
Proof. split; reflexivity. Qed.

(** Every input other than 'load' and a due timer leaves timers and
    their runs as they are. *)
Lemma step_no_polling (i : Input) (w : World) :
  i <> Load -> (forall k, i <> Interval k) ->
  timers (exec (step i) w) = timers w /\
  forall k, polls k (log (exec (step i) w)) = polls k (log w).
Proof.
  intros HL HI. destruct i; cbn [step].
  - apply no_polling_with_host.
  - apply (no_polling_handleRouteChange (with_host (set_location l (host w)) w)).
  - apply (no_polling_handleRouteChange (with_host (set_location l (host w)) w)).
  - apply no_polling_handleRouteChange.
  - apply no_polling_handleRouteChange.
  - apply no_polling_handleRouteChange.
  - apply no_polling_trackEngagement.
  - apply no_polling_trackEngagement.
  - destruct persisted; [apply no_polling_handleRouteChange|auto].
  - apply quiet_no_polling, quiet_handleVisibilityChange.
  - apply quiet_no_polling, quiet_startEngagement.
  - apply quiet_no_polling, quiet_pauseEngagement.
  - apply quiet_no_polling, quiet_onScroll.
  - apply quiet_no_polling, quiet_runAnimationFrame.
  - contradiction.
  - exfalso. apply (HI k). reflexivity.
Qed.

Lemma timer_ok_same (k : nat) (w w' : World) :
  timers w' = timers w -> polls k (log w') = polls k (log w) ->
  timer_ok k w -> timer_ok k w'.
Proof. unfold timer_ok. intros -> ->. exact (fun H => H). Qed.

Lemma timer_ok_onLoad (w : World) :
  (forall k, timer_ok k w) -> forall k, timer_ok k (exec onLoad w).
Proof.
  intros Hw k. specialize (Hw k).
  destruct (onLoad_effect w) as (Hl & Ht & _).
  unfold timer_ok in *. rewrite Hl, Ht.
  destruct (Nat.lt_ge_cases k (List.length (timers w))) as [Hk|Hk].
  - rewrite nth_error_app1 by exact Hk. exact Hw.
  - rewrite nth_error_app2 by exact Hk.
    rewrite (proj2 (nth_error_None (timers w) k) Hk) in Hw.
    rewrite Hw.
    destruct (k - List.length (timers w))%nat as [|[|n]]; cbn.
    + split; [reflexivity|split; [reflexivity|lia]].
    + reflexivity.
    + reflexivity.
Qed.

Lemma polls_cons_same (k : nat) (l : list Action) :
  polls k (Polled k :: l) = S (polls k l).
Proof. unfold polls, count. cbn. rewrite Nat.eqb_refl. reflexivity. Qed.

Lemma polls_cons_other (j k : nat) (l : list Action) :
  j <> k -> polls k (Polled j :: l) = polls k l.
Proof.
  intros H. apply Nat.eqb_neq in H. unfold polls, count. cbn. rewrite H.
  reflexivity.
Qed.

Lemma timer_ok_runInterval (j : nat) (w : World) :
  (forall k, timer_ok k w) -> forall k, timer_ok k (exec (runInterval j) w).
Proof.
  intros Hw k. unfold exec, runInterval.
  destruct (nth_error (timers w) j) as [t|] eqn:Hj; [|apply Hw].
  destruct (cleared t) eqn:Hc; [apply Hw|].
  destruct (onInterval_effect j (attempts t) w) as (Hl & Ht & _).
  fold (exec (onInterval j (attempts t)) w).
  unfold timer_ok. rewrite Hl, Ht.
  destruct (Nat.eq_dec j k) as [<-|Hjk].
  - pose proof (Hw j) as Hj'. unfold timer_ok in Hj'. rewrite Hj, Hc in Hj'.
    destruct Hj' as (Hd & Ha & Hp). rewrite polls_cons_same.
    destruct (Z.leb_spec (attempts t - 1) 0) as [Hle|Hgt].
    + rewrite (nth_error_update_same _ _ j (set_attempts (attempts t - 1) t))
        by (apply nth_error_update_same, Hj).
      cbn [delay cleared attempts set_attempts set_cleared].
      split; [exact Hd|lia].
    + rewrite (nth_error_update_same _ _ j t) by exact Hj.
      cbn [delay cleared attempts set_attempts set_cleared].
      rewrite Hc. split; [exact Hd|]. split; lia.
  - rewrite polls_cons_other by exact Hjk.
    destruct (attempts t - 1 <=? 0);
      rewrite ?nth_error_update_other by exact Hjk; apply Hw.
Qed.

Lemma timer_ok_step (i : Input) (w : World) :
  (forall k, timer_ok k w) -> forall k, timer_ok k (exec (step i) w).
Proof.
  intros Hw k.
  assert (Hn : i <> Load -> (forall j, i <> Interval j) ->
               timer_ok k (exec (step i) w)).
  { intros HL HI. destruct (step_no_polling i w HL HI) as [Ht Hp].
    apply (timer_ok_same k w); [exact Ht|apply Hp|apply Hw]. }
  destruct i; try (apply Hn; [discriminate|intros j; discriminate]).
  - apply timer_ok_onLoad, Hw.
  - apply timer_ok_runInterval, Hw.
Qed.

Lemma timer_ok_steps (l : list Input) : forall w : World,
  (forall k, timer_ok k w) -> forall k, timer_ok k (exec (steps l) w).
Proof.
  induction l as [|i l IH]; intros w Hw; [exact Hw|].
  cbn [steps]. rewrite exec_bind. apply IH, timer_ok_step, Hw.
Qed.

Lemma timer_ok_run (c : Config) (h : Host) (clk : nat -> Z) (l : list Input) :
  forall k, timer_ok k (run c h clk l).
Proof.
  unfold run. rewrite exec_bind. apply timer_ok_steps.
  assert (H0 : forall k, timer_ok k (boot c h clk)).
  { intros k. unfold timer_ok. cbn. destruct k; reflexivity. }
  intros k. unfold init. rewrite exec_bind.
  destruct (no_polling_handleRouteChange (boot c h clk)) as [T1 P1].
  rewrite exec_bind. cbv [env eval exec fst snd].
  assert (H1 : timer_ok k (snd (handleRouteChange (boot c h clk)))).
  { apply (timer_ok_same k (boot c h clk)); [exact T1|apply P1|apply H0]. }
  destruct (String.eqb _ _); [|exact H1].
  destruct (quiet_no_polling _ quiet_startEngagement
              (snd (handleRouteChange (boot c h clk)))) as [T2 P2].
  eapply timer_ok_same; [exact T2|apply P2|exact H1].
Qed.

(** Runs only accumulate and timers are never removed. *)
Lemma step_grows (i : Input) (w : World) (k : nat) :
  (polls k (log w) <= polls k (log (exec (step i) w)))%nat /\
  (nth_error (timers w) k <> None ->
   nth_error (timers (exec (step i) w)) k <> None).
Proof.
  assert (Hn : i <> Load -> (forall j, i <> Interval j) ->
    (polls k (log w) <= polls k (log (exec (step i) w)))%nat /\
    (nth_error (timers w) k <> None ->
     nth_error (timers (exec (step i) w)) k <> None)).
  { intros HL HI. destruct (step_no_polling i w HL HI) as [Ht Hp].
    rewrite Ht, Hp. auto. }
  destruct i as [| | | | | | | | | | | | | | |j];
    try (apply Hn; [discriminate|intros j'; discriminate]).
  - cbn [step]. destruct (onLoad_effect w) as (Hl & Ht & _).
    rewrite Hl, Ht. split; [lia|]. intros H.
    apply nth_error_Some. rewrite length_app. apply nth_error_Some in H. lia.
  - cbn [step]. unfold exec, runInterval.
    destruct (nth_error (timers w) j) as [t|] eqn:Hj; [|auto].
    destruct (cleared t); [auto|].
    destruct (onInterval_effect j (attempts t) w) as (Hl & Ht & _).
    fold (exec (onInterval j (attempts t)) w). rewrite Hl, Ht. split.
    + unfold polls, count. cbn. destruct (Nat.eqb j k); cbn; lia.
    + intros H. destruct (Nat.eq_dec j k) as [<-|Hjk].
      * destruct (attempts t - 1 <=? 0).
        -- erewrite nth_error_update_same; [discriminate|].
           apply nth_error_update_same, Hj.
        -- erewrite nth_error_update_same; [discriminate|exact Hj].
      * destruct (attempts t - 1 <=? 0);
          rewrite ?nth_error_update_other by exact Hjk; exact H.
Qed.

Lemma steps_grow (l : list Input) : forall (w : World) (k : nat),
  (polls k (log w) <= polls k (log (exec (steps l) w)))%nat /\
  (nth_error (timers w) k <> None ->
   nth_error (timers (exec (steps l) w)) k <> None).
Proof.
  induction l as [|i l IH]; intros w k; [auto|].
  cbn [steps]. rewrite exec_bind. cbv beta.
  destruct (step_grows i w k) as [P1 T1].
  destruct (IH (exec (step i) w) k) as [P2 T2].
  split; [lia|auto].
Qed.

Lemma steps_app (l l' : list Input) : forall w : World,
  exec (steps (l ++ l')) w = exec (steps l') (exec (steps l) w).
Proof.
  induction l as [|i l IH]; intros w; [reflexivity|].
  cbn [app steps]. rewrite !exec_bind. apply IH.
Qed.

Lemma run_app (c : Config) (h : Host) (clk : nat -> Z) (l l' : list Input) :
  run c h clk (l ++ l') = exec (steps l') (run c h clk l).
Proof. unfold run. rewrite !exec_bind. apply steps_app. Qed.

Lemma length_update {A} (f : A -> A) (l : list A) : forall k,
  List.length (update k f l) = List.length l.
Proof.
  induction l as [|x l IH]; intros [|k]; cbn; try reflexivity.
  rewrite IH. reflexivity.
Qed.

(** One timer per 'load'. *)
Lemma timers_count_steps (l : list Input) : forall w : World,
  List.length (timers (exec (steps l) w)) =
    (List.length (timers w) + List.length (filter is_load l))%nat.
Proof.
  induction l as [|i l IH]; intros w; [cbn; lia|].
  cbn [steps]. rewrite exec_bind, IH. cbv beta.
  assert (Hn : i <> Load -> (forall j, i <> Interval j) ->
               timers (exec (step i) w) = timers w)
    by (intros HL HI; apply step_no_polling; assumption).
  destruct i as [| | | | | | | | | | | | | | |j];
    try (rewrite Hn by (try discriminate; intros j'; discriminate);
         cbn; reflexivity).
  - cbn [step]. destruct (onLoad_effect w) as (_ & Ht & _).
    rewrite Ht, length_app. cbn. lia.
  - cbn [step filter is_load]. unfold exec, runInterval.
    destruct (nth_error (timers w) j) as [t|]; [|reflexivity].
    destruct (cleared t); [reflexivity|].
    destruct (onInterval_effect j (attempts t) w) as (_ & Ht & _).
    fold (exec (onInterval j (attempts t)) w). rewrite Ht.
    destruct (attempts t - 1 <=? 0); rewrite !length_update; reflexivity.
Qed.

Lemma no_polling_bind {A B} (m : M A) (k : A -> M B) :
  no_polling m -> (forall a, no_polling (k a)) -> no_polling (bind m k).
Proof.
  intros Hm Hk w. rewrite exec_bind.
  destruct (Hm w) as [T1 P1].
  destruct (Hk (eval m w) (exec m w)) as [T2 P2].
  split; [congruence|]. intros j. rewrite P2. apply P1.
Qed.

Lemma no_polling_init : no_polling init.
Proof.
  unfold init. apply no_polling_bind; [apply no_polling_handleRouteChange|].
  intros _. apply no_polling_bind; [intros w; split; reflexivity|].
  intros v. destruct (String.eqb v "visible").
  - apply quiet_no_polling, quiet_startEngagement.
  - intros w. split; reflexivity.
Qed.

Lemma timers_count_run (c : Config) (h : Host) (clk : nat -> Z) (l : list Input) :
  List.length (timers (run c h clk l)) = List.length (filter is_load l).
Proof.
  unfold run. rewrite exec_bind, timers_count_steps. cbv beta.
  destruct (no_polling_init (boot c h clk)) as [T _]. rewrite T. reflexivity.
Qed.

(* ------------------------------------------------------------------ *)
(** ** The trackers stay well formed *)
(* ------------------------------------------------------------------ *)

Lemma depth_nonneg (h : Host) (dh : Z) :
  sane h -> 0 <= dh ->
  (0 <= Qmin (Double.add (scrollY h) (inject_Z (innerHeight h))) (inject_Z dh))%Q.
Proof.
  intros (_ & _ & Hs) Hd. apply Q.min_glb; [apply nearest_nonneg, Hs|].
  change 0%Q with (inject_Z 0). rewrite <- Zle_Qle. exact Hd.
Qed.

Lemma height_nonneg (h : Host) :
  sane h -> 0 <= Z.max (body_scrollHeight h) (documentElement_scrollHeight h).
Proof. intros (Hb & _ & _). lia. Qed.

Lemma keeps_bind (P : World -> Prop) {A B} (m : M A) (k : A -> M B) :
  keeps P m -> (forall a, keeps P (k a)) -> keeps P (bind m k).
Proof. intros Hm Hk w Hw. rewrite exec_bind. apply Hk, Hm, Hw. Qed.

Lemma keeps_trackers_bind {A B} (m : M A) (k : A -> M B) :
  keeps_trackers m -> (forall a, keeps_trackers (k a)) ->
  keeps_trackers (bind m k).
Proof.
  intros [H1 H2] Hk. split; apply keeps_bind; try assumption;
    intros a; apply (Hk a).
Qed.

Lemma keeps_trackers_ret {A} (a : A) : keeps_trackers (ret a).
Proof. split; intros w Hw; exact Hw. Qed.

Lemma keeps_trackers_env {A} (f : Host -> A) : keeps_trackers (env f).
Proof. split; intros w Hw; exact Hw. Qed.

Ltac trackers :=
  unfold keeps_trackers, keeps, scroll_ok, scroll_state_ok,
    active_implies_start_set.

Lemma keeps_trackers_startEngagement : keeps_trackers startEngagement.
Proof.
  trackers. split; intros w; open_world w; accumulator; destruct act; cbn;
    auto; discriminate.
Qed.

Lemma keeps_trackers_pauseEngagement : keeps_trackers pauseEngagement.
Proof.
  trackers. split; intros w; open_world w; accumulator; destruct act; cbn;
    auto; discriminate.
Qed.

Lemma keeps_trackers_getEngagementTime : keeps_trackers getEngagementTime.
Proof.
  trackers. split; intros w; open_world w; accumulator; destruct act; cbn;
    auto.
Qed.

Lemma keeps_trackers_handleVisibilityChange :
  keeps_trackers handleVisibilityChange.
Proof.
  unfold handleVisibilityChange.
  apply keeps_trackers_bind; [apply keeps_trackers_env|].
  intros v. destruct (String.eqb v "visible");
    [apply keeps_trackers_startEngagement|apply keeps_trackers_pauseEngagement].
Qed.

Lemma keeps_trackers_onScroll : keeps_trackers onScroll.
Proof.
  trackers. split; intros w; open_world w;
    unfold onScroll, requestAnimationFrame; js;
    destruct tick; exact (fun H => H).
Qed.

Lemma keeps_trackers_onAnimationFrame : keeps_trackers onAnimationFrame.
Proof.
  trackers. split; intros w; open_world w;
    unfold onAnimationFrame, getCurrentScrollDepth; js.
  - intros (H1 & H2 & H2').
    destruct (Qle_bool _ _); repeat split; try apply H1; auto.
    apply depth_nonneg; assumption.
  - destruct (Qle_bool _ _); exact (fun H => H).
Qed.

Lemma keeps_trackers_times (k : nat) (m : M unit) :
  keeps_trackers m -> keeps_trackers (times k m).
Proof.
  intros Hm. induction k as [|k IH]; [apply keeps_trackers_ret|].
  cbn [times]. apply keeps_trackers_bind; [exact Hm|intros _; exact IH].
Qed.

Lemma keeps_trackers_runAnimationFrame : keeps_trackers runAnimationFrame.
Proof.
  split; intros w Hw; unfold runAnimationFrame, exec;
    apply (keeps_trackers_times (rafQueue w) onAnimationFrame
             keeps_trackers_onAnimationFrame);
    open_world w; exact Hw.
Qed.

Lemma keeps_trackers_onLoad : keeps_trackers onLoad.
Proof.
  trackers. split; intros w; open_world w;
    unfold onLoad, getDocumentHeight, setInterval; js.
  - intros (H1 & H2 & H2'). repeat split; try apply H1; auto.
    apply height_nonneg, H1.
  - exact (fun H => H).
Qed.

Lemma keeps_trackers_onInterval (k : nat) (a : Z) :
  keeps_trackers (onInterval k a).
Proof.
  trackers. split; intros w; open_world w;
    unfold onInterval, getDocumentHeight, clearInterval; js.
  - intros (H1 & H2 & H2').
    destruct (a - 1 <=? 0); repeat split; try apply H1; auto;
      apply height_nonneg, H1.
  - destruct (a - 1 <=? 0); exact (fun H => H).
Qed.

Lemma keeps_trackers_runInterval (k : nat) : keeps_trackers (runInterval k).
Proof.
  split; intros w Hw; unfold exec, runInterval;
    (destruct (nth_error (timers w) k) as [t|]; [|exact Hw]);
    (destruct (cleared t); [exact Hw|]);
    apply keeps_trackers_onInterval, Hw.
Qed.

Lemma keeps_trackers_trackEngagement : keeps_trackers trackEngagement.
Proof.
  split; intros w Hw.
  all: destruct (pageviewSent (vars w)) eqn:Hpv;
    [destruct (engagementSent (vars w)) eqn:Hes;
     [|destruct (is_noise w) eqn:Hn]|].
  all: try (unfold exec; rewrite trackEngagement_skips by auto; exact Hw).
  all: try (unfold exec at 1; rewrite trackEngagement_noise by auto;
            apply keeps_trackers_getEngagementTime, Hw).
  all: destruct (trackEngagement_effect w Hpv Hes Hn) as (c' & fs & E & _);
    unfold exec; rewrite E; revert Hw; trackers; open_world w; cbn.
  - exact (fun H => H).
  - discriminate.
Qed.

Lemma keeps_trackers_enter (path : string) : keeps_trackers (enter path).
Proof.
  split; intros w Hw; destruct (enter_effect path w) as (c' & fs & E & _);
    unfold exec; rewrite E; revert Hw; trackers; open_world w;
    cbn [snd with_log with_reads with_vars vars host opened
         maxScrollDepth documentHeight engagementTimerActive
         engagementStart set_currentPath].
  - intros (H1 & H2 & H3). repeat split; try apply H1.
    + apply depth_nonneg; [exact H1|apply height_nonneg, H1].
    + apply height_nonneg, H1.
  - discriminate.
Qed.

Lemma keeps_trackers_handleRouteChange : keeps_trackers handleRouteChange.
Proof.
  split; intros w Hw;
    destruct (handleRouteChange_cases w) as [E | [E | E]]; rewrite E;
    try exact Hw;
    repeat first [apply keeps_trackers_enter
                 |apply keeps_trackers_trackEngagement]; exact Hw.
Qed.


Lemma start_set_step (i : Input) (w : World) :
  active_implies_start_set w -> active_implies_start_set (exec (step i) w).
Proof.
  intros Hw. destruct i; cbn [step].
  - open_world w. exact Hw.
  - apply (proj2 keeps_trackers_handleRouteChange
             (with_host (set_location l (host w)) w)).
    open_world w. exact Hw.
  - apply (proj2 keeps_trackers_handleRouteChange
             (with_host (set_location l (host w)) w)).
    open_world w. exact Hw.
  - apply keeps_trackers_handleRouteChange, Hw.
  - apply keeps_trackers_handleRouteChange, Hw.
  - apply keeps_trackers_handleRouteChange, Hw.
  - apply keeps_trackers_trackEngagement, Hw.
  - apply keeps_trackers_trackEngagement, Hw.
  - destruct persisted; [apply keeps_trackers_handleRouteChange, Hw|exact Hw].
  - apply keeps_trackers_handleVisibilityChange, Hw.
  - apply keeps_trackers_startEngagement, Hw.
  - apply keeps_trackers_pauseEngagement, Hw.
  - apply keeps_trackers_onScroll, Hw.
  - apply keeps_trackers_runAnimationFrame, Hw.
  - apply keeps_trackers_onLoad, Hw.
  - apply keeps_trackers_runInterval, Hw.
Qed.

Lemma keeps_trackers_init : keeps_trackers init.
Proof.
  unfold init.
  apply keeps_trackers_bind; [apply keeps_trackers_handleRouteChange|].
  intros _. apply keeps_trackers_bind; [apply keeps_trackers_env|].
  intros v. destruct (String.eqb v "visible");
    [apply keeps_trackers_startEngagement|apply keeps_trackers_ret].
Qed.


(** A running timer has its start time, whatever happens to the page. *)
Lemma start_set_run (c : Config) (h : Host) (clk : nat -> Z) (l : list Input) :
  active_implies_start_set (run c h clk l).
Proof.
  unfold run. rewrite exec_bind. cbv beta.
  assert (H0 : active_implies_start_set (exec init (boot c h clk))).
  { apply keeps_trackers_init. intros H. discriminate H. }
  revert H0. generalize (exec init (boot c h clk)).
  induction l as [|i l IH]; intros w Hw; [apply Hw|].
  cbn [steps]. rewrite exec_bind. apply IH, start_set_step, Hw.
Qed.

(* ------------------------------------------------------------------ *)
(** ** Lemmas for the further properties *)
(* ------------------------------------------------------------------ *)

(** *** The custom properties *)

Lemma startsWith_slice (p : string) : forall s : string,
  startsWith s p = true -> s = (p ++ slice (String.length p) s)%string.
Proof.
  induction p as [|a p IH]; intros s H; [reflexivity|].
  destruct s as [|b s]; [discriminate|]. cbn [startsWith] in H.
  apply andb_prop in H. destruct H as [Hab H]. apply Ascii.eqb_eq in Hab. subst b.
  cbn [String.length slice append]. rewrite <- (IH s H). reflexivity.
Qed.

Lemma startsWith_append (p k : string) : startsWith (p ++ k) p = true.
Proof.
  induction p as [|a p IH]; [reflexivity|]. cbn [append startsWith].
  rewrite Ascii.eqb_refl. exact IH.
Qed.

Lemma has_key_keys (k : string) (o : Obj) :
  has_key k o = true <-> In k (map fst o).
Proof.
  unfold has_key. rewrite existsb_exists. split.
  - intros ([k0 x] & Hin & E). apply String.eqb_eq in E. cbn in E. subst k0.
    apply (in_map fst) in Hin. exact Hin.
  - intros Hin. apply in_map_iff in Hin. destruct Hin as ([k0 x] & E & Hin).
    cbn in E. subst k0. exists (k, x). split; [exact Hin|apply String.eqb_refl].
Qed.

Lemma lookup_replace_value (key k : string) (v : JsVal) (o : Obj) :
  has_key k o = true ->
  lookup key (replace_value k v o) =
    if String.eqb k key then Some v else lookup key o.
Proof.
  unfold has_key.
  induction o as [|[k0 x] o IH]; cbn [replace_value lookup existsb fst];
    [discriminate|].
  destruct (String.eqb_spec k0 k) as [-> | N]; cbn [lookup orb].
  - intros _. destruct (String.eqb k key); reflexivity.
  - intros H. rewrite (IH H).
    destruct (String.eqb_spec k0 key) as [-> | N']; [|reflexivity].
    destruct (String.eqb_spec k key) as [-> | _]; [contradiction|reflexivity].
Qed.

Lemma keys_replace_value (k : string) (v : JsVal) (o : Obj) :
  map fst (replace_value k v o) = map fst o.
Proof.
  induction o as [|[k0 x] o IH]; cbn [replace_value map fst]; [reflexivity|].
  destruct (String.eqb k0 k); cbn [map fst]; [reflexivity|].
  rewrite IH. reflexivity.
Qed.

Lemma lookup_middle (key k : string) (v : JsVal) (l1 l2 : Obj) :
  has_key k (l1 ++ l2) = false ->
  lookup key (l1 ++ (k, v) :: l2) =
    if String.eqb k key then Some v else lookup key (l1 ++ l2).
Proof.
  unfold has_key.
  induction l1 as [|[k0 x] l1 IH]; cbn [app lookup existsb fst]; intros H.
  - reflexivity.
  - apply orb_false_iff in H. destruct H as [N H]. rewrite (IH H).
    destruct (String.eqb_spec k0 key) as [-> | _]; [|reflexivity].
    rewrite String.eqb_sym, N. reflexivity.
Qed.

Lemma add_key_perm (k : string) (v : JsVal) (o : Obj) :
  Permutation ((k, v) :: o) (add_key k v o).
Proof.
  unfold add_key.
  set (p := match array_index k with Some i => place i o | None => List.length o end).
  rewrite <- (firstn_skipn p o) at 1. apply Permutation_middle.
Qed.

Lemma lookup_set_key (key k : string) (v : JsVal) (o : Obj) :
  lookup key (set_key k v o) =
    if String.eqb k key then Some v else lookup key o.
Proof.
  unfold set_key. destruct (has_key k o) eqn:H.
  - apply lookup_replace_value, H.
  - unfold add_key.
    set (p := match array_index k with Some i => place i o | None => List.length o end).
    rewrite lookup_middle; rewrite (firstn_skipn p o); [reflexivity|exact H].
Qed.

Lemma keys_set_key (k : string) (v : JsVal) (o : Obj) (x : string) :
  In x (map fst (set_key k v o)) <-> x = k \/ In x (map fst o).
Proof.
  unfold set_key. destruct (has_key k o) eqn:H.
  - rewrite keys_replace_value. apply has_key_keys in H. split; [auto|].
    intros [-> | Hin]; assumption.
  - pose proof (Permutation_map fst (add_key_perm k v o)) as P. cbn [map fst] in P.
    split.
    + intros Hin. apply (Permutation_in _ (Permutation_sym P)) in Hin.
      destruct Hin as [<- | Hin]; auto.
    + intros Hin. apply (Permutation_in _ P). destruct Hin as [-> | Hin];
        [left; reflexivity|right; exact Hin].
Qed.

Lemma NoDup_set_key (k : string) (v : JsVal) (o : Obj) :
  NoDup (map fst o) -> NoDup (map fst (set_key k v o)).
Proof.
  intros Hd. unfold set_key. destruct (has_key k o) eqn:H.
  - rewrite keys_replace_value. exact Hd.
  - pose proof (Permutation_map fst (add_key_perm k v o)) as P. cbn [map fst] in P.
    apply (Permutation_NoDup P). constructor; [|exact Hd].
    intros Hin. apply has_key_keys in Hin. congruence.
Qed.

Lemma NoDup_collectProps (attrs : list Attr) : forall props : Obj,
  NoDup (map fst props) -> NoDup (map fst (collectProps attrs props)).
Proof.
  induction attrs as [|a attrs IH]; intros props H; cbn [collectProps]; [exact H|].
  destruct (startsWith (attr_name a) "data-usd-"); [|apply IH, H].
  apply IH. unfold put. destruct (String.eqb _ "__proto__"); [exact H|].
  apply NoDup_set_key, H.
Qed.

Lemma lookup_put (key k : string) (v : JsVal) (props : Obj) :
  lookup key (put k v props) =
    if String.eqb k key && negb (String.eqb key "__proto__") then Some v
    else lookup key props.
Proof.
  unfold put. destruct (String.eqb_spec k "__proto__") as [-> | N].
  - destruct (String.eqb_spec "__proto__" key) as [<- | _]; reflexivity.
  - rewrite lookup_set_key. destruct (String.eqb_spec k key) as [<- | _];
      [|reflexivity].
    destruct (String.eqb_spec k "__proto__"); [contradiction|reflexivity].
Qed.

Lemma lookup_collectProps (key : string) (attrs : list Attr) :
  forall props : Obj,
    lookup key (collectProps attrs props) =
      match customProp key attrs with
      | Some v => Some v
      | None => lookup key props
      end.
Proof.
  unfold customProp.
  induction attrs as [|a attrs IH]; intros props; cbn [collectProps last_value].
  - destruct (String.eqb key "__proto__"); reflexivity.
  - destruct (startsWith (attr_name a) "data-usd-") eqn:Hp.
    + rewrite IH, lookup_put.
      destruct (String.eqb key "__proto__") eqn:Hk;
        [rewrite andb_false_r; reflexivity|].
      destruct (last_value ("data-usd-" ++ key) attrs); [reflexivity|].
      cbn [option_map negb]. rewrite andb_true_r.
      pose proof (startsWith_slice _ _ Hp) as E. cbn [String.length] in E.
      destruct (String.eqb_spec (slice 9 (attr_name a)) key) as [<- | N].
      * rewrite <- E, String.eqb_refl. reflexivity.
      * destruct (String.eqb_spec (attr_name a) ("data-usd-" ++ key)) as [E' | _];
          [|reflexivity].
        exfalso. apply N. rewrite E'. reflexivity.
    + rewrite IH. destruct (String.eqb key "__proto__"); [reflexivity|].
      destruct (last_value ("data-usd-" ++ key) attrs); [reflexivity|].
      destruct (String.eqb_spec (attr_name a) ("data-usd-" ++ key)) as [E | _];
        [|reflexivity].
      rewrite E, startsWith_append in Hp. discriminate.
Qed.

(** The attributes of a tag: the source, a setting, and custom
    properties of which one is called [__proto__] and two are array
    indices, which the object lists first. *)
Example custom_props_of_a_tag :
  getCustomProps
    (Some [ {| attr_name := "src"; attr_value := "https://stats.example/counter.js" |};
            {| attr_name := "data-id"; attr_value := "7" |};
            {| attr_name := "data-usd-plan"; attr_value := "pro" |};
            {| attr_name := "data-usd-__proto__"; attr_value := "x" |};
            {| attr_name := "data-usd-10"; attr_value := "ten" |};
            {| attr_name := "data-usd-"; attr_value := "none" |};
            {| attr_name := "data-usd-2"; attr_value := "two" |};
            {| attr_name := "data-usd-02"; attr_value := "zero two" |};
            {| attr_name := "data-usdx"; attr_value := "no" |} ]) =
    Some [("2"%string, JStr "two"); ("10"%string, JStr "ten");
          ("plan"%string, JStr "pro"); (""%string, JStr "none");
          ("02"%string, JStr "zero two")] /\
  getCustomProps
    (Some [ {| attr_name := "src"; attr_value := "https://stats.example/counter.js" |};
            {| attr_name := "data-usd-__proto__"; attr_value := "x" |} ]) = None.
Proof. split; reflexivity. Qed.

(** *** A relation across every listener *)

Section AcrossBlocks.
Variable R : World -> World -> Prop.
Hypothesis HR : preorder R.
Hypothesis HB : across_blocks R.

Lemma across_bind {A B} (m : M A) (k : A -> M B) :
  across R m -> (forall a, across R (k a)) -> across R (bind m k).
Proof.
  intros Hm Hk w. rewrite exec_bind.
  eapply (preorder_trans R HR); [apply Hm|apply Hk].
Qed.

Lemma across_ret {A} (a : A) : across R (ret a).
Proof. intros w. apply (preorder_refl R HR). Qed.

Lemma across_env {A} (f : Host -> A) : across R (env f).
Proof. intros w. apply (preorder_refl R HR). Qed.

Lemma across_times (k : nat) (m : M unit) : across R m -> across R (times k m).
Proof.
  intros Hm. induction k as [|k IH]; cbn [times].
  - apply across_ret.
  - apply across_bind; [exact Hm|intros _; exact IH].
Qed.

(** A frame runs the waiting callbacks, the queue emptied first. *)
Lemma across_frame :
  (forall w, R w (with_rafQueue 0 w)) -> across R onAnimationFrame ->
  across R runAnimationFrame.
Proof.
  intros Hq Hm w. unfold runAnimationFrame, exec.
  eapply (preorder_trans R HR); [apply Hq|].
  apply (across_times (rafQueue w) onAnimationFrame Hm).
Qed.

Lemma across_handleRouteChange : across R handleRouteChange.
Proof.
  destruct HB as (Hhost & Hstart & Hpause & Hclose & Henter & Hscroll &
                  Hframe & Hload & Hinterval).
  intros w. destruct (handleRouteChange_cases w) as [E | [E | E]]; rewrite E.
  - apply (preorder_refl R HR).
  - apply Henter.
  - eapply (preorder_trans R HR);
      [apply Hclose|apply Henter].
Qed.

Lemma across_handleVisibilityChange : across R handleVisibilityChange.
Proof.
  destruct HB as (Hhost & Hstart & Hpause & Hclose & Henter & Hscroll &
                  Hframe & Hload & Hinterval).
  unfold handleVisibilityChange. apply across_bind; [apply across_env|].
  intros v. destruct (String.eqb v "visible");
    [apply Hstart|apply Hpause].
Qed.

Lemma across_runInterval (k : nat) : across R (runInterval k).
Proof.
  destruct HB as (Hhost & Hstart & Hpause & Hclose & Henter & Hscroll &
                  Hframe & Hload & Hinterval).
  intros w. unfold exec, runInterval.
  destruct (nth_error (timers w) k) as [t|]; [|apply (preorder_refl R HR)].
  destruct (cleared t); [apply (preorder_refl R HR)|].
  apply Hinterval.
Qed.

Lemma across_step (i : Input) : across R (step i).
Proof.
  destruct HB as (Hhost & Hstart & Hpause & Hclose & Henter & Hscroll &
                  Hframe & Hload & Hinterval).
  intros w. destruct i; cbn [step].
  - apply Hhost.
  - eapply (preorder_trans R HR);
      [apply (Hhost (set_location l (host w)))|].
    apply across_handleRouteChange.
  - eapply (preorder_trans R HR);
      [apply (Hhost (set_location l (host w)))|].
    apply across_handleRouteChange.
  - apply across_handleRouteChange.
  - apply across_handleRouteChange.
  - apply across_handleRouteChange.
  - apply Hclose.
  - apply Hclose.
  - destruct persisted;
      [apply across_handleRouteChange|apply (preorder_refl R HR)].
  - apply across_handleVisibilityChange.
  - apply Hstart.
  - apply Hpause.
  - apply Hscroll.
  - apply Hframe.
  - apply Hload.
  - apply across_runInterval.
Qed.

Lemma across_steps (l : list Input) : across R (steps l).
Proof.
  induction l as [|i l IH]; [apply across_ret|].
  cbn [steps]. apply across_bind; [apply across_step|intros _; exact IH].
Qed.

Lemma across_init : across R init.
Proof.
  destruct HB as (Hhost & Hstart & Hpause & Hclose & Henter & Hscroll &
                  Hframe & Hload & Hinterval).
  unfold init. apply across_bind; [apply across_handleRouteChange|].
  intros _. apply across_bind; [apply across_env|].
  intros v. destruct (String.eqb v "visible");
    [apply Hstart|apply across_ret].
Qed.

(** From the start of the script to any world it reaches. *)
Lemma across_run (c : Config) (h : Host) (clk : nat -> Z) (l : list Input) :
  R (boot c h clk) (run c h clk l).
Proof.
  unfold run. apply across_bind; [apply across_init|].
  intros _. apply across_steps.
Qed.
End AcrossBlocks.

(** An invariant is a relation of this kind. *)
Lemma preorder_invariant (P : World -> Prop) :
  preorder (fun w w' => P w -> P w').
Proof. split; auto. Qed.

(** *** The settings are kept *)

Lemma tag_kept_refl (c : Config) : tag_kept c c.
Proof. left. reflexivity. Qed.

Lemma tag_kept_trans (c1 c2 c3 : Config) :
  tag_kept c1 c2 -> tag_kept c2 c3 -> tag_kept c1 c3.
Proof.
  intros [-> | (name & o & o' & Hb & Hn & Ho & ->)] H; [exact H|].
  destruct H as [-> | (name2 & o2 & o2' & Hb2 & Hn2 & Ho2 & ->)].
  - right. exists name, o, o'. auto.
  - right. exists name, o, o2'. auto.
Qed.

Lemma tag_kept_set_customProps (c : Config) (name : string) (o o' : Obj) :
  beforeSend c = Some name -> String.eqb name "" = false ->
  customProps c = Some o ->
  tag_kept c (set_customProps (Some o') c).
Proof.
  intros Hb Hn Ho. right. exists name, o, o'.
  apply String.eqb_neq in Hn. auto.
Qed.

(** [sendRequest] leaves every variable but [config] alone, and of
    [config] all but the content of the custom properties. *)
Lemma sendRequest_tag (d : Data.t Obj) (w : World) :
  tag_kept (config (vars w)) (config (vars (exec (sendRequest d) w))).
Proof.
  unfold exec, sendRequest. cbv [bind env ret].
  destruct (window_fetch (host w)); cbv [negb]; [|apply tag_kept_refl].
  rewrite shouldTrack_run.
  destruct (eval shouldTrack w); cbv [negb]; [|apply tag_kept_refl].
  cbv [var fetch record].
  destruct (beforeSend (config (vars w))) as [name|] eqn:Hb;
    [|open_world w; apply tag_kept_refl].
  destruct (String.eqb name "") eqn:Hn; cbv [negb];
    [open_world w; apply tag_kept_refl|].
  unfold applyHook. cbv [bind env ret var].
  destruct (window_prop (host w) name) as [| |fn];
    try (open_world w; apply tag_kept_refl).
  destruct (Data.p d) as [o|].
  - destruct (customProps (config (vars w))) as [o0|] eqn:Hcp.
    + assert (K : tag_kept (config (vars w))
                    (set_customProps (Some (arg_after (fn o))) (config (vars w)))).
      { eapply tag_kept_set_customProps; eassumption. }
      destruct (outcome (fn o)); open_world w; exact K.
    + destruct (outcome (fn o)); open_world w; apply tag_kept_refl.
  - destruct (outcome (fn [])); open_world w; apply tag_kept_refl.
Qed.

Lemma trackEvent_tag (name : string) (props : Props) (w : World) :
  tag_kept (config (vars w)) (config (vars (exec (trackEvent name props) w))).
Proof.
  unfold exec, trackEvent. cbv [bind]. rewrite basePayload_run. cbv [record].
  pose proof (sendRequest_tag (eventOf name props w)
                (with_log (Tracked (eventOf name props w) :: log w) w)) as H.
  unfold exec in H. fold (eventOf name props w). open_world w. exact H.
Qed.

(** The configuration [c'] of an effect lemma is the one [trackEvent]
    left. *)
Tactic Notation "use_trackEvent" ident(c) ident(fs) ident(H) "keeping" ident(K) :=
  match goal with
  | |- context [trackEvent ?n ?p ?W] =>
      match goal with
      | |- context [Tracked (eventOf n _ ?w0)] =>
          let E := fresh "E" in
          pose proof (trackEvent_tag n p W) as K; unfold exec in K;
          destruct (trackEvent_effect n p W) as (c & fs & E & H);
          rewrite E in K; rewrite E; clear E;
          try rewrite (eventOf_host_config n p W w0 eq_refl eq_refl) in *;
          apply (send_outcome_host_config _ W w0 _ _ eq_refl eq_refl) in H
      end
  end.

Lemma trackPageview_effect_tag (w : World) :
  exists c' fs,
    trackPageview w =
      (tt, with_log (fs ++ Tracked (eventOf "pageview" no_props w) :: log w)
             (with_reads (S (reads w))
                (with_vars (opened c' (host w) (next_reading w) (vars w)) w))) /\
    send_outcome (eventOf "pageview" no_props w) w c' fs /\
    tag_kept (config (vars w)) c'.
Proof.
  open_world w. lifecycle.
  use_trackEvent c' fs HO keeping K.
  exists c', fs. split; [reflexivity|split; [exact HO|exact K]].
Qed.

Lemma trackEngagement_effect_tag (w : World) :
  pageviewSent (vars w) = true -> engagementSent (vars w) = false ->
  is_noise w = false ->
  exists c' fs,
    trackEngagement w =
      (tt, with_log
             (fs ++ Tracked (eventOf "engagement" (engagementProps w) w) :: log w)
             (with_reads (closing_reads w + reads w)
                (with_vars (closed c' (vars w)) w))) /\
    send_outcome (eventOf "engagement" (engagementProps w) w) w c' fs /\
    tag_kept (config (vars w)) c'.
Proof.
  unfold is_noise, engagementProps, closing_reads. open_world w.
  cbn [vars pageviewSent engagementSent]. intros -> ->. lifecycle.
  destruct act; cbv beta iota; intros ->.
  all: destruct (dh =? 0); use_trackEvent c' fs HO keeping K;
    exists c', fs; (split; [reflexivity|split; [exact HO|exact K]]).
Qed.

Lemma enter_effect_tag (path : string) (w : World) :
  exists c' fs,
    enter path w =
      (tt, with_log
             (fs ++ Tracked (eventOf "pageview" no_props w)
                 :: PathSet path :: log w)
             (with_reads (S (reads w))
                (with_vars
                   (opened c' (host w) (next_reading w)
                      (set_currentPath path (vars w))) w))) /\
    send_outcome (eventOf "pageview" no_props w) w c' fs /\
    tag_kept (config (vars w)) c'.
Proof.
  unfold enter. cbv [bind assign record].
  match goal with
  | |- context [trackPageview ?W] =>
      destruct (trackPageview_effect_tag W) as (c' & fs & E & HO & K);
      rewrite E; clear E
  end.
  exists c', fs. split; [|split].
  - rewrite (eventOf_host_config _ _ _ w) by (open_world w; reflexivity).
    open_world w. reflexivity.
  - rewrite (eventOf_host_config _ _ _ w) in HO by (open_world w; reflexivity).
    eapply send_outcome_host_config; [| |exact HO]; open_world w; reflexivity.
  - open_world w. exact K.
Qed.

(** The three ways [trackEngagement] can go. *)
Lemma trackEngagement_cases (w : World) :
  trackEngagement w = (tt, w) \/
  (is_noise w = true /\ trackEngagement w = (tt, exec getEngagementTime w)) \/
  (pageviewSent (vars w) = true /\ engagementSent (vars w) = false /\
   is_noise w = false /\
   exists c' fs,
     trackEngagement w =
       (tt, with_log
              (fs ++ Tracked (eventOf "engagement" (engagementProps w) w) :: log w)
              (with_reads (closing_reads w + reads w)
                 (with_vars (closed c' (vars w)) w))) /\
     send_outcome (eventOf "engagement" (engagementProps w) w) w c' fs /\
     tag_kept (config (vars w)) c').
Proof.
  destruct (pageviewSent (vars w)) eqn:Hpv;
    [destruct (engagementSent (vars w)) eqn:Hes|].
  2: destruct (is_noise w) eqn:Hn.
  - left. apply trackEngagement_skips. auto.
  - right. left. split; [reflexivity|]. apply trackEngagement_noise; auto.
  - right. right. repeat split; auto. apply trackEngagement_effect_tag; auto.
  - left. apply trackEngagement_skips. auto.
Qed.

Lemma getEngagementTime_vars (w : World) :
  exec getEngagementTime w =
    with_reads ((if engagementTimerActive (vars w) then 1 else 0) + reads w) w.
Proof. open_world w. accumulator. destruct act; reflexivity. Qed.

Lemma settings_kept_preorder : preorder settings_kept.
Proof.
  split.
  - intros w. split; [apply tag_kept_refl|split; reflexivity].
  - intros w1 w2 w3 (A1 & A2 & A3) (B1 & B2 & B3). split; [|split].
    + eapply tag_kept_trans; eassumption.
    + congruence.
    + congruence.
Qed.

Lemma settings_kept_same (w w' : World) :
  config (vars w') = config (vars w) ->
  pageLoadTime (vars w') = pageLoadTime (vars w) ->
  clock w' = clock w ->
  settings_kept w w'.
Proof.
  intros H1 H2 H3. unfold settings_kept. rewrite H1.
  split; [apply tag_kept_refl|split; assumption].
Qed.

Ltac settings :=
  unfold across; intros w; open_world w.

Ltac same_settings := apply settings_kept_same; reflexivity.

Lemma settings_kept_blocks : across_blocks settings_kept.
Proof.
  unfold across_blocks. repeat apply conj.
  - intros h w. same_settings.
  - settings. accumulator. destruct act; same_settings.
  - settings. accumulator. destruct act; same_settings.
  - intros w. unfold exec.
    destruct (trackEngagement_cases w)
      as [E | [[_ E] | (_ & _ & _ & c' & fs & E & _ & K)]]; rewrite E.
    + apply (preorder_refl _ settings_kept_preorder).
    + cbn [snd]. rewrite getEngagementTime_vars. same_settings.
    + open_world w. split; [exact K|split; reflexivity].
  - intros path w. unfold exec.
    destruct (enter_effect_tag path w) as (c' & fs & E & _ & K). rewrite E.
    open_world w. split; [exact K|split; reflexivity].
  - settings. unfold onScroll, requestAnimationFrame. js.
    destruct tick; same_settings.
  - apply (across_frame _ settings_kept_preorder); [intros w; same_settings|].
    settings. unfold onAnimationFrame, getCurrentScrollDepth. js.
    destruct (Qle_bool _ _); same_settings.
  - settings. unfold onLoad, getDocumentHeight, setInterval. js.
    same_settings.
  - intros k a. settings. unfold onInterval, getDocumentHeight, clearInterval. js.
    destruct (a - 1 <=? 0); same_settings.
Qed.

(** *** The ledger of events *)

Lemma tag_kept_fields (c c' : Config) :
  tag_kept c c' ->
  endpoint c' = endpoint c /\ siteId c' = siteId c /\ uniqueId c' = uniqueId c /\
  logging c' = logging c /\ beforeSend c' = beforeSend c /\
  (customProps c' = None <-> customProps c = None) /\
  (beforeSend c = None -> customProps c' = customProps c).
Proof.
  intros [-> | (name & o & o' & Hb & _ & Ho & ->)].
  - repeat split; auto.
  - cbn. rewrite Hb, Ho. repeat split; discriminate.
Qed.

Lemma ledger_ok_same (c : Config) (w w' : World) :
  log w' = log w -> config (vars w') = config (vars w) ->
  pageviewSent (vars w') = pageviewSent (vars w) ->
  engagementSent (vars w') = engagementSent (vars w) ->
  ledger_ok c w -> ledger_ok c w'.
Proof.
  unfold ledger_ok, tally_ok. intros -> -> -> ->. auto.
Qed.

Lemma eventOf_fields (name : string) (props : Props) (w : World) :
  let d := eventOf name props w in
  Data.n d = name /\ Data.hu d = uniqueId (config (vars w)) /\
  Data.i d = siteId (config (vars w)) /\ Data.r d <> Some ""%string /\
  Data.p d = customProps (config (vars w)) /\
  Data.sd d = props_sd props /\ Data.e d = props_e props /\
  Data.h d = props_h props /\ Data.tt d = props_tt props.
Proof.
  open_world w. unfold eventOf, basePayload, getCurrentUrl. js.
  destruct (href (location hst)); cbn; repeat split.
  all: destruct (String.eqb (referrer hst) "") eqn:E; try discriminate;
    intros H; injection H as H; rewrite H in E; discriminate.
Qed.

Lemma wire_ok_event (c : Config) (d : Data.t Obj) (w : World) c' fs
    (l : list Action) :
  send_outcome d w c' fs ->
  endpoint (config (vars w)) = endpoint c ->
  event_ok c d -> wire_ok c l ->
  wire_ok c (fs ++ Tracked d :: l).
Proof.
  intros [(_ & -> & _) | (_ & b & -> & Hb)] He Hd Hl; cbn; auto.
Qed.

Lemma count_event (f : Action -> bool) (d : Data.t Obj) (w : World) c' fs
    (l : list Action) :
  send_outcome d w c' fs ->
  (forall url b, f (Fetch url b) = false) ->
  count f (fs ++ Tracked d :: l) =
    ((if f (Tracked d) then 1 else 0) + count f l)%nat.
Proof.
  intros [(_ & -> & _) | (_ & b & -> & Hb)] Hf; unfold count; cbn;
    try rewrite Hf; destruct (f (Tracked d)); reflexivity.
Qed.

Ltac tallies HO :=
  rewrite ?(count_event (emits "pageview") _ _ _ _ _ HO) by reflexivity;
  rewrite ?(count_event (emits "engagement") _ _ _ _ _ HO) by reflexivity;
  rewrite ?(count_event is_path_set _ _ _ _ _ HO) by reflexivity.

Lemma ledger_preorder (c : Config) :
  preorder (fun w w' => ledger_ok c w -> ledger_ok c w').
Proof. apply preorder_invariant. Qed.

Ltac same_ledger := apply ledger_ok_same; reflexivity.

Lemma ledger_trackEngagement (c : Config) (w : World) :
  ledger_ok c w -> ledger_ok c (exec trackEngagement w).
Proof.
  unfold exec.
  destruct (trackEngagement_cases w)
    as [E | [[_ E] | (Hpv & Hes & _ & c' & fs & E & HO & K)]]; rewrite E.
  - auto.
  - cbn [snd]. rewrite getEngagementTime_vars. same_ledger.
  - intros (HK & HW & HT1 & HT2). cbn [snd].
    destruct (tag_kept_fields _ _ HK) as (He & Hi & Hu & _ & _ & Hp1 & Hp2).
    destruct (eventOf_fields "engagement" (engagementProps w) w)
      as (Dn & Dhu & Di & Dr & Dp & Dsd & De & Dh & Dtt).
    repeat split.
    + eapply tag_kept_trans; [exact HK|]. open_world w. exact K.
    + open_world w. cbn [log with_log with_reads with_vars].
      eapply wire_ok_event; [exact HO|exact He| |exact HW].
      unfold event_ok. rewrite Dhu, Di, Dp, Hu, Hi.
      split; [reflexivity|]. split; [reflexivity|]. split; [exact Dr|].
      split; [exact Hp1|]. split; [exact Hp2|].
      right. rewrite Dn, Dsd, De, Dh, Dtt.
      repeat split; try discriminate.
      eexists. split; [reflexivity|]. apply getScrollPercentage_range.
    + revert HT1. open_world w. cbn [log with_log with_reads with_vars].
      tallies HO. cbn [emits is_path_set]. rewrite Dn. cbn. auto.
    + revert HT2. rewrite Hpv, Hes. open_world w.
      cbn [log with_log with_reads with_vars vars closed].
      tallies HO. cbn [emits is_path_set]. rewrite Dn. cbn.
      rewrite andb_false_r. lia.
Qed.

Lemma ledger_enter (c : Config) (path : string) (w : World) :
  ledger_ok c w -> ledger_ok c (exec (enter path) w).
Proof.
  unfold exec.
  destruct (enter_effect_tag path w) as (c' & fs & E & HO & K). rewrite E.
  intros (HK & HW & HT1 & HT2). cbn [snd].
  destruct (tag_kept_fields _ _ HK) as (He & Hi & Hu & _ & _ & Hp1 & Hp2).
  destruct (eventOf_fields "pageview" no_props w)
    as (Dn & Dhu & Di & Dr & Dp & Dsd & De & Dh & Dtt).
  repeat split.
  - eapply tag_kept_trans; [exact HK|]. open_world w. exact K.
  - open_world w. cbn [log with_log with_reads with_vars].
    eapply wire_ok_event; [exact HO|exact He| |exact HW].
    unfold event_ok. rewrite Dhu, Di, Dp, Hu, Hi.
    split; [reflexivity|]. split; [reflexivity|]. split; [exact Dr|].
    split; [exact Hp1|]. split; [exact Hp2|].
    left. rewrite Dn, Dsd, De, Dh, Dtt.
    repeat split.
  - revert HT1. open_world w. cbn [log with_log with_reads with_vars].
    tallies HO. cbn [emits is_path_set]. rewrite Dn. unfold count. cbn. auto.
  - revert HT2. open_world w.
    cbn [log with_log with_reads with_vars vars opened pageviewSent
         engagementSent andb negb].
    tallies HO. cbn [emits is_path_set]. rewrite Dn. unfold count. cbn.
    destruct (pv && negb sent); lia.
Qed.

Lemma ledger_blocks (c : Config) :
  across_blocks (fun w w' => ledger_ok c w -> ledger_ok c w').
Proof.
  unfold across_blocks. repeat apply conj.
  - intros h w. same_ledger.
  - intros w. open_world w. accumulator. destruct act; same_ledger.
  - intros w. open_world w. accumulator. destruct act; same_ledger.
  - intros w. apply ledger_trackEngagement.
  - intros path w. apply ledger_enter.
  - intros w. open_world w. unfold onScroll, requestAnimationFrame. js.
    destruct tick; same_ledger.
  - apply (across_frame _ (ledger_preorder c)); [intros w; same_ledger|].
    intros w. open_world w. unfold onAnimationFrame, getCurrentScrollDepth. js.
    destruct (Qle_bool _ _); same_ledger.
  - intros w. open_world w. unfold onLoad, getDocumentHeight, setInterval. js.
    same_ledger.
  - intros k a w. open_world w.
    unfold onInterval, getDocumentHeight, clearInterval. js.
    unfold ledger_ok, tally_ok. cbn [log vars config pageviewSent engagementSent].
    destruct (a - 1 <=? 0); cbn [wire_ok]; unfold count; cbn; auto.
Qed.

Lemma ledger_run (c : Config) (h : Host) (clk : nat -> Z) (l : list Input) :
  ledger_ok c (run c h clk l).
Proof.
  apply (across_run _ (ledger_preorder c) (ledger_blocks c)).
  split; [apply tag_kept_refl|].
  split; [exact I|]. split; [reflexivity|apply Nat.le_refl].
Qed.

(** *** The accumulator under a monotone clock *)

Lemma timer_sound_preorder :
  preorder (fun w w' => timer_sound w -> timer_sound w').
Proof. apply preorder_invariant. Qed.

(** What does not touch the accumulator or the log keeps it sound, also
    when it reads the clock. *)
Lemma timer_sound_same (w w' : World) :
  clock w' = clock w -> (reads w <= reads w')%nat ->
  accumulatedEngagement (vars w') = accumulatedEngagement (vars w) ->
  engagementTimerActive (vars w') = engagementTimerActive (vars w) ->
  engagementStart (vars w') = engagementStart (vars w) ->
  log w' = log w ->
  timer_sound w -> timer_sound w'.
Proof.
  unfold timer_sound, clock_monotone. intros -> Hr -> -> -> ->.
  intros (Hm & Ha & Hs & Hl). repeat split; auto.
  intros Hact. destruct (Hs Hact) as (j & Hj & E). exists j. split; [lia|exact E].
Qed.

Ltac same_timer := apply timer_sound_same; cbn; try reflexivity; try lia.

Lemma elapsed_nonneg (w : World) :
  timer_sound w -> 0 <= elapsedAt w (next_reading w).
Proof.
  unfold timer_sound, clock_monotone. open_world w. js.
  intros (Hm & Ha & Hs & _). destruct act; [|lia].
  destruct (Hs eq_refl) as (j & Hj & ->). cbn [toNumber].
  specialize (Hm j rd). lia.
Qed.

Lemma reports_nonneg_event (d : Data.t Obj) (w : World) c' fs (l : list Action) :
  send_outcome d w c' fs ->
  (forall ev, Data.e d = Some ev -> 0 <= ev) ->
  Forall reports_nonneg l ->
  Forall reports_nonneg (fs ++ Tracked d :: l).
Proof.
  intros [(_ & -> & _) | (_ & b & -> & Hb)] Hd Hl; cbn.
  - constructor; assumption.
  - constructor; [|constructor; assumption].
    cbn. destruct Hb as (_ & _ & _ & _ & _ & _ & He & _). rewrite <- He. exact Hd.
Qed.

Lemma timer_sound_startEngagement (w : World) :
  timer_sound w -> timer_sound (exec startEngagement w).
Proof.
  open_world w. accumulator. destruct act; [auto|].
  unfold timer_sound, clock_monotone. cbn.
  intros (Hm & Ha & _ & Hl). repeat split; auto.
  intros _. exists rd. split; [lia|reflexivity].
Qed.

Lemma timer_sound_pauseEngagement (w : World) :
  timer_sound w -> timer_sound (exec pauseEngagement w).
Proof.
  open_world w. accumulator. destruct act; [|auto].
  unfold timer_sound, clock_monotone. cbn.
  intros (Hm & Ha & Hs & Hl). repeat split; auto; [|discriminate].
  destruct (Hs eq_refl) as (j & Hj & ->). cbn [toNumber].
  specialize (Hm j rd). lia.
Qed.

Lemma timer_sound_trackEngagement (w : World) :
  timer_sound w -> timer_sound (exec trackEngagement w).
Proof.
  unfold exec.
  destruct (trackEngagement_cases w)
    as [E | [[_ E] | (_ & _ & _ & c' & fs & E & HO & _)]]; rewrite E.
  - auto.
  - cbn [snd]. rewrite getEngagementTime_vars.
    apply timer_sound_same; try reflexivity. cbn. lia.
  - intros H. pose proof (elapsed_nonneg w H) as He.
    destruct H as (Hm & Ha & Hs & Hl). cbn [snd].
    destruct (eventOf_fields "engagement" (engagementProps w) w)
      as (_ & _ & _ & _ & _ & _ & De & _).
    assert (Hl' : Forall reports_nonneg
              (fs ++ Tracked (eventOf "engagement" (engagementProps w) w) :: log w)).
    { eapply reports_nonneg_event; [exact HO| |exact Hl].
      intros ev. rewrite De. unfold engagementProps. cbn [props_e].
      rewrite getEngagementTime_value. intros [= <-]. exact He. }
    revert Hm Hl'. unfold timer_sound, clock_monotone. open_world w.
    cbn [log with_log with_reads with_vars vars clock closed
         accumulatedEngagement engagementTimerActive set_engagementSent
         set_engagementTimerActive set_accumulatedEngagement].
    intros Hm Hl'. repeat split; auto; [lia|discriminate].
Qed.

Lemma timer_sound_enter (path : string) (w : World) :
  timer_sound w -> timer_sound (exec (enter path) w).
Proof.
  unfold exec. destruct (enter_effect path w) as (c' & fs & E & HO). rewrite E.
  intros (Hm & Ha & Hs & Hl). cbn [snd].
  destruct (eventOf_fields "pageview" no_props w)
    as (_ & _ & _ & _ & _ & _ & De & _).
  assert (Hl' : Forall reports_nonneg
            (fs ++ Tracked (eventOf "pageview" no_props w)
                :: PathSet path :: log w)).
  { eapply reports_nonneg_event; [exact HO| |constructor; [exact I|exact Hl]].
    intros ev. rewrite De. discriminate. }
  revert Hm Hl'. unfold timer_sound, clock_monotone, next_reading. open_world w.
  cbn [log with_log with_reads with_vars vars clock reads opened
       accumulatedEngagement engagementTimerActive engagementStart].
  intros Hm Hl'. repeat split; auto; [lia|].
  intros _. exists rd. split; [lia|reflexivity].
Qed.

Lemma timer_sound_blocks :
  across_blocks (fun w w' => timer_sound w -> timer_sound w').
Proof.
  unfold across_blocks. repeat apply conj.
  - intros h w. same_timer.
  - intros w. apply timer_sound_startEngagement.
  - intros w. apply timer_sound_pauseEngagement.
  - intros w. apply timer_sound_trackEngagement.
  - intros path w. apply timer_sound_enter.
  - intros w. open_world w. unfold onScroll, requestAnimationFrame. js.
    destruct tick; same_timer.
  - apply (across_frame _ timer_sound_preorder); [intros w; same_timer|].
    intros w. open_world w. unfold onAnimationFrame, getCurrentScrollDepth. js.
    destruct (Qle_bool _ _); same_timer.
  - intros w. open_world w. unfold onLoad, getDocumentHeight, setInterval. js.
    same_timer.
  - intros k a w. open_world w.
    unfold onInterval, getDocumentHeight, clearInterval. js.
    unfold timer_sound, clock_monotone. cbn.
    intros (Hm & Ha & Hs & Hl).
    destruct (a - 1 <=? 0); repeat split; auto; constructor; auto; exact I.
Qed.

Lemma timer_sound_run (c : Config) (h : Host) (clk : nat -> Z) (l : list Input) :
  (forall i j : nat, (i <= j)%nat -> clk i <= clk j) ->
  timer_sound (run c h clk l).
Proof.
  intros Hm. apply (across_run _ timer_sound_preorder timer_sound_blocks).
  split; [exact Hm|]. split; [cbn; lia|]. split; [discriminate|constructor].
Qed.

(** *** Frames and the scroll depth *)

Lemma frame_ok_preorder : preorder (fun w w' => frame_ok w -> frame_ok w').
Proof. apply preorder_invariant. Qed.

Lemma frame_ok_same (w w' : World) :
  rafQueue w' = rafQueue w -> ticking (vars w') = ticking (vars w) ->
  frame_ok w -> frame_ok w'.
Proof. unfold frame_ok. intros -> ->. auto. Qed.

Ltac same_frame := apply frame_ok_same; reflexivity.

Lemma onAnimationFrame_effect (w : World) :
  exec onAnimationFrame w =
    with_vars (set_ticking false (set_maxScrollDepth (sampled w) (vars w))) w.
Proof.
  unfold sampled. open_world w.
  unfold onAnimationFrame, getCurrentScrollDepth. js.
  destruct (Qle_bool _ _); reflexivity.
Qed.

(** A frame with one callback waiting, and with none. *)
Lemma runAnimationFrame_one (w : World) :
  rafQueue w = 1%nat ->
  exec runAnimationFrame w =
    with_rafQueue 0
      (with_vars (set_ticking false (set_maxScrollDepth (sampled w) (vars w))) w).
Proof.
  intros H. unfold runAnimationFrame, exec. rewrite H. cbn [times].
  fold (exec (onAnimationFrame ;; ret tt) (with_rafQueue 0 w)).
  rewrite exec_bind. unfold ret, exec at 1. cbn [snd].
  rewrite onAnimationFrame_effect. open_world w. reflexivity.
Qed.

Lemma runAnimationFrame_none (w : World) :
  rafQueue w = 0%nat -> exec runAnimationFrame w = w.
Proof.
  intros H. unfold runAnimationFrame, exec. rewrite H. cbn.
  open_world w. cbn in H. subst. reflexivity.
Qed.

Lemma frame_ok_blocks : across_blocks (fun w w' => frame_ok w -> frame_ok w').
Proof.
  unfold across_blocks. repeat apply conj.
  - intros h w. same_frame.
  - intros w. open_world w. accumulator. destruct act; same_frame.
  - intros w. open_world w. accumulator. destruct act; same_frame.
  - intros w. unfold exec.
    destruct (trackEngagement_cases w)
      as [E | [[_ E] | (_ & _ & _ & c' & fs & E & _)]]; rewrite E.
    + auto.
    + cbn [snd]. rewrite getEngagementTime_vars. same_frame.
    + open_world w. same_frame.
  - intros path w. unfold exec.
    destruct (enter_effect path w) as (c' & fs & E & _). rewrite E.
    open_world w. same_frame.
  - intros w. open_world w. unfold onScroll, requestAnimationFrame, frame_ok. js.
    destruct tick; cbn; auto.
  - intros w Hw. unfold frame_ok in Hw.
    destruct (ticking (vars w)) eqn:Ht.
    + rewrite (runAnimationFrame_one w Hw). open_world w. reflexivity.
    + rewrite (runAnimationFrame_none w Hw). unfold frame_ok. rewrite Ht. exact Hw.
  - intros w. open_world w. unfold onLoad, getDocumentHeight, setInterval. js.
    same_frame.
  - intros k a w. open_world w.
    unfold onInterval, getDocumentHeight, clearInterval. js.
    destruct (a - 1 <=? 0); same_frame.
Qed.

Lemma frame_ok_run (c : Config) (h : Host) (clk : nat -> Z) (l : list Input) :
  frame_ok (run c h clk l).
Proof.
  apply (across_run _ frame_ok_preorder frame_ok_blocks). reflexivity.
Qed.

(** Scroll events before a frame: the first one asks for the callback,
    the others find [ticking] set. *)
Lemma scrolls_effect (n : nat) : forall w : World,
  frame_ok w ->
  exec (steps (repeat Scroll (S n))) w =
    with_rafQueue 1 (with_vars (set_ticking true (vars w)) w).
Proof.
  induction n as [|n IH]; intros w Hw.
  - unfold frame_ok in Hw. open_world w. cbn in Hw. cbn [repeat steps step].
    unfold onScroll, requestAnimationFrame. js.
    destruct tick; subst; reflexivity.
  - change (repeat Scroll (S (S n))) with (Scroll :: repeat Scroll (S n)).
    cbn [steps]. rewrite exec_bind. rewrite IH.
    + unfold frame_ok in Hw. open_world w. cbn in Hw. cbn [step].
      unfold onScroll, requestAnimationFrame. js.
      destruct tick; subst; reflexivity.
    + revert Hw. apply frame_ok_blocks.
Qed.

Lemma depth_kept_preorder : preorder depth_kept.
Proof.
  split.
  - intros w. exists []. split; [reflexivity|]. intros _. split; [reflexivity|].
    apply Qle_refl.
  - intros w1 w2 w3 (d1 & E1 & H1) (d2 & E2 & H2). exists (d2 ++ d1).
    split; [rewrite E2, E1; apply app_assoc|].
    rewrite forallb_app. intros H. apply andb_prop in H. destruct H as [A B].
    destruct (H1 B) as [P1 Q1]. destruct (H2 A) as [P2 Q2].
    split; [congruence|]. eapply Qle_trans; eassumption.
Qed.

Lemma depth_kept_same (w w' : World) :
  log w' = log w -> currentPath (vars w') = currentPath (vars w) ->
  maxScrollDepth (vars w') = maxScrollDepth (vars w) ->
  depth_kept w w'.
Proof.
  intros Hl Hp Hm. exists []. split; [exact Hl|]. intros _.
  split; [exact Hp|]. rewrite Hm. apply Qle_refl.
Qed.

Ltac same_depth := apply depth_kept_same; reflexivity.

Lemma sampled_ge (w : World) : (maxScrollDepth (vars w) <= sampled w)%Q.
Proof.
  unfold sampled.
  destruct (Qle_bool (eval getCurrentScrollDepth w) (maxScrollDepth (vars w))) eqn:E.
  - apply Qle_refl.
  - apply Qlt_le_weak, Qnot_le_lt. intros H. apply Qle_bool_iff in H. congruence.
Qed.

Lemma sampled_covers (w : World) : (eval getCurrentScrollDepth w <= sampled w)%Q.
Proof.
  unfold sampled.
  destruct (Qle_bool (eval getCurrentScrollDepth w) (maxScrollDepth (vars w))) eqn:E.
  - apply Qle_bool_iff, E.
  - apply Qle_refl.
Qed.

Lemma no_path_set_event (d : Data.t Obj) (w : World) c' fs :
  send_outcome d w c' fs ->
  forallb (fun a => negb (is_path_set a)) (fs ++ [Tracked d]) = true.
Proof. intros [(_ & -> & _) | (_ & b & -> & _)]; reflexivity. Qed.

Lemma depth_kept_blocks : across_blocks depth_kept.
Proof.
  unfold across_blocks. repeat apply conj.
  - intros h w. same_depth.
  - intros w. open_world w. accumulator. destruct act; same_depth.
  - intros w. open_world w. accumulator. destruct act; same_depth.
  - intros w. unfold exec.
    destruct (trackEngagement_cases w)
      as [E | [[_ E] | (_ & _ & _ & c' & fs & E & _)]]; rewrite E.
    + apply (preorder_refl _ depth_kept_preorder).
    + cbn [snd]. rewrite getEngagementTime_vars. same_depth.
    + exists (fs ++ [Tracked (eventOf "engagement" (engagementProps w) w)]).
      open_world w. cbn [snd log with_log with_reads with_vars vars closed].
      split; [rewrite <- app_assoc; reflexivity|].
      intros _. split; [reflexivity|apply Qle_refl].
  - intros path w. unfold exec.
    destruct (enter_effect path w) as (c' & fs & E & _). rewrite E.
    exists (fs ++ [Tracked (eventOf "pageview" no_props w); PathSet path]).
    open_world w. cbn [snd log with_log with_reads with_vars].
    split; [rewrite <- app_assoc; reflexivity|].
    rewrite forallb_app. cbn. rewrite andb_false_r. discriminate.
  - intros w. open_world w. unfold onScroll, requestAnimationFrame. js.
    destruct tick; same_depth.
  - apply (across_frame _ depth_kept_preorder); [intros w; same_depth|].
    intros w. rewrite onAnimationFrame_effect. exists [].
    split; [open_world w; reflexivity|]. intros _.
    split; [open_world w; reflexivity|].
    pose proof (sampled_ge w) as H. open_world w. exact H.
  - intros w. open_world w. unfold onLoad, getDocumentHeight, setInterval. js.
    same_depth.
  - intros k a w. exists [Polled k]. open_world w.
    unfold onInterval, getDocumentHeight, clearInterval. js.
    destruct (a - 1 <=? 0); (split; [reflexivity|]); intros _;
      (split; [reflexivity|apply Qle_refl]).
Qed.

(** *** The loop-back pattern *)

Lemma skip_digits_split (s : string) :
  exists g, all_digits g = true /\ s = (g ++ skip_digits s)%string.
Proof.
  induction s as [|c s IH].
  - exists ""%string. split; reflexivity.
  - cbn [skip_digits]. destruct (is_digit c) eqn:E.
    + destruct IH as (g & Hg & Hs). exists (String c g). split.
      * cbn. rewrite E, Hg. reflexivity.
      * cbn [append]. rewrite <- Hs. reflexivity.
    + exists ""%string. split; reflexivity.
Qed.

Lemma skip_digits_app (g r : string) :
  all_digits g = true -> no_digit_ahead r -> skip_digits (g ++ r) = r.
Proof.
  induction g as [|c g IH]; cbn [append all_digits]; intros Hg Hr.
  - destruct r as [|c r]; [reflexivity|]. cbn in Hr |- *. rewrite Hr. reflexivity.
  - apply andb_prop in Hg. destruct Hg as [Hc Hg]. cbn [skip_digits].
    rewrite Hc. apply IH; assumption.
Qed.

Lemma dot_digits_some (s r : string) :
  dot_digits s = Some r ->
  exists g, digit_group g /\ s = ("." ++ g ++ r)%string.
Proof.
  unfold dot_digits. destruct s as [|d s]; [discriminate|].
  destruct (Ascii.eqb_spec d ".") as [-> | N].
  - destruct s as [|c s]; [discriminate|].
    destruct (is_digit c) eqn:E; [|discriminate]. intros [= <-].
    destruct (skip_digits_split s) as (g & Hg & Hs).
    exists (String c g). split.
    + split; [discriminate|]. cbn. rewrite E, Hg. reflexivity.
    + cbn [append]. rewrite <- Hs. reflexivity.
  - intros H. exfalso.
    destruct d as [[] [] [] [] [] [] [] []]; try discriminate H.
    apply N. reflexivity.
Qed.

Lemma dot_digits_app (g r : string) :
  digit_group g -> no_digit_ahead r ->
  dot_digits ("." ++ g ++ r) = Some r.
Proof.
  intros [Hn Hg] Hr. destruct g as [|c g]; [contradiction|].
  cbn [append all_digits] in *. apply andb_prop in Hg. destruct Hg as [Hc Hg].
  unfold dot_digits. rewrite Hc. rewrite skip_digits_app by assumption.
  reflexivity.
Qed.

Lemma dotted_no_digit_ahead (groups : list string) : no_digit_ahead (dotted groups).
Proof. destruct groups; cbn; [exact I|reflexivity]. Qed.

Lemma dotted_cons (g : string) (groups : list string) :
  dotted (g :: groups) = String "." (g ++ dotted groups).
Proof. reflexivity. Qed.

Lemma dot_digits_dotted (g : string) (groups : list string) :
  digit_group g -> dot_digits (dotted (g :: groups)) = Some (dotted groups).
Proof.
  intros G. apply (dot_digits_app g (dotted groups) G).
  apply dotted_no_digit_ahead.
Qed.

Lemma loopback_tail_groups (s : string) :
  loopback_tail s = true <->
  exists groups : list string,
    (1 <= List.length groups <= 3)%nat /\ Forall digit_group groups /\
    s = dotted groups.
Proof.
  split.
  - unfold loopback_tail.
    destruct (dot_digits s) as [s1|] eqn:E1; [|discriminate].
    destruct (dot_digits_some _ _ E1) as (g1 & G1 & ->).
    destruct s1 as [|c1 s1].
    { intros _. exists [g1]. cbn. repeat split; auto. }
    destruct (dot_digits (String c1 s1)) as [s2|] eqn:E2; [|discriminate].
    destruct (dot_digits_some _ _ E2) as (g2 & G2 & ->).
    destruct s2 as [|c2 s2].
    { intros _. exists [g1; g2]. cbn. repeat split; auto. }
    destruct (dot_digits (String c2 s2)) as [s3|] eqn:E3; [|discriminate].
    destruct (dot_digits_some _ _ E3) as (g3 & G3 & ->).
    destruct s3 as [|c3 s3]; [|discriminate].
    intros _. exists [g1; g2; g3]. cbn. repeat split; auto.
  - intros (groups & Hlen & Hg & ->).
    destruct groups as [|g1 [|g2 [|g3 [|g4 groups]]]]; cbn in Hlen; try lia.
    + inversion_clear Hg as [|? ? G1 _]. unfold loopback_tail.
      rewrite (dot_digits_dotted g1 [] G1). reflexivity.
    + inversion_clear Hg as [|? ? G1 Hg']. inversion_clear Hg' as [|? ? G2 _].
      unfold loopback_tail.
      rewrite (dot_digits_dotted g1 [g2] G1).
      rewrite (dotted_cons g2 []). cbv beta iota. rewrite <- (dotted_cons g2 []).
      rewrite (dot_digits_dotted g2 [] G2). reflexivity.
    + inversion_clear Hg as [|? ? G1 Hg']. inversion_clear Hg' as [|? ? G2 Hg''].
      inversion_clear Hg'' as [|? ? G3 _].
      unfold loopback_tail.
      rewrite (dot_digits_dotted g1 [g2; g3] G1).
      rewrite (dotted_cons g2 [g3]). cbv beta iota. rewrite <- (dotted_cons g2 [g3]).
      rewrite (dot_digits_dotted g2 [g3] G2).
      rewrite (dotted_cons g3 []). cbv beta iota. rewrite <- (dotted_cons g3 []).
      rewrite (dot_digits_dotted g3 [] G3). reflexivity.
Qed.

(** *** Reading the log of a run *)

Lemma wire_ok_tracked (c : Config) (l : list Action) (d : Data.t Obj) :
  wire_ok c l -> In (Tracked d) l -> event_ok c d.
Proof.
  induction l as [|a l IH]; intros Hw Hin; [destruct Hin|].
  destruct Hin as [E | Hin].
  - subst a. apply Hw.
  - apply IH; [|exact Hin]. destruct a; cbn in Hw; tauto.
Qed.

Lemma wire_ok_fetch (c : Config) (l1 l2 : list Action) url b :
  wire_ok c (l1 ++ Fetch url b :: l2) ->
  url = endpoint c /\ exists d l2', l2 = Tracked d :: l2' /\ same_but_p d b.
Proof.
  induction l1 as [|a l1 IH]; cbn [app].
  - intros (E & H & _). split; [exact E|].
    destruct l2 as [|[| d | |] l2']; try contradiction. eauto.
  - intros H. apply IH. destruct a; cbn in H; tauto.
Qed.

Lemma reports_nonneg_in (l : list Action) :
  Forall reports_nonneg l <-> (forall a, In a l -> reports_nonneg a).
Proof. apply Forall_forall. Qed.

(** *** Route changes *)

Lemma enter_opens (path : string) (w : World) :
  let w' := exec (enter path) w in
  let dh := Z.max (body_scrollHeight (host w))
                  (documentElement_scrollHeight (host w)) in
  currentPath (vars w') = path /\
  pageviewSent (vars w') = true /\ engagementSent (vars w') = false /\
  documentHeight (vars w') = dh /\
  maxScrollDepth (vars w') =
    Qmin (Double.add (scrollY (host w)) (inject_Z (innerHeight (host w))))
         (inject_Z dh) /\
  accumulatedEngagement (vars w') = 0 /\
  engagementTimerActive (vars w') = true /\
  engagementStart (vars w') = Some (clock w (reads w)) /\
  reads w' = S (reads w) /\ host w' = host w /\ clock w' = clock w.
Proof.
  cbv zeta. unfold exec.
  destruct (enter_effect path w) as (c' & fs & E & _). rewrite E.
  open_world w. repeat split.
Qed.

Lemma trackEngagement_host (w : World) :
  host (exec trackEngagement w) = host w /\
  clock (exec trackEngagement w) = clock w /\
  (reads w <= reads (exec trackEngagement w))%nat.
Proof.
  unfold exec.
  destruct (trackEngagement_cases w)
    as [E | [[_ E] | (_ & _ & _ & c' & fs & E & _)]]; rewrite E.
  - repeat split. apply Nat.le_refl.
  - cbn [snd]. rewrite getEngagementTime_vars. open_world w. cbn.
    repeat split. destruct act; lia.
  - open_world w. cbn. repeat split. unfold closing_reads. cbn. lia.
Qed.

Lemma handleRouteChange_opens (w : World) :
  pathname (location (host w)) <> currentPath (vars w) ->
  currentPath (vars w) = ""%string ->
  exec handleRouteChange w = exec (enter (pathname (location (host w)))) w.
Proof.
  intros Hp Hc. unfold exec. rewrite handleRouteChange_first by assumption.
  reflexivity.
Qed.

Lemma handleRouteChange_settles (w : World) :
  pathname (location (host (exec handleRouteChange w))) =
    currentPath (vars (exec handleRouteChange w)).
Proof.
  destruct (String.eqb_spec (pathname (location (host w))) (currentPath (vars w)))
    as [E | N].
  - assert (E' : exec handleRouteChange w = w)
      by (unfold exec; rewrite (handleRouteChange_same w E); reflexivity).
    rewrite E'. exact E.
  - destruct (String.eqb_spec (currentPath (vars w)) "") as [Hc | Hc].
    + rewrite (handleRouteChange_opens w N Hc).
      destruct (enter_opens (pathname (location (host w))) w)
        as (A1 & _ & _ & _ & _ & _ & _ & _ & _ & A10 & _).
      rewrite A10, A1. reflexivity.
    + rewrite (handleRouteChange_closes_first w N Hc).
      destruct (trackEngagement_host w) as (Hh & _).
      destruct (enter_opens (pathname (location (host w))) (exec trackEngagement w))
        as (A1 & _ & _ & _ & _ & _ & _ & _ & _ & A10 & _).
      rewrite A10, A1, Hh. reflexivity.
Qed.

Lemma handleRouteChange_settled (w : World) :
  pathname (location (host w)) = currentPath (vars w) ->
  exec handleRouteChange w = w.
Proof.
  intros E. unfold exec. rewrite (handleRouteChange_same w E). reflexivity.
Qed.

(** *** The accumulator within the wall time *)

Lemma wall_time_kept_preorder (t0 : Z) : preorder (wall_time_kept t0).
Proof.
  split.
  - intros w. exists []. split; [reflexivity|]. auto.
  - intros w1 w2 w3 (d1 & E1 & H1) (d2 & E2 & H2). exists (d2 ++ d1).
    split; [rewrite E2, E1; apply app_assoc|].
    rewrite forallb_app. intros H. apply andb_prop in H. destruct H as [A B].
    auto.
Qed.

Lemma wall_time_kept_same (t0 : Z) (w w' : World) :
  log w' = log w -> clock w' = clock w -> (reads w <= reads w')%nat ->
  accumulatedEngagement (vars w') = accumulatedEngagement (vars w) ->
  engagementTimerActive (vars w') = engagementTimerActive (vars w) ->
  engagementStart (vars w') = engagementStart (vars w) ->
  wall_time_kept t0 w w'.
Proof.
  intros Hl Hc Hr Ha Ht Hs. exists []. split; [exact Hl|]. intros _.
  unfold within_wall_time, clock_monotone. rewrite Hc, Ha, Ht, Hs.
  intros (Hm & H0 & j & Hj & Hb & Hst). repeat split; auto.
  exists j. repeat split; auto. lia.
Qed.

Ltac same_wall_time := apply wall_time_kept_same; cbn; try reflexivity; try lia.

Lemma wall_time_startEngagement (t0 : Z) (w : World) :
  within_wall_time t0 w -> within_wall_time t0 (exec startEngagement w).
Proof.
  open_world w. accumulator. destruct act; [auto|].
  unfold within_wall_time, clock_monotone. cbn.
  intros (Hm & H0 & j & Hj & Hb & _). repeat split; auto.
  exists rd. repeat split; [lia|].
  specialize (Hm j rd). lia.
Qed.

Lemma wall_time_pauseEngagement (t0 : Z) (w : World) :
  within_wall_time t0 w -> within_wall_time t0 (exec pauseEngagement w).
Proof.
  open_world w. accumulator. destruct act; [|auto].
  unfold within_wall_time, clock_monotone. cbn.
  intros (Hm & H0 & j & Hj & Hb & Hs). rewrite (Hs eq_refl). cbn [toNumber].
  pose proof (Hm j rd) as Hjr. repeat split; auto; [lia|].
  exists rd. repeat split; [lia|lia|discriminate].
Qed.

Lemma wall_time_kept_blocks (t0 : Z) : across_blocks (wall_time_kept t0).
Proof.
  unfold across_blocks. repeat apply conj.
  - intros h w. same_wall_time.
  - intros w. exists []. split.
    + open_world w. accumulator. destruct act; reflexivity.
    + intros _. apply wall_time_startEngagement.
  - intros w. exists []. split.
    + open_world w. accumulator. destruct act; reflexivity.
    + intros _. apply wall_time_pauseEngagement.
  - intros w. unfold exec.
    destruct (trackEngagement_cases w)
      as [E | [[_ E] | (_ & _ & _ & c' & fs & E & _)]]; rewrite E.
    + apply (preorder_refl _ (wall_time_kept_preorder t0)).
    + cbn [snd]. rewrite getEngagementTime_vars. same_wall_time.
    + exists (fs ++ [Tracked (eventOf "engagement" (engagementProps w) w)]).
      open_world w. cbn [snd log with_log with_reads with_vars].
      split; [rewrite <- app_assoc; reflexivity|].
      intros _. unfold within_wall_time, clock_monotone. cbn.
      intros (Hm & H0 & j & Hj & Hb & _). repeat split; auto; [lia|].
      exists j. repeat split; [lia|lia|discriminate].
  - intros path w. unfold exec.
    destruct (enter_effect path w) as (c' & fs & E & _). rewrite E.
    exists (fs ++ [Tracked (eventOf "pageview" no_props w); PathSet path]).
    open_world w. cbn [snd log with_log with_reads with_vars].
    split; [rewrite <- app_assoc; reflexivity|].
    rewrite forallb_app. cbn. rewrite andb_false_r. discriminate.
  - intros w. open_world w. unfold onScroll, requestAnimationFrame. js.
    destruct tick; same_wall_time.
  - apply (across_frame _ (wall_time_kept_preorder t0)); [intros w; same_wall_time|].
    intros w. rewrite onAnimationFrame_effect. open_world w. same_wall_time.
  - intros w. open_world w. unfold onLoad, getDocumentHeight, setInterval. js.
    same_wall_time.
  - intros k a w. exists [Polled k]. open_world w.
    unfold onInterval, getDocumentHeight, clearInterval. js.
    unfold within_wall_time, clock_monotone. cbn.
    destruct (a - 1 <=? 0); (split; [reflexivity|]); intros _; auto.
Qed.

Lemma within_wall_time_opened (path : string) (w : World) :
  clock_monotone w ->
  within_wall_time (next_reading w) (exec (enter path) w).
Proof.
  intros Hm. unfold exec.
  destruct (enter_effect path w) as (c' & fs & E & _). rewrite E.
  revert Hm. unfold within_wall_time, clock_monotone, next_reading.
  open_world w. cbn. intros Hm. repeat split; auto; [lia|].
  exists rd. repeat split; [lia|lia].
Qed.

Lemma within_wall_time_elapsed (t0 : Z) (w : World) :
  within_wall_time t0 w -> 0 <= eval getEngagementTime w <= next_reading w - t0.
Proof.
  rewrite getEngagementTime_value.
  unfold within_wall_time, clock_monotone. open_world w. js.
  intros (Hm & H0 & j & Hj & Hb & Hs). specialize (Hm j rd).
  destruct act; [rewrite (Hs eq_refl); cbn [toNumber]|]; lia.
Qed.

(* ------------------------------------------------------------------ *)
(** ** The model at work *)
(* ------------------------------------------------------------------ *)

(** The script starts on /a: the path is set, one [pageview] is emitted
    with the URL of the page and no timing fields, and requested. *)
Example starts_with_one_pageview :
  let d := eventOf "pageview" no_props (boot tag (page (at_path "/a") 0 2000) ticks) in
  trace on_a = [PathSet "/a"; Tracked d; Fetch (endpoint tag) (Data.body d)] /\
  Data.u d = "https://example.com/a"%string /\
  Data.sd d = None /\ Data.e d = None.
Proof. vm_compute. repeat split. Qed.

(** [getScrollPercentage]: half of a document of 2000 pixels is 50; and 0
    whatever was scrolled when the document has no height. *)
Example half_way_is_50 :
  eval (assign (set_documentHeight 2000) ;;
        assign (set_maxScrollDepth 1000) ;;
        getScrollPercentage) on_a = 50.
Proof. vm_compute. reflexivity. Qed.

(** The division and the product are those of doubles: 1150 of 2000 is
    0.575, the double nearest to it is below it, and the percentage is 57
    where the exact ratio would round to 58. *)
Example depth_1150_of_2000_is_57 :
  eval (assign (set_documentHeight 2000) ;;
        assign (set_maxScrollDepth 1150) ;;
        getScrollPercentage) on_a = 57 /\
  Math_round ((1150 / 2000) * 100) = 58.
Proof. vm_compute. split; reflexivity. Qed.

(** And so is the difference [tt] is rounded from: the readings 90061.4
    and 330.9, that is the doubles nearest to them, differ by less than
    89730.5, their difference as doubles is 89730.5, and [tt] is 89731. *)
Example tt_of_two_readings :
  let now := Double.nearest (900614 # 10) in
  let start := Double.nearest (3309 # 10) in
  Math_round (Double.sub now start) = 89731 /\ Math_round (now - start) = 89730.
Proof. vm_compute. split; reflexivity. Qed.

(** [Double] against the floats of the kernel: the percentage of some
    depths of a document of 2000 pixels and of one of 1999, differences
    and sums of some readings with one decimal. *)
Example double_is_binary64 :
  forallb (fun m => same_percentage m 2000 && same_percentage m 1999)
          (upto 120 1100) = true /\
  forallb (fun a => forallb (fun b => same_difference a b && same_sum b a)
                            (upto 8 3305))
          (upto 8 900610) = true.
Proof. split; vm_compute; reflexivity. Qed.

Example no_height_is_0 :
  eval (assign (set_documentHeight 0) ;;
        assign (set_maxScrollDepth 1000) ;;
        getScrollPercentage) on_a = 0.
Proof. vm_compute. reflexivity. Qed.

(** What the host-name pattern of [shouldTrack] accepts. *)
Example loopback_names :
  map is_loopback
    ["localhost"; "127.0.0.1"; "127.1"; "127.0.1"; "127.0.0.0.1"; "127";
     "127."; "127.0.0.1x"; "1270.0.1"; "example.com"; "localhost.me";
     "127.a"; "127..1"]%string =
  [true; true; true; true; false; false;
   false; false; false; false; false;
   false; false].
Proof. reflexivity. Qed.

(** A page of 800 pixels in a window of 800, left after 1500 ms: the
    view counts as scrolled to the end, so the report is made although
    under two seconds were spent. *)
Example short_visit_of_a_short_page :
  let w := run tag (page (at_path "/a") 0 800) ticks [PushState (at_path "/b")] in
  map tracked_name (trace w) =
    [None; Some "pageview"; None; Some "engagement"; None; None;
     Some "pageview"; None]%string.
Proof. vm_compute. reflexivity. Qed.

(** A document without height, left after 1500 ms: nothing to report. *)
Example short_visit_without_scroll :
  let w := run tag (page (at_path "/a") 0 0) ticks [PushState (at_path "/b")] in
  map tracked_name (trace w) =
    [None; Some "pageview"; None; None; Some "pageview"; None]%string.
Proof. vm_compute. reflexivity. Qed.

(* ================================================================== *)
(** * What the specification says of the script *)
(* ================================================================== *)

(** C1. Whatever the page goes through after the script started, any
    stretch of the trace over which [currentPath] is not assigned holds
    at most one [pageview] and at most one [engagement] event (and at most
    one request for each); and two calls of [trackEngagement] in a row
    emit the [engagement] event, and request it, at most once. *)
Theorem at_most_one_event_per_page_view :
  (forall (c : Config) (h : Host) (clk : nat -> Z) (l : list Input),
      at_most_once_per_path "pageview" (trace (run c h clk l)) /\
      at_most_once_per_path "engagement" (trace (run c h clk l))) /\
  (forall w : World,
      exists delta,
        trace (exec (trackEngagement ;; trackEngagement) w) = trace w ++ delta /\
        (count (emits "engagement") delta <= 1)%nat /\
        (count (requests "engagement") delta <= 1)%nat).
Proof.
  split.
  - intros c h clk l. destruct (session_ok_run c h clk l) as [H1 H2 _].
    split; apply log_ok_at_most_once; assumption.
  - intros w. rewrite exec_bind. cbv beta.
    destruct (trackEngagement_once w) as (d1 & T1 & E1 & R1 & [-> | S1]).
    + destruct (trackEngagement_once (exec trackEngagement w))
        as (d2 & T2 & E2 & R2 & _).
      exists d2. rewrite T2, T1, app_nil_r. auto.
    + exists d1. unfold exec at 1.
      rewrite trackEngagement_skips by (right; exact S1). auto.
Qed.

(** C2. [handleRouteChange] does nothing when the path is [currentPath].
    When the path differs and [currentPath] is not empty it is
    [trackEngagement] followed by the opening of the new page view: what
    it adds to the trace is what [trackEngagement] adds (actions about the
    [engagement] event only), then the assignment of [currentPath], then
    the [pageview] event and its request; when the page view left has
    something to report, the first of these actions is its [engagement]
    event; and [currentPath] ends up being the new path. *)
Theorem route_change_closes_then_opens :
  forall w : World,
    let path := pathname (location (host w)) in
    (path = currentPath (vars w) -> handleRouteChange w = (tt, w)) /\
    (path <> currentPath (vars w) ->
     currentPath (vars w) <> ""%string ->
     exec handleRouteChange w = exec (enter path) (exec trackEngagement w) /\
     exists closing opening,
       trace (exec trackEngagement w) = trace w ++ closing /\
       trace (exec handleRouteChange w) =
         trace w ++ closing ++ PathSet path :: opening /\
       Forall (about "engagement") closing /\
       (pageviewSent (vars w) = true -> engagementSent (vars w) = false ->
        is_noise w = false ->
        exists d rest,
          closing = Tracked d :: rest /\ Data.n d = "engagement"%string) /\
       (exists d rest,
           opening = Tracked d :: rest /\ Data.n d = "pageview"%string /\
           Forall (fun a => request_name a = Some "pageview"%string) rest) /\
       currentPath (vars (exec handleRouteChange w)) = path).
Proof.
  intros w path. split; [apply handleRouteChange_same|].
  intros Hd Hne.
  pose proof (handleRouteChange_closes_first w Hd Hne) as E. fold path in E.
  split; [exact E|].
  destruct (trackEngagement_trace w) as (closing & Hc & Hshape).
  destruct (enter_trace path (exec trackEngagement w))
    as (fs & Ht & Hf & Hp & _).
  exists closing,
    (Tracked (eventOf "pageview" no_props (exec trackEngagement w)) :: fs).
  rewrite E. split; [exact Hc|]. split; [|split; [|split; [|split]]].
  - rewrite Ht, Hc, <- app_assoc. reflexivity.
  - destruct Hshape as [-> | (gs & -> & Hg)]; constructor.
    + left. reflexivity.
    + eapply Forall_impl; [|exact Hg]. intros a Ha. right. exact Ha.
  - intros Hpv Hes Hn.
    destruct (trackEngagement_effect w Hpv Hes Hn) as (c' & gs & Ee & HO).
    destruct (send_outcome_requests _ _ _ _ HO) as (_ & Hr & _).
    exists (eventOf "engagement" (engagementProps w) w), gs.
    split; [|reflexivity].
    apply (app_inv_head (trace w)). rewrite <- Hc.
    unfold exec. rewrite Ee. unfold trace. open_world w.
    cbn [snd log with_log].
    rewrite rev_app_distr, Hr. cbn. rewrite <- app_assoc. reflexivity.
  - eexists _, fs. repeat split. exact Hf.
  - exact Hp.
Qed.

Lemma route_change_witness :
  let w := exec (step (HostChange (page (at_path "/b") 0 2000))) on_a in
  pathname (location (host w)) <> currentPath (vars w) /\
  currentPath (vars w) <> ""%string /\
  currentPath (vars (exec handleRouteChange w)) = "/b"%string.
Proof.
  intros w.
  assert (H1 : pathname (location (host w)) <> currentPath (vars w))
    by (vm_compute; discriminate).
  assert (H2 : currentPath (vars w) <> ""%string)
    by (vm_compute; discriminate).
  split; [exact H1|split; [exact H2|]].
  destruct (proj2 (route_change_closes_then_opens w) H1 H2)
    as (_ & closing & opening & _ & _ & _ & _ & _ & Hc).
  exact Hc.
Defined.



(** C4, as the script has it.  [Date.now()] is the wall clock, which
    can be set back.  The script started on a page at 5000 and the clock
    then gives 4000 and 2000: two readings of the engaged time with no
    call between them give -1000 and then -3000, and so do two readings
    with a pause and a start between them; the closing report then sent
    carries a negative [e]. *)
Lemma clock_set_back_decreases_elapsed :
  let w := run tag (page (at_path "/a") 0 2000) set_back [] in
  eval (t1 <- getEngagementTime ;;
        calls [] ;;
        t2 <- getEngagementTime ;;
        ret (t1, t2)) w = (-1000, -3000) /\
  eval (t1 <- getEngagementTime ;;
        calls [CallPause; CallStart] ;;
        t2 <- getEngagementTime ;;
        ret (t1, t2)) w = (-1000, -3000) /\
  (exists d requests,
     trace (exec trackEngagement w) = trace w ++ Tracked d :: requests /\
     Data.e d = Some (-1000)).
Proof.
  cbv zeta. split; [vm_compute; reflexivity|].
  split; [vm_compute; reflexivity|].
  eexists. eexists. split; [vm_compute; reflexivity|reflexivity].
Qed.

(** C4 (amended). As long as the readings of [Date.now()] do not
    decrease: between two readings of [getEngagementTime] separated by
    any sequence of [startEngagement] and [pauseEngagement] calls the
    value does not decrease.  And, whatever the clock, a second
    [startEngagement] right after a first changes nothing, so the engaged
    time read next is that after a single call. *)
Theorem elapsed_monotone_start_idempotent :
  forall w : World,
    (forall l : list Call,
        clock_monotone w ->
        let '(t1, t2) :=
          eval (t1 <- getEngagementTime ;;
                calls l ;;
                t2 <- getEngagementTime ;;
                ret (t1, t2)) w in
        t1 <= t2) /\
    exec (startEngagement ;; startEngagement) w = exec startEngagement w /\
    eval (startEngagement ;; startEngagement ;; getEngagementTime) w =
    eval (startEngagement ;; getEngagementTime) w.
Proof.
  intros w. split; [| split].
  - intros l Hm.
    rewrite eval_bind, eval_bind, eval_bind.
    unfold ret at 1. unfold eval at 1. cbn [fst].
    destruct (read_gives_bound w Hm) as [Hm1 Hb].
    destruct (calls_keep_bound l _ _ Hm1 Hb) as [_ Hb2].
    rewrite (getEngagementTime_value (exec (calls l) _)). exact Hb2.
  - rewrite exec_bind. cbv beta. unfold exec at 1.
    rewrite (start_when_active (exec startEngagement w))
      by apply start_makes_active.
    reflexivity.
  - rewrite eval_bind. cbv beta. rewrite eval_bind. cbv beta.
    rewrite (eval_bind startEngagement). cbv beta.
    unfold exec at 1.
    rewrite (start_when_active (exec startEngagement w))
      by apply start_makes_active.
    reflexivity.
Qed.

Lemma elapsed_monotone_witness :
  clock_monotone (boot tag (page (at_path "/a") 0 2000) ticks) /\
  (let '(t1, t2) :=
     eval (t1 <- getEngagementTime ;;
           calls [CallStart; CallPause; CallStart; CallStart] ;;
           t2 <- getEngagementTime ;;
           ret (t1, t2)) (boot tag (page (at_path "/a") 0 2000) ticks) in
   t1 <= t2).
Proof.
  assert (H : clock_monotone (boot tag (page (at_path "/a") 0 2000) ticks)).
  { intros i j Hij. simpl. unfold ticks. lia. }
  split.
  - exact H.
  - exact (proj1 (elapsed_monotone_start_idempotent _)
                 [CallStart; CallPause; CallStart; CallStart] H).
Defined.

(** C5, as the script has it: the script started on a page and the
    window then lost focus; the timer is stopped and [engagementStart]
    still holds the start time, so "active iff start set" is false. *)
Lemma pause_keeps_engagementStart :
  let w := run tag (page (at_path "/a") 0 2000) ticks [Blur] in
  engagementTimerActive (vars w) = false /\
  engagementStart (vars w) = Some 1000 /\
  ~ active_iff_start_set w.
Proof.
  vm_compute. repeat split.
  intros [_ H]. discriminate H. discriminate.
Qed.

(** C5 (amended). A running timer has its start time set: in every world
    the script reaches, and across [startEngagement], [pauseEngagement],
    [resetEngagementTracking] and [getEngagementTime] from any world
    where it holds.  [pauseEngagement] on a running timer adds
    [now - engagementStart] to the accumulated time and stops the timer,
    and leaves [engagementStart] as it was. *)
Theorem accumulator_invariant :
  (forall (c : Config) (h : Host) (clk : nat -> Z) (l : list Input),
      active_implies_start_set (run c h clk l)) /\
  (forall w : World,
      active_implies_start_set w ->
      active_implies_start_set (exec startEngagement w) /\
      active_implies_start_set (exec pauseEngagement w) /\
      active_implies_start_set (exec resetEngagementTracking w) /\
      active_implies_start_set (exec getEngagementTime w)) /\
  (forall w : World,
      engagementTimerActive (vars w) = true ->
      accumulatedEngagement (vars (exec pauseEngagement w)) =
        accumulatedEngagement (vars w) +
        (next_reading w - toNumber (engagementStart (vars w))) /\
      engagementTimerActive (vars (exec pauseEngagement w)) = false /\
      engagementStart (vars (exec pauseEngagement w)) =
        engagementStart (vars w)).
Proof.
  split; [exact start_set_run|]. split; [|exact pause_effect].
  intros w Hw. repeat split.
  all: revert Hw; unfold active_implies_start_set; open_world w; accumulator.
  all: destruct act; cbn; intros Hw H; try discriminate; auto.
Qed.

Lemma accumulator_invariant_witness :
  active_implies_start_set (exec pauseEngagement on_a) /\
  accumulatedEngagement (vars (exec pauseEngagement on_a)) = 1500 /\
  engagementStart (vars (exec pauseEngagement on_a)) = Some 1000.
Proof.
  destruct accumulator_invariant as (Hr & Hk & Hp).
  assert (Hw : active_implies_start_set on_a) by exact (Hr _ _ _ []).
  destruct (Hk on_a Hw) as (_ & H2 & _).
  destruct (Hp on_a eq_refl) as (Ha & _ & Hs).
  split; [exact H2|split].
  - rewrite Ha. reflexivity.
  - rewrite Hs. reflexivity.
Defined.

(** C6. [shouldTrack] is false exactly when the host name matches the
    loop-back pattern (as "127.0.0.1" and "localhost" do), the
    automation flag or the Cypress global is set, or the stored
    [analytics_ignore] is "true".  When it is false [sendRequest] returns
    with the world unchanged, so [trackEvent] ends with no request made.
    When reading the stored value throws, the other three signals alone
    decide. *)
Theorem gate_closed_no_request :
  forall w : World,
    (eval shouldTrack w = false <-> gate_closed (host w)) /\
    (gate_closed (host w) ->
     (forall d, sendRequest d w = (tt, w)) /\
     (forall name props,
         exec (trackEvent name props) w =
           with_log (Tracked (eventOf name props w) :: log w) w)) /\
    (localStorage_getItem (host w) "analytics_ignore"%string = None ->
     eval shouldTrack w =
       negb (is_loopback (hostname (location (host w))) ||
             navigator_webdriver (host w) || window_Cypress (host w))) /\
    is_loopback "127.0.0.1" = true /\
    is_loopback "localhost" = true.
Proof.
  intros w. split; [apply shouldTrack_false|]. split; [|split].
  - intros Hc. apply shouldTrack_false in Hc. split.
    + intros d. apply sendRequest_gate_closed. exact Hc.
    + intros name props. unfold exec, trackEvent. cbv [bind].
      rewrite basePayload_run. fold (eventOf name props w). cbv [record].
      rewrite sendRequest_gate_closed.
      * reflexivity.
      * rewrite <- Hc. apply shouldTrack_host. open_world w. reflexivity.
  - intros Hn. open_world w. cbn in Hn. dispatcher.
    destruct (is_loopback _); [reflexivity|].
    destruct (navigator_webdriver hst), (window_Cypress hst); try reflexivity.
    cbn. rewrite Hn. reflexivity.
  - split; reflexivity.
Qed.

Lemma gate_closed_witness :
  (let w := boot tag loopback_page ticks in
   gate_closed (host w) /\
   trace (exec (trackEvent "pageview" no_props) w) =
     [Tracked (eventOf "pageview" no_props w)]) /\
  (let w := boot tag page_without_storage ticks in
   localStorage_getItem (host w) "analytics_ignore"%string = None /\
   eval shouldTrack w = true).
Proof.
  split.
  - intros w.
    assert (Hc : gate_closed (host w)) by (left; reflexivity).
    split; [exact Hc|].
    destruct (gate_closed_no_request w) as (_ & H & _).
    destruct (H Hc) as [_ Ht]. unfold trace. rewrite Ht. reflexivity.
  - intros w.
    assert (Hn : localStorage_getItem (host w) "analytics_ignore"%string = None)
      by reflexivity.
    split; [exact Hn|].
    destruct (gate_closed_no_request w) as (_ & _ & H & _).
    rewrite (H Hn). reflexivity.
Defined.

(** C7, as the script has it.  A before-send function that throws at
    once, on an event without [p]: the request carries [p: {}], which the
    event did not have.  And one that marks its argument before it
    throws, on an event whose [p] is the custom properties: the request
    carries the mark, and so does [config.customProps] afterwards. *)
Lemma throwing_hook_changes_payload :
  (let w := boot tag_with_hook page_with_throwing_hook ticks in
   let d := eventOf "pageview" no_props w in
   Data.p d = None /\
   trace (exec (sendRequest d) w) =
     [Fetch (endpoint tag) (Data.with_p (Some (JObj [])) d)] /\
   Data.with_p (Some (JObj [])) d <> Data.body d) /\
  (let w := boot tag_with_props page_with_marking_hook ticks in
   let d := eventOf "pageview" no_props w in
   let marked := [("seen"%string, JBool true); ("plan"%string, JStr "pro")] in
   Data.p d = Some [("plan"%string, JStr "pro")] /\
   trace (exec (sendRequest d) w) =
     [Fetch (endpoint tag) (Data.with_p (Some (JObj marked)) d)] /\
   Data.with_p (Some (JObj marked)) d <> Data.body d /\
   customProps (config (vars (exec (sendRequest d) w))) = Some marked).
Proof.
  split; vm_compute; repeat split; discriminate.
Qed.

(** C7 (amended). With requests allowed and a before-send name
    configured: when reading the host global throws or gives something
    that is not a function, the event is sent exactly as it was built;
    when the function is found and throws, the event is still sent, with
    every field but [p] as it was built and [p] the object the function
    was called with (an empty one if the event had no [p]) in the state
    the function left it in. *)
Theorem failed_hook_still_sends :
  forall (w : World) (d : Data.t Obj) (name : string),
    may_send w = true ->
    beforeSend (config (vars w)) = Some name ->
    name <> ""%string ->
    ((window_prop (host w) name = LookupThrows \/
      window_prop (host w) name = NotAFunction) ->
     exec (sendRequest d) w =
       with_log (Fetch (endpoint (config (vars w))) (Data.body d) :: log w) w) /\
    (forall fn,
        window_prop (host w) name = Function fn ->
        outcome (fn (hookArgument d)) = None ->
        exec (sendRequest d) w =
          with_log
            (Fetch (endpoint (config (vars w)))
               (Data.with_p (Some (JObj (arg_after (fn (hookArgument d))))) d)
             :: log w)
            (with_vars
               (set_config
                  (configAfterHook d (arg_after (fn (hookArgument d)))
                     (config (vars w)))
                  (vars w)) w)).
Proof.
  intros w d name Hg Hb Hn.
  unfold may_send in Hg. apply andb_true_iff in Hg as [Hf Hs].
  apply String.eqb_neq in Hn.
  assert (E : exec (sendRequest d) w =
              exec (body <- applyHook name d ;;
                    fetch (endpoint (config (vars w))) body) w).
  { unfold exec, sendRequest. cbv [bind env ret]. rewrite Hf. cbv [negb].
    rewrite shouldTrack_run, Hs. cbv [var]. rewrite Hb, Hn. reflexivity. }
  rewrite E. clear E.
  unfold exec, applyHook, hookArgument, configAfterHook.
  cbv [bind env ret var fetch record].
  split.
  - intros [-> | ->]; reflexivity.
  - intros fn -> Ho.
    destruct (Data.p d) as [o|].
    + destruct (customProps (config (vars w))); rewrite Ho; open_world w;
        reflexivity.
    + rewrite Ho. open_world w. reflexivity.
Qed.

Lemma failed_hook_witness :
  (let w := boot tag_with_hook page_with_throwing_hook ticks in
   let d := eventOf "pageview" no_props w in
   may_send w = true /\
   trace (exec (sendRequest d) w) =
     [Fetch (endpoint tag) (Data.with_p (Some (JObj [])) d)]) /\
  (let w := boot tag_with_hook (page (at_path "/a") 0 2000) ticks in
   let d := eventOf "pageview" no_props w in
   window_prop (host w) "enrich" = NotAFunction /\
   trace (exec (sendRequest d) w) = [Fetch (endpoint tag) (Data.body d)]).
Proof.
  split; intros w d.
  - assert (H1 : may_send w = true) by reflexivity.
    assert (H2 : beforeSend (config (vars w)) = Some "enrich"%string)
      by reflexivity.
    assert (H3 : "enrich"%string <> ""%string) by discriminate.
    split; [exact H1|].
    destruct (failed_hook_still_sends w d "enrich" H1 H2 H3) as [_ H].
    unfold trace. rewrite (H throwing eq_refl eq_refl). reflexivity.
  - assert (H1 : may_send w = true) by reflexivity.
    assert (H2 : beforeSend (config (vars w)) = Some "enrich"%string)
      by reflexivity.
    assert (H3 : "enrich"%string <> ""%string) by discriminate.
    assert (H4 : window_prop (host w) "enrich" = NotAFunction) by reflexivity.
    split; [exact H4|].
    destruct (failed_hook_still_sends w d "enrich" H1 H2 H3) as [H _].
    unfold trace. rewrite (H (or_intror H4)). reflexivity.
Defined.

(** C8. Whatever the page goes through, the callback of a timer made on
    'load' runs at most ten times; there is one timer per 'load', its
    period is 300; while it is not cleared each firing runs the callback
    once more; it is cleared exactly when the callback has run ten times,
    and from then on it stays cleared and the callback never runs
    again. *)
Theorem height_polling_is_bounded :
  forall (c : Config) (h : Host) (clk : nat -> Z) (l : list Input) (k : nat),
    let w := run c h clk l in
    (polls k (trace w) <= 10)%nat /\
    List.length (timers w) = List.length (filter is_load l) /\
    forall t : Timer,
      nth_error (timers w) k = Some t ->
      delay t = 300 /\
      (cleared t = true <-> polls k (trace w) = 10%nat) /\
      (cleared t = false ->
       polls k (trace (exec (step (Interval k)) w)) = S (polls k (trace w))) /\
      (cleared t = true ->
       forall l' : list Input,
         polls k (trace (exec (steps l') w)) = 10%nat /\
         exists t', nth_error (timers (exec (steps l') w)) k = Some t' /\
                    cleared t' = true).
Proof.
  intros c h clk l k w.
  assert (Hrev : forall W, polls k (trace W) = polls k (log W))
    by (intros W; apply count_rev).
  pose proof (timer_ok_run c h clk l k) as Hk. fold w in Hk.
  rewrite !Hrev. split; [|split; [apply timers_count_run|]].
  - unfold timer_ok in Hk. destruct (nth_error (timers w) k) as [t|].
    + destruct Hk as [_ Hk]. destruct (cleared t); lia.
    + lia.
  - intros t Ht. unfold timer_ok in Hk. rewrite Ht in Hk.
    destruct Hk as [Hd Hk]. split; [exact Hd|]. split; [|split].
    + destruct (cleared t); split; try lia; try discriminate; auto.
    + intros Hc. cbn [step]. unfold exec, runInterval.
      rewrite Ht, Hc.
      destruct (onInterval_effect k (attempts t) w) as (Hl & _).
      fold (exec (onInterval k (attempts t)) w). rewrite Hl.
      apply polls_cons_same.
    + intros Hc l'. rewrite Hc in Hk. rewrite Hrev.
      pose proof (timer_ok_run c h clk (l ++ l') k) as Hk'.
      rewrite run_app in Hk'. fold w in Hk'.
      destruct (steps_grow l' w k) as [Hp Hn].
      assert (Hs : nth_error (timers w) k <> None) by congruence.
      apply Hn in Hs. unfold timer_ok in Hk'.
      destruct (nth_error (timers (exec (steps l') w)) k) as [t'|];
        [|contradiction].
      destruct Hk' as [_ Hk'].
      destruct (cleared t') eqn:Hc'.
      * split; [exact Hk'|]. exists t'. auto.
      * lia.
Qed.

Lemma height_polling_witness :
  let w := run tag (page (at_path "/a") 0 2000) ticks load_and_ten_ticks in
  polls 0 (trace w) = 10%nat /\
  forall l' : list Input, polls 0 (trace (exec (steps l') w)) = 10%nat.
Proof.
  intros w.
  destruct (height_polling_is_bounded tag (page (at_path "/a") 0 2000) ticks
              load_and_ten_ticks 0) as (_ & _ & H).
  destruct (H {| attempts := 0; delay := 300; cleared := true |} eq_refl)
    as (_ & Hc & _ & Hl).
  split; [apply Hc; reflexivity|].
  intros l'. apply (Hl eq_refl l').
Defined.

(** C9. The page calls the wrapped [pushState] or [replaceState] for a
    location [l] on another path while a page view is open and has
    something to report: the [engagement] event that closes it is the
    first thing emitted and its [u] is the URL of [l], the destination,
    and so not the URL the page had before the call when the two
    differ. *)
Theorem closing_report_carries_new_url :
  forall (w : World) (l : Location),
    pathname l <> currentPath (vars w) ->
    currentPath (vars w) <> ""%string ->
    pageviewSent (vars w) = true ->
    engagementSent (vars w) = false ->
    is_noise w = false ->
    exists d rest,
      trace (exec (wrappedHistoryMethod l) w) = trace w ++ Tracked d :: rest /\
      Data.n d = "engagement"%string /\
      Data.u d = urlOf l /\
      (urlOf l <> eval getCurrentUrl w -> Data.u d <> eval getCurrentUrl w).
Proof.
  intros w l Hp Hc Hpv Hes Hn.
  set (w1 := with_host (set_location l (host w)) w).
  assert (E : exec (wrappedHistoryMethod l) w = exec handleRouteChange w1).
  { unfold exec, wrappedHistoryMethod. cbv [bind]. reflexivity. }
  assert (Hn1 : is_noise w1 = false).
  { rewrite <- Hn. unfold w1. open_world w. unfold is_noise. accumulator.
    destruct act; reflexivity. }
  assert (H1 : pathname (location (host w1)) <> currentPath (vars w1)).
  { unfold w1. open_world w. exact Hp. }
  assert (H2 : currentPath (vars w1) <> ""%string).
  { unfold w1. open_world w. exact Hc. }
  assert (H3 : pageviewSent (vars w1) = true).
  { unfold w1. open_world w. exact Hpv. }
  assert (H4 : engagementSent (vars w1) = false).
  { unfold w1. open_world w. exact Hes. }
  pose proof (handleRouteChange_closes_first w1 H1 H2) as E1.
  destruct (enter_trace (pathname (location (host w1))) (exec trackEngagement w1))
    as (opening & Htr & _).
  destruct (trackEngagement_effect w1 H3 H4 Hn1) as (c' & fs & Ee & HO).
  destruct (send_outcome_requests _ _ _ _ HO) as (_ & Hr & _).
  assert (Hcl' : trace (exec trackEngagement w1) =
                 trace w1 ++
                 Tracked (eventOf "engagement" (engagementProps w1) w1) :: fs).
  { unfold exec. rewrite Ee. unfold trace, w1. open_world w.
    cbn [snd log with_log].
    rewrite rev_app_distr, Hr. cbn. rewrite <- app_assoc. reflexivity. }
  exists (eventOf "engagement" (engagementProps w1) w1),
         (fs ++ PathSet (pathname (location (host w1)))
             :: Tracked (eventOf "pageview" no_props (exec trackEngagement w1))
             :: opening).
  rewrite E, E1, Htr, Hcl'.
  assert (Hu : Data.u (eventOf "engagement" (engagementProps w1) w1) = urlOf l).
  { unfold w1, urlOf. open_world w.
    unfold eventOf, basePayload, getCurrentUrl. js.
    cbn [location href set_location]. destruct (href l); reflexivity. }
  split; [|split; [|split]].
  - rewrite <- app_assoc. unfold trace, w1. open_world w. reflexivity.
  - reflexivity.
  - exact Hu.
  - rewrite Hu. exact (fun H => H).
Qed.

Lemma new_url_witness :
  pathname (at_path "/b") <> currentPath (vars on_a) /\
  exists d rest,
    trace (exec (wrappedHistoryMethod (at_path "/b")) on_a) =
      trace on_a ++ Tracked d :: rest /\
    Data.n d = "engagement"%string /\
    Data.u d = "https://example.com/b"%string /\
    eval getCurrentUrl on_a = "https://example.com/a"%string.
Proof.
  assert (H1 : pathname (at_path "/b") <> currentPath (vars on_a))
    by (vm_compute; discriminate).
  assert (H2 : currentPath (vars on_a) <> ""%string)
    by (vm_compute; discriminate).
  split; [exact H1|].
  destruct (closing_report_carries_new_url on_a (at_path "/b") H1 H2
              eq_refl eq_refl eq_refl) as (d & rest & Ht & Hn & Hu & _).
  exists d, rest. split; [exact Ht|split; [exact Hn|split; [exact Hu|]]].
  reflexivity.
Defined.

(** C10. [handleRouteChange] looks at [location.pathname] only: when it
    equals [currentPath] the world is unchanged, whatever the rest of the
    location is; so a wrapped [pushState] or [replaceState] to a location
    with the same path does nothing but move the document there: no
    event, no request, and the scroll and engagement state as before. *)
Theorem same_pathname_is_noop :
  forall w : World,
    (pathname (location (host w)) = currentPath (vars w) ->
     handleRouteChange w = (tt, w)) /\
    (forall l : Location,
        pathname l = currentPath (vars w) ->
        exec (wrappedHistoryMethod l) w = with_host (set_location l (host w)) w).
Proof.
  intros w. split; [apply handleRouteChange_same|].
  intros l Hl. unfold exec, wrappedHistoryMethod. cbv [bind].
  rewrite handleRouteChange_same; [reflexivity|].
  open_world w. exact Hl.
Qed.

Lemma same_pathname_witness :
  pathname a_with_query = currentPath (vars on_a) /\
  exec (wrappedHistoryMethod a_with_query) on_a =
    with_host (set_location a_with_query (host on_a)) on_a.
Proof.
  assert (H : pathname a_with_query = currentPath (vars on_a)) by reflexivity.
  split; [exact H|].
  exact (proj2 (same_pathname_is_noop on_a) a_with_query H).
Defined.

(* ================================================================== *)
(** * Further properties of the script *)
(* ================================================================== *)

(** X1. [getCustomProps] is null when there is no script element.
    Otherwise, when it returns an object, the object has a property
    [key] exactly when the element has an attribute [data-usd-key], the
    key [__proto__] apart, its value being the string of (the last) such
    attribute, and no key twice; and it returns null exactly when the
    attributes define no property at all. *)
Theorem getCustomProps_reads_prefixed_attributes :
  getCustomProps None = None /\
  forall attrs : list Attr,
    match getCustomProps (Some attrs) with
    | Some props =>
        props <> [] /\ NoDup (map fst props) /\
        forall key, lookup key props = customProp key attrs
    | None => forall key, customProp key attrs = None
    end.
Proof.
  split; [reflexivity|]. intros attrs. unfold getCustomProps. cbv zeta.
  assert (H : forall key, lookup key (collectProps attrs []) = customProp key attrs).
  { intros key. rewrite lookup_collectProps. cbn [lookup].
    destruct (customProp key attrs); reflexivity. }
  destruct (collectProps attrs []) as [|kv props] eqn:E; cbn [List.length Nat.ltb Nat.leb].
  - intros key. rewrite <- H. reflexivity.
  - split; [discriminate|]. split; [|exact H].
    rewrite <- E. apply NoDup_collectProps. constructor.
Qed.

(** X2. The test of line 180 accepts exactly the host names of the
    grammar: [localhost], and [127] followed by one to three groups of a
    dot and digits.  So it accepts the short forms of a loop-back address
    and refuses a name that merely begins like one, a longer dotted
    number, the bare [127], and a name that merely begins with
    [localhost]. *)
Theorem is_loopback_grammar :
  (forall s : string, is_loopback s = true <-> loopback_name s) /\
  is_loopback "127.1" = true /\
  is_loopback "127.0.0.1.example.com" = false /\
  is_loopback "127.0.0.0.1" = false /\
  is_loopback "127" = false /\
  is_loopback "localhost.example.com" = false.
Proof.
  split; [|repeat split].
  intros s. unfold is_loopback, loopback_name. split.
  - intros H. apply orb_prop in H. destruct H as [H | H].
    + left. apply String.eqb_eq, H.
    + right.
      destruct s as [|c1 s]; [discriminate H|].
      destruct (Ascii.eqb_spec c1 "1") as [-> | N1];
        [|exfalso; destruct c1 as [[] [] [] [] [] [] [] []]; try discriminate H;
          apply N1; reflexivity].
      destruct s as [|c2 s]; [discriminate H|].
      destruct (Ascii.eqb_spec c2 "2") as [-> | N2];
        [|exfalso; destruct c2 as [[] [] [] [] [] [] [] []]; try discriminate H;
          apply N2; reflexivity].
      destruct s as [|c3 rest]; [discriminate H|].
      destruct (Ascii.eqb_spec c3 "7") as [-> | N3];
        [|exfalso; destruct c3 as [[] [] [] [] [] [] [] []]; try discriminate H;
          apply N3; reflexivity].
      apply loopback_tail_groups in H. destruct H as (groups & Hl & Hg & ->).
      exists groups. repeat split; auto; apply Hl.
  - intros [-> | (groups & Hl & Hg & ->)]; [reflexivity|].
    cbn [append String.eqb Ascii.eqb Bool.eqb orb].
    apply loopback_tail_groups. exists groups. auto.
Qed.

(** X3. In every world the script reaches at most one callback is
    waiting for the next frame, and [ticking] tells whether one is; so
    however many scroll events come before a frame, one callback waits. *)
Theorem at_most_one_callback_waits :
  forall (c : Config) (h : Host) (clk : nat -> Z) (l : list Input),
    let w := run c h clk l in
    rafQueue w = (if ticking (vars w) then 1%nat else 0%nat) /\
    forall n : nat,
      let w' := exec (steps (repeat Scroll (S n))) w in
      rafQueue w' = 1%nat /\ ticking (vars w') = true.
Proof.
  intros c h clk l w. pose proof (frame_ok_run c h clk l) as H. fold w in H.
  split; [exact H|]. intros n w'. unfold w'.
  rewrite (scrolls_effect n w H). split; reflexivity.
Qed.

(** X4. Scroll events and then a frame, in any world the script
    reaches: the callback runs once, [maxScrollDepth] becomes the larger
    of its value and the depth scrolled to, so that it is not below the
    depth the page is at, and nothing waits any more. *)
Theorem scroll_is_sampled_at_the_frame :
  forall (c : Config) (h : Host) (clk : nat -> Z) (l : list Input) (n : nat),
    let w := run c h clk l in
    let w' := exec (steps (repeat Scroll (S n) ++ [AnimationFrame])) w in
    maxScrollDepth (vars w') = sampled w /\
    (eval getCurrentScrollDepth w' <= maxScrollDepth (vars w'))%Q /\
    (maxScrollDepth (vars w) <= maxScrollDepth (vars w'))%Q /\
    ticking (vars w') = false /\ rafQueue w' = 0%nat.
Proof.
  intros c h clk l n w w'. pose proof (frame_ok_run c h clk l) as H. fold w in H.
  assert (E : w' = with_rafQueue 0
                     (with_vars (set_ticking false
                                   (set_maxScrollDepth (sampled w) (vars w))) w)).
  { unfold w'. rewrite steps_app, (scrolls_effect n w H).
    cbn [steps step]. rewrite exec_bind. unfold ret, exec at 1. cbn [snd].
    rewrite runAnimationFrame_one by reflexivity. reflexivity. }
  pose proof (sampled_covers w) as Hc. pose proof (sampled_ge w) as Hg.
  rewrite E. repeat split; assumption.
Qed.

(** X5. Within a page view [maxScrollDepth] never goes down: from any
    world, whatever the inputs, the trace only grows, and if
    [currentPath] is not assigned on the way it is the same afterwards
    and [maxScrollDepth] is at least what it was. *)
Theorem max_depth_never_drops :
  forall (w : World) (l : list Input),
    let w' := exec (steps l) w in
    exists delta,
      trace w' = trace w ++ delta /\
      (forallb (fun a => negb (is_path_set a)) delta = true ->
       currentPath (vars w') = currentPath (vars w) /\
       (maxScrollDepth (vars w) <= maxScrollDepth (vars w'))%Q).
Proof.
  intros w l w'.
  destruct (across_steps _ depth_kept_preorder depth_kept_blocks l w)
    as (delta & E & H). fold w' in E, H.
  exists (rev delta). split.
  - unfold trace. rewrite E. apply rev_app_distr.
  - rewrite forallb_rev. exact H.
Qed.

Lemma max_depth_witness :
  (maxScrollDepth (vars on_a) <=
   maxScrollDepth
     (vars (exec (steps [HostChange (page (at_path "/a") 500 2000);
                         Scroll; AnimationFrame;
                         HostChange (page (at_path "/a") 0 2000);
                         Scroll; AnimationFrame]) on_a)))%Q.
Proof.
  destruct (max_depth_never_drops on_a
              [HostChange (page (at_path "/a") 500 2000);
               Scroll; AnimationFrame;
               HostChange (page (at_path "/a") 0 2000);
               Scroll; AnimationFrame]) as (delta & E & H).
  assert (D : delta = []).
  { apply (app_inv_head (trace on_a)). rewrite <- E, app_nil_r.
    vm_compute. reflexivity. }
  rewrite D in H. apply H. reflexivity.
Defined.

(** X6. In every run the script emits exactly one [pageview] per
    assignment of [currentPath], and never more [engagement] events than
    [pageview] events: a closing report always closes a page view that
    was opened. *)
Theorem one_pageview_per_path :
  forall (c : Config) (h : Host) (clk : nat -> Z) (l : list Input),
    let t := trace (run c h clk l) in
    count (emits "pageview") t = count is_path_set t /\
    (count (emits "engagement") t <= count (emits "pageview") t)%nat.
Proof.
  intros c h clk l t. unfold t, trace. rewrite !count_rev.
  destruct (ledger_run c h clk l) as (_ & _ & H1 & H2).
  split; [exact H1|].
  destruct (pageviewSent _ && negb _) in H2; lia.
Qed.

(** X7. The time between a pause and the next start is not counted:
    pausing a running timer, starting it again and reading it gives what
    was accumulated, plus the stretch up to the pause, plus the stretch
    since the new start.  And a second pause right after a first changes
    nothing. *)
Theorem paused_time_is_not_counted :
  forall w : World,
    engagementTimerActive (vars w) = true ->
    let r := reads w in
    eval (pauseEngagement ;; startEngagement ;; getEngagementTime) w =
      accumulatedEngagement (vars w) +
      (clock w r - toNumber (engagementStart (vars w))) +
      (clock w (S (S r)) - clock w (S r)) /\
    exec (pauseEngagement ;; pauseEngagement) w = exec pauseEngagement w.
Proof.
  intros w. open_world w. cbn [vars engagementTimerActive]. intros ->.
  accumulator. split; reflexivity.
Qed.

Lemma paused_time_witness :
  engagementTimerActive (vars on_a) = true /\
  eval (pauseEngagement ;; startEngagement ;; getEngagementTime) on_a = 3000.
Proof.
  assert (H : engagementTimerActive (vars on_a) = true) by (vm_compute; reflexivity).
  split; [exact H|].
  rewrite (proj1 (paused_time_is_not_counted on_a H)). vm_compute. reflexivity.
Defined.

(** X8. With a clock that does not run backwards the engaged time is
    never negative: in every world the script reaches the accumulated
    time and what [getEngagementTime] returns are not negative, and no
    event emitted and no request made carries a negative [e]. *)
Theorem engaged_time_is_never_negative :
  forall (c : Config) (h : Host) (clk : nat -> Z) (l : list Input),
    (forall i j : nat, (i <= j)%nat -> clk i <= clk j) ->
    let w := run c h clk l in
    0 <= accumulatedEngagement (vars w) /\
    0 <= eval getEngagementTime w /\
    (forall d ev, In (Tracked d) (trace w) -> Data.e d = Some ev -> 0 <= ev) /\
    (forall url b ev, In (Fetch url b) (trace w) -> Data.e b = Some ev -> 0 <= ev).
Proof.
  intros c h clk l Hm w.
  pose proof (timer_sound_run c h clk l Hm) as H. fold w in H.
  pose proof (elapsed_nonneg w H) as He.
  destruct H as (_ & Ha & _ & Hl).
  rewrite getEngagementTime_value. repeat split; auto.
  - intros d ev Hin. apply in_rev in Hin.
    apply (proj1 (reports_nonneg_in _) Hl (Tracked d) Hin).
  - intros url b ev Hin. apply in_rev in Hin.
    apply (proj1 (reports_nonneg_in _) Hl (Fetch url b) Hin).
Qed.

Lemma engaged_time_witness :
  (forall i j : nat, (i <= j)%nat -> ticks i <= ticks j) /\
  0 <= eval getEngagementTime
         (run tag (page (at_path "/a") 0 2000) ticks [Blur; Focus; Pagehide]).
Proof.
  assert (H : forall i j : nat, (i <= j)%nat -> ticks i <= ticks j)
    by (unfold ticks; lia).
  split; [exact H|].
  apply (engaged_time_is_never_negative tag (page (at_path "/a") 0 2000) ticks
           [Blur; Focus; Pagehide] H).
Defined.

(** X9. What [sendRequest] sends.  Without [window.fetch] it does
    nothing.  When requests may be sent and no before-send function is
    named, the event is sent as it was built and nothing else changes.
    When the named function is found and returns, the request is the
    event with [p] replaced by what the function returned, whatever that
    is, and the custom properties of the configuration are what the
    function made of the object it was given. *)
Theorem returned_value_becomes_p :
  forall (w : World) (d : Data.t Obj),
    (window_fetch (host w) = false -> sendRequest d w = (tt, w)) /\
    (may_send w = true ->
     (beforeSend (config (vars w)) = None \/
      beforeSend (config (vars w)) = Some ""%string ->
      exec (sendRequest d) w =
        with_log (Fetch (endpoint (config (vars w))) (Data.body d) :: log w) w) /\
     (forall name fn v,
         beforeSend (config (vars w)) = Some name ->
         name <> ""%string ->
         window_prop (host w) name = Function fn ->
         outcome (fn (hookArgument d)) = Some v ->
         exec (sendRequest d) w =
           with_log
             (Fetch (endpoint (config (vars w))) (Data.with_p (Some v) d) :: log w)
             (with_vars
                (set_config
                   (configAfterHook d (arg_after (fn (hookArgument d)))
                      (config (vars w)))
                   (vars w)) w))).
Proof.
  intros w d. split.
  - intros H. unfold sendRequest. cbv [bind env]. rewrite H. reflexivity.
  - unfold may_send. intros H. apply andb_prop in H. destruct H as [Hf Hs].
    split.
    + intros Hb. unfold exec, sendRequest. cbv [bind env]. rewrite Hf.
      cbv [negb]. rewrite shouldTrack_run, Hs. cbv [var].
      destruct Hb as [-> | ->]; open_world w; reflexivity.
    + intros name fn v Hb Hn Hl Ho. apply String.eqb_neq in Hn.
      unfold exec, sendRequest. cbv [bind env]. rewrite Hf.
      cbv [negb]. rewrite shouldTrack_run, Hs. cbv [var]. rewrite Hb, Hn.
      cbv [negb]. unfold applyHook. cbv [bind env]. rewrite Hl.
      unfold hookArgument, configAfterHook in *.
      destruct (Data.p d) as [o|].
      * rewrite Ho. cbv [var].
        destruct (customProps (config (vars w))) eqn:Hc;
          open_world w; cbn in Hc |- *; rewrite ?Hc; reflexivity.
      * rewrite Ho. open_world w. reflexivity.
Qed.

Lemma returned_value_witness :
  may_send (boot tag_with_props page_with_dropping_hook ticks) = true /\
  trace (exec (sendRequest
                 (eventOf "pageview" no_props
                    (boot tag_with_props page_with_dropping_hook ticks)))
              (boot tag_with_props page_with_dropping_hook ticks)) =
    [Fetch (endpoint tag)
       (Data.with_p (Some JNull)
          (eventOf "pageview" no_props
             (boot tag_with_props page_with_dropping_hook ticks)))].
Proof.
  assert (Hm : may_send (boot tag_with_props page_with_dropping_hook ticks) = true)
    by (vm_compute; reflexivity).
  split; [exact Hm|].
  assert (Hn : "enrich"%string <> ""%string) by discriminate.
  unfold trace.
  rewrite (proj2 (proj2 (returned_value_becomes_p
                           (boot tag_with_props page_with_dropping_hook ticks)
                           (eventOf "pageview" no_props
                              (boot tag_with_props page_with_dropping_hook ticks)))
                   Hm)
             "enrich"%string dropping JNull eq_refl Hn eq_refl eq_refl).
  vm_compute. reflexivity.
Defined.

(** X10. Every event the script emits, in any run, is well formed: it
    carries the unique id and the site id of the tag, its referrer is
    null rather than the empty string, it has a [p] exactly when the tag
    has custom properties (those of the tag when no before-send function
    is named), and it is either a [pageview] with none of the four
    measures or an [engagement] with all of them, [h] being 1 and [sd]
    at most 100.  Every request goes to the endpoint of
    the tag, and comes right after the event it carries, from which it
    differs at most in [p]. *)
Theorem events_are_well_formed :
  forall (c : Config) (h : Host) (clk : nat -> Z) (l : list Input),
    let t := trace (run c h clk l) in
    (forall d, In (Tracked d) t -> event_ok c d) /\
    (forall pre url b post,
        t = pre ++ Fetch url b :: post ->
        url = endpoint c /\
        exists pre' d, pre = pre' ++ [Tracked d] /\ same_but_p d b).
Proof.
  intros c h clk l t.
  destruct (ledger_run c h clk l) as (_ & HW & _). split.
  - intros d Hin. apply (wire_ok_tracked c (log (run c h clk l))); [exact HW|].
    apply in_rev. exact Hin.
  - intros pre url b post E.
    assert (E' : log (run c h clk l) = rev post ++ Fetch url b :: rev pre).
    { rewrite <- (rev_involutive (log (run c h clk l))).
      fold (trace (run c h clk l)). fold t. rewrite E.
      rewrite rev_app_distr. cbn [rev]. rewrite <- app_assoc. reflexivity. }
    rewrite E' in HW. destruct (wire_ok_fetch _ _ _ _ _ HW) as (Hu & d & l2' & El & Hb).
    split; [exact Hu|]. exists (rev l2'), d. split; [|exact Hb].
    rewrite <- (rev_involutive pre), El. reflexivity.
Qed.

Lemma events_are_well_formed_witness :
  event_ok tag
    (eventOf "pageview" no_props (boot tag (page (at_path "/a") 0 2000) ticks)).
Proof.
  apply (proj1 (events_are_well_formed tag (page (at_path "/a") 0 2000) ticks [])).
  vm_compute. right. left. reflexivity.
Defined.

(** X11. The script never rewrites its settings.  In every world it
    reaches, [config] is the object [initConfig] made, unless a
    before-send function is named and the tag had custom properties:
    then it is that object with the content of the custom properties
    changed, and nothing else.  [pageLoadTime] is still the reading taken
    when the script started, and the clock is the page's. *)
Theorem settings_never_change :
  forall (c : Config) (h : Host) (clk : nat -> Z) (l : list Input),
    let w := run c h clk l in
    (config (vars w) = c \/
     exists name o o',
       beforeSend c = Some name /\ name <> ""%string /\
       customProps c = Some o /\
       config (vars w) = set_customProps (Some o') c) /\
    pageLoadTime (vars w) = performance_now h /\
    clock w = clk.
Proof.
  intros c h clk l.
  exact (across_run settings_kept settings_kept_preorder settings_kept_blocks
           c h clk l).
Qed.

(** X12. After [handleRouteChange], [currentPath] is the path of the
    location; so a second notification of the same navigation (the
    wrapped method calls [handleRouteChange], and so do the listeners of
    'popstate', 'pushstate', 'replacestate' and of a 'pageshow' from the
    cache) does nothing. *)
Theorem route_change_is_idempotent :
  forall w : World,
    let w' := exec handleRouteChange w in
    currentPath (vars w') = pathname (location (host w')) /\
    exec (handleRouteChange ;; handleRouteChange) w = w' /\
    exec (step Popstate) w' = w' /\
    exec (step Pushstate) w' = w' /\
    exec (step Replacestate) w' = w' /\
    forall persisted, exec (step (Pageshow persisted)) w' = w'.
Proof.
  intros w. cbv zeta. pose proof (handleRouteChange_settles w) as H.
  pose proof (handleRouteChange_settled _ H) as E.
  split; [symmetry; exact H|]. split; [rewrite exec_bind; exact E|].
  cbn [step]. repeat split; try exact E.
  intros [|]; [exact E|reflexivity].
Qed.

(** X13. A route change to another path opens the new page view
    afresh, whatever the state before and whether or not the document is
    visible: the document height and the scroll depth are measured anew,
    nothing is accumulated, the timer runs, started at the last reading
    of the clock, and the two flags say that a page view is open and not
    yet reported. *)
Theorem route_change_opens_afresh :
  forall w : World,
    pathname (location (host w)) <> currentPath (vars w) ->
    let w' := exec handleRouteChange w in
    let dh := Z.max (body_scrollHeight (host w))
                    (documentElement_scrollHeight (host w)) in
    currentPath (vars w') = pathname (location (host w)) /\
    pageviewSent (vars w') = true /\ engagementSent (vars w') = false /\
    documentHeight (vars w') = dh /\
    maxScrollDepth (vars w') =
      Qmin (Double.add (scrollY (host w)) (inject_Z (innerHeight (host w))))
         (inject_Z dh) /\
    accumulatedEngagement (vars w') = 0 /\
    engagementTimerActive (vars w') = true /\
    engagementStart (vars w') = Some (clock w (pred (reads w'))) /\
    (reads w < reads w')%nat /\
    host w' = host w.
Proof.
  intros w Hp. cbv zeta.
  destruct (String.eqb_spec (currentPath (vars w)) "") as [Hc | Hc].
  - rewrite (handleRouteChange_opens w Hp Hc).
    destruct (enter_opens (pathname (location (host w))) w)
      as (A1 & A2 & A3 & A4 & A5 & A6 & A7 & A8 & A9 & A10 & A11).
    rewrite A9. cbn [pred].
    repeat split; try assumption. apply Nat.lt_succ_diag_r.
  - rewrite (handleRouteChange_closes_first w Hp Hc).
    destruct (trackEngagement_host w) as (Hh & Hk & Hr).
    destruct (enter_opens (pathname (location (host w))) (exec trackEngagement w))
      as (A1 & A2 & A3 & A4 & A5 & A6 & A7 & A8 & A9 & A10 & A11).
    rewrite Hh in A4, A5, A10. rewrite Hk in A8. rewrite A9. cbn [pred].
    repeat split; try assumption. apply Nat.lt_succ_r. exact Hr.
Qed.

Lemma route_change_opens_afresh_witness :
  documentHeight
    (vars (exec handleRouteChange
             (exec (step (HostChange (page (at_path "/b") 300 5000))) on_a))) = 5000 /\
  engagementTimerActive
    (vars (exec handleRouteChange
             (exec (step (HostChange (page (at_path "/b") 300 5000))) on_a))) = true.
Proof.
  assert (H : pathname (location (host
                (exec (step (HostChange (page (at_path "/b") 300 5000))) on_a))) <>
              currentPath (vars
                (exec (step (HostChange (page (at_path "/b") 300 5000))) on_a)))
    by (vm_compute; discriminate).
  destruct (route_change_opens_afresh _ H) as (_ & _ & _ & A4 & _ & _ & A7 & _).
  split; [exact A4|exact A7].
Defined.

(** X14. A call of [trackEngagement] that emits nothing changes
    nothing either, but for the clock readings it may have used: no
    variable of the script, and so not [engagementSent]; a visit that was
    too short to report can still be reported later. *)
Theorem silent_trackEngagement_changes_nothing :
  forall w : World,
    log (exec trackEngagement w) = log w ->
    exec trackEngagement w = with_reads (reads (exec trackEngagement w)) w.
Proof.
  intros w. unfold exec.
  destruct (trackEngagement_cases w)
    as [E | [[_ E] | (_ & _ & _ & c' & fs & E & _)]]; rewrite E.
  - intros _. open_world w. reflexivity.
  - intros _. cbn [snd]. rewrite getEngagementTime_vars. open_world w. reflexivity.
  - cbn [snd]. open_world w. cbn [log with_log with_reads with_vars].
    intros H. apply (f_equal (@List.length Action)) in H.
    rewrite length_app in H. cbn [List.length] in H. lia.
Qed.

Lemma silent_trackEngagement_witness :
  log (exec trackEngagement (run tag (page (at_path "/a") 0 0) ticks [])) =
    log (run tag (page (at_path "/a") 0 0) ticks []) /\
  engagementSent
    (vars (exec trackEngagement (run tag (page (at_path "/a") 0 0) ticks []))) = false.
Proof.
  assert (H : log (exec trackEngagement (run tag (page (at_path "/a") 0 0) ticks [])) =
              log (run tag (page (at_path "/a") 0 0) ticks []))
    by (vm_compute; reflexivity).
  split; [exact H|].
  rewrite (silent_trackEngagement_changes_nothing _ H). vm_compute. reflexivity.
Defined.

(** X15. The engaged time of a page view is never more than the time
    since it was opened, the clock not running backwards: after the page
    view was opened, whatever the inputs, as long as [currentPath] is
    not assigned again, what [getEngagementTime] returns lies between 0
    and the time from the reading at which the timer was started at the
    opening to the next reading of the clock. *)
Theorem engaged_time_is_within_wall_time :
  forall (w : World) (path : string) (l : list Input),
    clock_monotone w ->
    let w0 := exec (enter path) w in
    let w' := exec (steps l) w0 in
    exists delta,
      trace w' = trace w0 ++ delta /\
      (forallb (fun a => negb (is_path_set a)) delta = true ->
       0 <= eval getEngagementTime w' <= next_reading w' - next_reading w).
Proof.
  intros w path l Hm. cbv zeta.
  destruct (across_steps _ (wall_time_kept_preorder (next_reading w))
              (wall_time_kept_blocks (next_reading w)) l (exec (enter path) w))
    as (delta & E & H).
  exists (rev delta). split.
  - unfold trace. rewrite E. apply rev_app_distr.
  - rewrite forallb_rev. intros Hd. apply within_wall_time_elapsed.
    apply (H Hd). apply within_wall_time_opened, Hm.
Qed.

Lemma engaged_time_within_witness :
  0 <= eval getEngagementTime
         (exec (steps [Blur; Focus])
            (exec (enter "/a") (boot tag (page (at_path "/a") 0 2000) ticks)))
    <= 5500 - 1000.
Proof.
  assert (Hm : clock_monotone (boot tag (page (at_path "/a") 0 2000) ticks))
    by (intros i j Hij; simpl; unfold ticks; lia).
  destruct (engaged_time_is_within_wall_time
              (boot tag (page (at_path "/a") 0 2000) ticks) "/a" [Blur; Focus] Hm)
    as (delta & E & H).
  assert (D : delta = []).
  { apply (app_inv_head
             (trace (exec (enter "/a") (boot tag (page (at_path "/a") 0 2000) ticks)))).
    rewrite <- E, app_nil_r. vm_compute. reflexivity. }
  rewrite D in H. apply (H eq_refl).
Defined.
